(** * Snakemake workflow controller: rule registry and run orchestration

    A shallow embedding of [snakemake/workflow.py] (class [Workflow]):
    the rule registry ([add_rule], [rule] and its [decorate] closure, the
    directive setters, [userule]), [register_envvars] and the control flow of
    [execute].  Python objects live in a store and are referred to by
    address, so that aliasing between a rule, its accumulated directives and
    the keyword dictionaries inside them is the one of the program.
    Exceptions are values of [exn]; a raised exception keeps the store as it
    was at the [raise]. *)

From Stdlib Require Import Ascii.
From stdpp Require Import gmap strings list pretty.
From coqutil Require Import Datatypes.RecordSettersUsingExistingGetters.

Open Scope string_scope.
Open Scope Z_scope.

(** ** Python values *)

(** A finite binary float is [m * 2^e]; [int()] of it is exact. *)
Inductive pyfloat :=
| FFinite (m e : Z)
| FInf (negative : bool)
| FNaN.

Inductive pyval :=
| PNone
| PBool (b : bool)
| PInt (z : Z)
| PFloat (f : pyfloat)
| PStr (s : string)
| PAnnotated (s : string) (flags : list string)  (* snakemake.io flagged string *)
| PPath (s : string)                             (* pathlib.Path *)
| PFunc (id : nat)                               (* a function object *)
| PTuple (items : list pyval).

Inductive exn :=
| CreateRuleException (msg : string)
| RuleException (msg : string)
| WorkflowError (msg : string)
| UnknownRuleException (name : string)
| NoRulesException
| KeyError (key : string)
| IndexError
| AttributeError
| AssertionError
| LockException
| OverflowError
| ValueError.

(** [bool(v)] *)
Definition truthy (v : pyval) : bool :=
  match v with
  | PNone => false
  | PBool b => b
  | PInt z => negb (z =? 0)
  | PFloat (FFinite m _) => negb (m =? 0)
  | PFloat _ => true
  | PStr s => negb (String.eqb s EmptyString)
  | PAnnotated s _ => negb (String.eqb s EmptyString)
  | PPath _ => true
  | PFunc _ => true
  | PTuple items => match items with [] => false | _ => true end
  end.

(** [isinstance(v, int)]: [bool] is a subclass of [int]. *)
Definition isinstance_int (v : pyval) : bool :=
  match v with PInt _ | PBool _ => true | _ => false end.

Definition isinstance_float (v : pyval) : bool :=
  match v with PFloat _ => true | _ => false end.

Definition isinstance_str (v : pyval) : bool :=
  match v with PStr _ | PAnnotated _ _ => true | _ => false end.

Definition isinstance_Path (v : pyval) : bool :=
  match v with PPath _ => true | _ => false end.

Definition callable (v : pyval) : bool :=
  match v with PFunc _ => true | _ => false end.

(** [v is None], [v is True], [v is False] *)
Definition is_None (v : pyval) : bool :=
  match v with PNone => true | _ => false end.

Definition is_True (v : pyval) : bool :=
  match v with PBool true => true | _ => false end.

Definition is_False (v : pyval) : bool :=
  match v with PBool false => true | _ => false end.

(** [a or b] returns the first operand when it is truthy. *)
Definition py_or (a b : pyval) : pyval := if truthy a then a else b.

(** [int(f)] for a float: truncation toward zero; infinities and NaN raise. *)
Definition int_of_float (f : pyfloat) : exn + Z :=
  match f with
  | FFinite m e => if 0 <=? e then inr (m * 2 ^ e) else inr (Z.quot m (2 ^ (- e)))
  | FInf _ => inl OverflowError
  | FNaN => inl ValueError
  end.

(** The nearest binary64 float to the literal [3.9]. *)
Definition float_3_9 : pyfloat := FFinite 8782019273372467 (-51).

(** The number that a [bool], an [int] or a finite [float] stands for, as
    [m * 2^e]. *)
Definition py_number (v : pyval) : option (Z * Z) :=
  match v with
  | PBool b => Some (if b then 1 else 0, 0)
  | PInt z => Some (z, 0)
  | PFloat (FFinite m e) => Some (m, e)
  | _ => None
  end.

(** Whether [m1 * 2^e1] and [m2 * 2^e2] are the same number: Python compares
    numbers of different types by their exact values. *)
Definition number_eqb (a b : Z * Z) : bool :=
  let e := Z.min (snd a) (snd b) in
  fst a * 2 ^ (snd a - e) =? fst b * 2 ^ (snd b - e).

(** [v == w].  Numbers are equal when their values are ([True == 1 == 1.0]);
    an infinity equals only itself and NaN nothing; a string and an annotated
    string are equal when their texts are; tuples are compared item by item;
    functions are equal when they are the same object; values of different
    kinds are unequal. *)
Fixpoint py_eq (v w : pyval) : bool :=
  match py_number v, py_number w with
  | Some a, Some b => number_eqb a b
  | _, _ =>
      match v, w with
      | PNone, PNone => true
      | PFloat (FInf a), PFloat (FInf b) => Bool.eqb a b
      | PStr a, PStr b | PStr a, PAnnotated b _
      | PAnnotated a _, PStr b | PAnnotated a _, PAnnotated b _ => String.eqb a b
      | PPath a, PPath b => String.eqb a b
      | PFunc a, PFunc b => Nat.eqb a b
      | PTuple items, PTuple items' =>
          (fix all_eq (l l' : list pyval) : bool :=
             match l, l' with
             | [], [] => true
             | x :: rest, y :: rest' => py_eq x y && all_eq rest rest'
             | _, _ => false
             end) items items'
      | _, _ => false
      end
  end.

(** [v in (w1, ..., wn)] *)
Definition py_in (v : pyval) (ws : list pyval) : bool :=
  existsb (py_eq v) ws.

(** [str(n)] for a natural number. *)
Definition py_str_nat (n : nat) : string := pretty n.

(** ** Dictionaries *)

(** An insertion-ordered dictionary with string keys ([dict], [OrderedDict]). *)
Definition odict (V : Type) := list (string * V).

Fixpoint od_get {V} (d : odict V) (k : string) : option V :=
  match d with
  | [] => None
  | (k', v) :: d' => if String.eqb k k' then Some v else od_get d' k
  end.

Definition od_mem {V} (d : odict V) (k : string) : bool :=
  match od_get d k with Some _ => true | None => false end.

(** [d[k] = v]: an existing key keeps its position. *)
Fixpoint od_set {V} (d : odict V) (k : string) (v : V) : odict V :=
  match d with
  | [] => [(k, v)]
  | (k', v') :: d' =>
      if String.eqb k k' then (k, v) :: d' else (k', v') :: od_set d' k v
  end.

(** [del d[k]] for a key that is present. *)
Fixpoint od_del {V} (d : odict V) (k : string) : odict V :=
  match d with
  | [] => []
  | (k', v') :: d' => if String.eqb k k' then d' else (k', v') :: od_del d' k
  end.

Definition od_keys {V} (d : odict V) : list string := map fst d.
Definition od_values {V} (d : odict V) : list V := map snd d.

(** [d.update(e)] *)
Definition od_update {V} (d e : odict V) : odict V :=
  fold_left (fun acc kv => od_set acc (fst kv) (snd kv)) e d.

(** [m.update(e)] for an unordered map updated from a keyword dictionary. *)
Definition map_update (m : gmap string pyval) (e : odict pyval) : gmap string pyval :=
  fold_left (fun acc kv => <[fst kv := snd kv]> acc) e m.

(** ** Objects *)

Definition addr := nat.

(** [snakemake.ruleinfo.InOutput], a named tuple: [paths] is the tuple of
    positional arguments (for [benchmark] the single argument itself),
    [kwpaths] the dictionary of keyword arguments. *)
Record InOutput := {
  paths : pyval;
  kwpaths : addr;
  modifier : option (string -> string)
}.

(** Modelled from the spec: the directive accumulator [RuleInfo] of
    [snakemake/ruleinfo.py], which is not part of the sources at hand.  One
    field per directive setter of [Workflow]; [None] means that the directive
    was not given.  The pairs hold the positional arguments and the address of
    the keyword dictionary, as the setters build them. *)
Record RuleInfo := {
  ri_func : option addr;
  ri_shellcmd : pyval;
  ri_name : option string;
  ri_norun : bool;
  ri_input : option InOutput;
  ri_output : option InOutput;
  ri_params : option (list pyval * addr);
  ri_message : pyval;
  ri_benchmark : option InOutput;
  ri_conda_env : pyval;
  ri_container_img : pyval;
  ri_is_containerized : bool;
  ri_env_modules : pyval;
  ri_wildcard_constraints : option (list pyval * addr);
  ri_threads : pyval;
  ri_shadow_depth : pyval;
  ri_resources : option (list pyval * addr);
  ri_priority : pyval;
  ri_retries : pyval;
  ri_version : pyval;
  ri_log : option InOutput;
  ri_docstring : pyval;
  ri_group : pyval;
  ri_script : pyval;
  ri_notebook : pyval;
  ri_wrapper : pyval;
  ri_template_engine : pyval;
  ri_cwl : pyval;
  ri_cache : pyval;
  ri_handover : pyval;
  ri_default_target : pyval;
  ri_localrule : pyval
}.

(** [RuleInfo(func)] *)
Definition new_RuleInfo (func : option addr) : RuleInfo := {|
  ri_func := func; ri_shellcmd := PNone; ri_name := None; ri_norun := false;
  ri_input := None; ri_output := None; ri_params := None; ri_message := PNone;
  ri_benchmark := None; ri_conda_env := PNone; ri_container_img := PNone;
  ri_is_containerized := false; ri_env_modules := PNone;
  ri_wildcard_constraints := None; ri_threads := PNone;
  ri_shadow_depth := PNone; ri_resources := None; ri_priority := PNone;
  ri_retries := PNone; ri_version := PNone; ri_log := None;
  ri_docstring := PNone; ri_group := PNone; ri_script := PNone;
  ri_notebook := PNone; ri_wrapper := PNone; ri_template_engine := PNone;
  ri_cwl := PNone; ri_cache := PBool false; ri_handover := PBool false;
  ri_default_target := PBool false; ri_localrule := PBool false
|}.

(** Modelled from the spec: the attributes of [snakemake.rules.Rule] that
    [Workflow] reads and writes; the class itself is not part of the sources
    at hand. *)
Record Rule := {
  rule_name : string;
  rule_lineno : pyval;
  rule_snakefile : pyval;
  rule_is_checkpoint : bool;
  rule_module_globals : option addr;
  rule_wildcard_constraints : odict pyval;
  rule_input : list pyval;
  rule_input_modifier : option (string -> string);
  rule_output : list pyval;
  rule_output_modifier : option (string -> string);
  rule_params : list pyval;
  rule_resources : gmap string pyval;
  rule_shadow_depth : pyval;
  rule_priority : pyval;
  rule_restart_times : pyval;
  rule_version : pyval;
  rule_log : list pyval;
  rule_log_modifier : option (string -> string);
  rule_message : pyval;
  rule_benchmark : pyval;
  rule_benchmark_modifier : option (string -> string);
  rule_group : pyval;
  rule_conda_env : pyval;
  rule_env_modules : pyval;
  rule_container_img : pyval;
  rule_is_containerized : bool;
  rule_norun : bool;
  rule_docstring : pyval;
  rule_run_func : option addr;
  rule_shellcmd : pyval;
  rule_script : pyval;
  rule_notebook : pyval;
  rule_wrapper : pyval;
  rule_template_engine : pyval;
  rule_cwl : pyval;
  rule_basedir : pyval;
  rule_is_handover : bool;
  rule_ruleinfo : option addr
}.

(** [Rule(name, workflow, lineno=lineno, snakefile=snakefile)]: a rule with no
    directive applied yet. *)
Definition new_Rule (name : string) (lineno snakefile : pyval) : Rule := {|
  rule_name := name; rule_lineno := lineno; rule_snakefile := snakefile;
  rule_is_checkpoint := false; rule_module_globals := None;
  rule_wildcard_constraints := [];
  rule_input := []; rule_input_modifier := None;
  rule_output := []; rule_output_modifier := None;
  rule_params := []; rule_resources := ∅;
  rule_shadow_depth := PNone; rule_priority := PInt 0;
  rule_restart_times := PInt 0; rule_version := PNone;
  rule_log := []; rule_log_modifier := None; rule_message := PNone;
  rule_benchmark := PNone; rule_benchmark_modifier := None;
  rule_group := PNone; rule_conda_env := PNone; rule_env_modules := PNone;
  rule_container_img := PNone; rule_is_containerized := false;
  rule_norun := false; rule_docstring := PNone; rule_run_func := None;
  rule_shellcmd := PNone; rule_script := PNone; rule_notebook := PNone;
  rule_wrapper := PNone; rule_template_engine := PNone; rule_cwl := PNone;
  rule_basedir := PNone; rule_is_handover := false; rule_ruleinfo := None
|}.

(** Modelled from the spec: the scope object [WorkflowModifier] of
    [snakemake/modules.py], which is not part of the sources at hand: an
    optional rule-name translation, an optional path translation, an optional
    predicate that says which rule names are skipped, an optional overriding
    [RuleInfo], the permission to overwrite rules, and the namespace that rule
    definitions populate. *)
Record WorkflowModifier := {
  mod_globals : addr;
  mod_rulename_modifier : option (string -> string);
  mod_path_modifier : option (string -> string);
  mod_skip : option (option string -> bool);
  mod_ruleinfo_overwrite : option addr;
  mod_allow_rule_overwrite : bool;
  mod_wildcard_constraints : odict pyval;
  mod_rules : addr;                          (* a set of rules *)
  mod_skip_configfile : bool;
  mod_skip_global_report_caption : bool
}.

Definition skip_rule (m : WorkflowModifier) (rulename : option string) : bool :=
  match mod_skip m with
  | Some p => p rulename
  | None => false
  end.

Definition modify_rulename (m : WorkflowModifier) (rulename : string) : string :=
  match mod_rulename_modifier m with
  | Some f => f rulename
  | None => rulename
  end.

(** [snakemake.workflow.Subworkflow] *)
Record Subworkflow := {
  sw_name : string;
  sw_snakefile : pyval;
  sw_workdir : pyval;
  sw_configfile : pyval
}.

(** The state of a [Workflow] object.  [modifier_stack] is never empty (the
    constructor pushes the root modifier and every later push is undone by the
    scope that made it): its top is [modifier_top]. *)
Record Workflow := {
  global_resources : gmap string pyval;
  _rules : odict addr;
  default_target : option string;
  _localrules : gset string;
  rule_count : nat;
  included_stack : list string;
  _subworkflows : odict Subworkflow;
  modules : gset string;
  overwrite_threads : gmap string pyval;
  overwrite_resources : gmap string (odict pyval);
  overwrite_groups : gmap string pyval;
  _immediate_submit : bool;
  use_conda : bool;
  use_singularity : bool;
  global_container_img : pyval;
  global_is_containerized : bool;
  wrapper_prefix : pyval;
  restart_times : pyval;
  run_local : bool;
  assume_shared_fs : bool;
  report_text : pyval;
  _envvars : gset string;
  execute_subworkflows : bool;
  check_envvars : bool;
  modifier_top : WorkflowModifier;
  modifier_below : list WorkflowModifier;
  enable_cache : bool;
  cache_rules : gmap string pyval;
  default_resources : option (gmap string pyval);
  mode_default : bool;
  scheduler : option nat
}.

Inductive loglevel := Debug | Info | Warning | Error.

(** What the controller asks of its collaborators, in the order asked. *)
Inductive event :=
| Log (level : loglevel) (msg : string)
| Call (what : string).

(** Functions of other modules whose results the controller only passes on. *)
Record Externals := {
  get_conda_env : pyval -> pyval -> pyval;   (* snakemake.wrapper.get_conda_env *)
  get_basedir : string -> pyval;             (* the directory of a source file *)
  os_environ : gset string;                  (* the names defined in os.environ *)
  same_rule : Rule -> Rule -> bool           (* [Rule.__hash__] and [Rule.__eq__] agree *)
}.

(** The store: the workflow object and every object reachable from it. *)
Record Store := {
  wf : Workflow;
  rule_objs : gmap addr Rule;
  ruleinfo_objs : gmap addr RuleInfo;
  dict_objs : gmap addr (odict pyval);
  ruleset_objs : gmap addr (gset addr);
  func_names : gmap addr string;             (* [f.__name__] of function objects *)
  namespaces : gmap addr (gmap string pyval);
  rules_proxy : gmap string addr;            (* attributes of [globals["rules"]] *)
  checkpoints : gmap string addr;            (* rules known to [globals["checkpoints"]] *)
  trace : list event;
  ext : Externals
}.

#[global] Instance Rule_inhabited : Inhabited Rule :=
  populate (new_Rule EmptyString PNone PNone).
#[global] Instance RuleInfo_inhabited : Inhabited RuleInfo :=
  populate (new_RuleInfo None).

(** ** Computations on the store that may raise *)

Inductive result (A : Type) :=
| Ok (a : A)
| Raise (e : exn).
Arguments Ok {A} a.
Arguments Raise {A} e.

Definition M (A : Type) : Type := Store -> result A * Store.

Definition ret {A} (a : A) : M A := fun st => (Ok a, st).

Definition bind {A B} (m : M A) (k : A -> M B) : M B :=
  fun st =>
    match m st with
    | (Ok a, st') => k a st'
    | (Raise e, st') => (Raise e, st')
    end.

Definition raise {A} (e : exn) : M A := fun st => (Raise e, st).

Definition gets {A} (f : Store -> A) : M A := fun st => (Ok (f st), st).

Definition modify (f : Store -> Store) : M unit := fun st => (Ok tt, f st).

(** [try: m finally: cleanup] with a cleanup that cannot raise. *)
Definition finally {A} (m : M A) (cleanup : Store -> Store) : M A :=
  fun st => let '(r, st') := m st in (r, cleanup st').

Declare Scope py_scope.
Delimit Scope py_scope with py.
Notation "x <- m ;; k" := (bind m (fun x => k))
  (at level 100, m at next level, right associativity) : py_scope.
Notation "m ;; k" := (bind m (fun _ => k))
  (at level 100, right associativity) : py_scope.
Open Scope py_scope.

(** [if c: m] *)
Definition when (c : bool) (m : M unit) : M unit := if c then m else ret tt.

(** The statements of a block, one after the other. *)
Fixpoint run_all (ms : list (M unit)) : M unit :=
  match ms with
  | [] => ret tt
  | m :: ms' => m ;; run_all ms'
  end.

Definition emit (e : event) : M unit :=
  modify (fun st => st <| trace ::= fun t => (t ++ [e])%list |>).

Definition logger (level : loglevel) (msg : string) : M unit := emit (Log level msg).

(** *** Access to objects *)

Definition the_rule (st : Store) (r : addr) : Rule := rule_objs st !!! r.
Definition the_ruleinfo (st : Store) (ri : addr) : RuleInfo := ruleinfo_objs st !!! ri.
Definition the_dict (st : Store) (d : addr) : odict pyval :=
  default [] (dict_objs st !! d).
Definition the_namespace (st : Store) (g : addr) : gmap string pyval :=
  default ∅ (namespaces st !! g).

Definition get_rule_obj (r : addr) : M Rule := gets (fun st => the_rule st r).
Definition get_ruleinfo (ri : addr) : M RuleInfo := gets (fun st => the_ruleinfo st ri).
Definition get_dict (d : addr) : M (odict pyval) := gets (fun st => the_dict st d).
Definition get_wf : M Workflow := gets (fun st => wf st).

(** An attribute assignment on the rule at [r]. *)
Definition set_rule (r : addr) (f : Rule -> Rule) : M unit :=
  modify (fun st => st <| rule_objs ::= fun h => <[r := f (h !!! r)]> h |>).

Definition set_ruleinfo (ri : addr) (f : RuleInfo -> RuleInfo) : M unit :=
  modify (fun st => st <| ruleinfo_objs ::= fun h => <[ri := f (h !!! ri)]> h |>).

Definition set_wf (f : Workflow -> Workflow) : M unit :=
  modify (fun st => st <| wf ::= f |>).

(** A new object: its address is one not in use. *)
Definition alloc_rule (r : Rule) : M addr :=
  fun st =>
    let a := fresh (dom (rule_objs st)) in
    (Ok a, st <| rule_objs ::= <[a := r]> |>).

Definition alloc_ruleinfo (ri : RuleInfo) : M addr :=
  fun st =>
    let a := fresh (dom (ruleinfo_objs st)) in
    (Ok a, st <| ruleinfo_objs ::= <[a := ri]> |>).

Definition alloc_dict (d : odict pyval) : M addr :=
  fun st =>
    let a := fresh (dom (dict_objs st)) in
    (Ok a, st <| dict_objs ::= <[a := d]> |>).

(** ** The controller *)

(** [Workflow.modifier]: the top of the modifier stack. *)
Definition get_modifier : M WorkflowModifier := gets (fun st => modifier_top (wf st)).

(** [Workflow.globals] *)
Definition get_globals : M addr := gets (fun st => mod_globals (modifier_top (wf st))).

(** [Workflow.is_rule] *)
Definition is_rule (w : Workflow) (name : string) : bool := od_mem (_rules w) name.

(** [Workflow.get_cache_mode] *)
Definition get_cache_mode (st : Store) (r : addr) : option pyval :=
  cache_rules (wf st) !! rule_name (the_rule st r).

(** [Workflow.add_rule].  The rules of the scope are a set: [add] leaves it
    as it is when it holds a rule that is the same element as the new one. *)
Definition add_rule (name : string) (lineno snakefile : pyval)
    (checkpoint allow_overwrite : bool) : M string :=
  w <- get_wf ;;
  let is_overwrite := is_rule w name in
  if negb allow_overwrite && is_overwrite then
    raise (CreateRuleException ("The name " ++ name ++ " is already used by another rule"))
  else
    r <- alloc_rule (new_Rule name lineno snakefile) ;;
    set_wf (fun w => w <| _rules ::= fun d => od_set d name r |>) ;;
    m <- get_modifier ;;
    modify (fun st =>
      st <| ruleset_objs ::= fun h =>
        let rules := default ∅ (h !! mod_rules m) in
        if existsb (fun r' => same_rule (ext st) (the_rule st r') (the_rule st r))
             (elements rules)
        then h
        else <[mod_rules m := {[r]} ∪ rules]> h |>) ;;
    when (negb is_overwrite)
      (set_wf (fun w => w <| rule_count ::= S |>)) ;;
    w <- get_wf ;;
    when (match default_target w with None | Some EmptyString => true | _ => false end)
      (set_wf (fun w => w <| default_target := Some name |>)) ;;
    ret name.

(** [Workflow.get_rule] *)
Definition get_rule (name : string) : M addr :=
  w <- get_wf ;;
  match _rules w with
  | [] => raise NoRulesException
  | _ =>
      match od_get (_rules w) name with
      | None => raise (UnknownRuleException name)
      | Some r => ret r
      end
  end.

(** *** Methods of [Rule] and [RuleInfo] used by [decorate] *)

Definition apply_path_modifier (pm : option (string -> string)) (v : pyval) : pyval :=
  match pm, v with
  | Some f, PStr s => PStr (f s)
  | Some f, PAnnotated s flags => PAnnotated (f s) flags
  | _, _ => v
  end.

(** [_IOFile.is_multiext]: the path carries the flag that [multiext()] sets. *)
Definition is_multiext (v : pyval) : bool :=
  match v with
  | PAnnotated _ flags => existsb (String.eqb "multiext") flags
  | _ => false
  end.

(** The arguments of a call that unpacks a tuple and a dictionary, positional
    ones first. *)
Definition call_args (args : pyval) (kwargs : odict pyval) : list pyval :=
  (match args with PTuple items => items | v => [v] end ++ od_values kwargs)%list.

(** Modelled from the spec: [Rule.set_input], [Rule.set_output] and
    [Rule.set_log] append every given path, translated by the modifier of the
    scope, to the ordered list the rule has. *)
Definition set_inoutput (pm : option (string -> string)) (old : list pyval)
    (args : pyval) (kwargs : odict pyval) : list pyval :=
  (old ++ map (apply_path_modifier pm) (call_args args kwargs))%list.

(** Modelled from the spec: [RuleInfo.apply_modifier] merges the overriding
    [RuleInfo] of the scope, when there is one, over the accumulated
    directives: every attribute of it other than [func] that is not [None]
    replaces the accumulated one. *)
Definition over (o v : pyval) : pyval := if is_None o then v else o.

Definition over_opt {A} (o v : option A) : option A :=
  match o with Some _ => o | None => v end.

Definition merge_ruleinfo (o ri : RuleInfo) : RuleInfo := {|
  ri_func := ri_func ri;
  ri_shellcmd := over (ri_shellcmd o) (ri_shellcmd ri);
  ri_name := over_opt (ri_name o) (ri_name ri);
  ri_norun := ri_norun o;
  ri_input := over_opt (ri_input o) (ri_input ri);
  ri_output := over_opt (ri_output o) (ri_output ri);
  ri_params := over_opt (ri_params o) (ri_params ri);
  ri_message := over (ri_message o) (ri_message ri);
  ri_benchmark := over_opt (ri_benchmark o) (ri_benchmark ri);
  ri_conda_env := over (ri_conda_env o) (ri_conda_env ri);
  ri_container_img := over (ri_container_img o) (ri_container_img ri);
  ri_is_containerized := ri_is_containerized o;
  ri_env_modules := over (ri_env_modules o) (ri_env_modules ri);
  ri_wildcard_constraints :=
    over_opt (ri_wildcard_constraints o) (ri_wildcard_constraints ri);
  ri_threads := over (ri_threads o) (ri_threads ri);
  ri_shadow_depth := over (ri_shadow_depth o) (ri_shadow_depth ri);
  ri_resources := over_opt (ri_resources o) (ri_resources ri);
  ri_priority := over (ri_priority o) (ri_priority ri);
  ri_retries := over (ri_retries o) (ri_retries ri);
  ri_version := over (ri_version o) (ri_version ri);
  ri_log := over_opt (ri_log o) (ri_log ri);
  ri_docstring := over (ri_docstring o) (ri_docstring ri);
  ri_group := over (ri_group o) (ri_group ri);
  ri_script := over (ri_script o) (ri_script ri);
  ri_notebook := over (ri_notebook o) (ri_notebook ri);
  ri_wrapper := over (ri_wrapper o) (ri_wrapper ri);
  ri_template_engine := over (ri_template_engine o) (ri_template_engine ri);
  ri_cwl := over (ri_cwl o) (ri_cwl ri);
  ri_cache := over (ri_cache o) (ri_cache ri);
  ri_handover := over (ri_handover o) (ri_handover ri);
  ri_default_target := over (ri_default_target o) (ri_default_target ri);
  ri_localrule := over (ri_localrule o) (ri_localrule ri)
|}.

Definition apply_modifier (ruleinfo : addr) : M unit :=
  m <- get_modifier ;;
  match mod_ruleinfo_overwrite m with
  | Some o =>
      ov <- get_ruleinfo o ;;
      set_ruleinfo ruleinfo (merge_ruleinfo ov)
  | None => ret tt
  end.

(** [not (ruleinfo.script or ruleinfo.wrapper or ruleinfo.shellcmd or
    ruleinfo.notebook)] *)
Definition invalid_rule (ri : RuleInfo) : bool :=
  negb (truthy (py_or (py_or (py_or (ri_script ri) (ri_wrapper ri))
                             (ri_shellcmd ri)) (ri_notebook ri))).

(** *** [Workflow.rule]: the blocks of its [decorate] closure, in order *)

Section decorate.

(** The variables the closure captures: the rule, the [RuleInfo] it is
    applied to, and the name the rule is registered under. *)
Variables (rule ruleinfo : addr).

Definition decorate_wildcard_constraints : M unit :=
  ri <- get_ruleinfo ruleinfo ;;
  match ri_wildcard_constraints ri with
  | Some (_, kw) =>
      d <- get_dict kw ;;
      set_rule rule (fun r => r <| rule_wildcard_constraints ::= fun c => od_update c d |>)
  | None => ret tt
  end.

(** [if ruleinfo.name: ...]; the result is the new value of [name]. *)
Definition decorate_name (name : string) : M string :=
  ri <- get_ruleinfo ruleinfo ;;
  match ri_name ri with
  | Some new_name =>
      if negb (String.eqb new_name EmptyString) then
        set_rule rule (fun r => r <| rule_name := new_name |>) ;;
        w <- get_wf ;;
        (if is_rule w name then
           set_wf (fun w => w <| _rules ::= fun d => od_del d name |>)
         else raise (KeyError name)) ;;
        set_wf (fun w => w <| _rules ::= fun d => od_set d new_name rule |>) ;;
        r <- get_rule_obj rule ;;
        ret (rule_name r)
      else ret name
  | None => ret name
  end.

Definition decorate_input : M unit :=
  ri <- get_ruleinfo ruleinfo ;;
  match ri_input ri with
  | Some io =>
      set_rule rule (fun r => r <| rule_input_modifier := modifier io |>) ;;
      d <- get_dict (kwpaths io) ;;
      set_rule rule (fun r =>
        r <| rule_input ::= fun l => set_inoutput (modifier io) l (paths io) d |>)
  | None => ret tt
  end.

Definition decorate_output : M unit :=
  ri <- get_ruleinfo ruleinfo ;;
  match ri_output ri with
  | Some io =>
      set_rule rule (fun r => r <| rule_output_modifier := modifier io |>) ;;
      d <- get_dict (kwpaths io) ;;
      set_rule rule (fun r =>
        r <| rule_output ::= fun l => set_inoutput (modifier io) l (paths io) d |>)
  | None => ret tt
  end.

Definition decorate_params : M unit :=
  ri <- get_ruleinfo ruleinfo ;;
  match ri_params ri with
  | Some (args, kw) =>
      d <- get_dict kw ;;
      set_rule rule (fun r =>
        r <| rule_params ::= fun l => (l ++ args ++ od_values d)%list |>)
  | None => ret tt
  end.

Definition decorate_default_resources : M unit :=
  w <- get_wf ;;
  match default_resources w with
  | Some parsed => set_rule rule (fun r => r <| rule_resources := parsed |>)
  | None => ret tt
  end.

Definition decorate_threads (name : string) : M unit :=
  ri <- get_ruleinfo ruleinfo ;;
  when (negb (is_None (ri_threads ri))) (
    (if negb (isinstance_int (ri_threads ri))
        && negb (isinstance_float (ri_threads ri))
        && negb (callable (ri_threads ri))
     then raise (RuleException "Threads value has to be an integer, float, or a callable.")
     else ret tt) ;;
    w <- get_wf ;;
    match overwrite_threads w !! name with
    | Some v => set_rule rule (fun r => r <| rule_resources ::= <["_cores" := v]> |>)
    | None =>
        match ri_threads ri with
        | PFloat f =>
            match int_of_float f with
            | inr z => set_ruleinfo ruleinfo (fun i => i <| ri_threads := PInt z |>)
            | inl e => raise e
            end
        | _ => ret tt
        end ;;
        ri <- get_ruleinfo ruleinfo ;;
        set_rule rule (fun r => r <| rule_resources ::= <["_cores" := ri_threads ri]> |>)
    end).

Definition decorate_shadow : M unit :=
  ri <- get_ruleinfo ruleinfo ;;
  when (truthy (ri_shadow_depth ri)) (
    (if negb (py_in (ri_shadow_depth ri)
                [PBool true; PStr "shallow"; PStr "full"; PStr "minimal";
                 PStr "copy-minimal"])
     then raise (RuleException
       "Shadow must either be 'minimal', 'copy-minimal', 'shallow', 'full', or True (equivalent to 'full')")
     else ret tt) ;;
    if is_True (ri_shadow_depth ri) then
      set_rule rule (fun r => r <| rule_shadow_depth := PStr "full" |>) ;;
      r <- get_rule_obj rule ;;
      logger Warning ("Shadow is set to True in rule " ++ rule_name r
        ++ " (equivalent to 'full'). It's encouraged to use the more explicit options 'minimal|copy-minimal|shallow|full' instead.")
    else
      set_rule rule (fun r => r <| rule_shadow_depth := ri_shadow_depth ri |>)).

Definition decorate_resources : M unit :=
  ri <- get_ruleinfo ruleinfo ;;
  match ri_resources ri with
  | Some (args, kw) =>
      (match args with
       | [] => ret tt
       | _ => raise (RuleException "Resources have to be named.")
       end) ;;
      resources <- get_dict kw ;;
      (if negb (forallb (fun v => isinstance_int v || isinstance_str v || callable v)
                  (od_values resources))
       then raise (RuleException
         "Resources values have to be integers, strings, or callables (functions)")
       else ret tt) ;;
      set_rule rule (fun r => r <| rule_resources ::= fun m => map_update m resources |>)
  | None => ret tt
  end.

Definition decorate_overwrite_resources (name : string) : M unit :=
  w <- get_wf ;;
  match overwrite_resources w !! name with
  | Some res =>
      set_rule rule (fun r => r <| rule_resources ::= fun m => map_update m res |>)
  | None => ret tt
  end.

Definition decorate_priority : M unit :=
  ri <- get_ruleinfo ruleinfo ;;
  when (truthy (ri_priority ri)) (
    (if negb (isinstance_int (ri_priority ri)) && negb (isinstance_float (ri_priority ri))
     then raise (RuleException "Priority values have to be numeric.")
     else ret tt) ;;
    set_rule rule (fun r => r <| rule_priority := ri_priority ri |>)).

Definition decorate_retries : M unit :=
  ri <- get_ruleinfo ruleinfo ;;
  when (truthy (ri_retries ri)) (
    if negb (isinstance_int (ri_retries ri))
       || match ri_retries ri with PInt z => z <? 0 | _ => false end
    then raise (RuleException "Retries values have to be integers >= 0")
    else ret tt) ;;
  w <- get_wf ;;
  set_rule rule (fun r =>
    r <| rule_restart_times :=
           if is_None (ri_retries ri) then restart_times w else ri_retries ri |>).

Definition decorate_version : M unit :=
  ri <- get_ruleinfo ruleinfo ;;
  when (truthy (ri_version ri))
    (set_rule rule (fun r => r <| rule_version := ri_version ri |>)).

Definition decorate_log : M unit :=
  ri <- get_ruleinfo ruleinfo ;;
  match ri_log ri with
  | Some io =>
      set_rule rule (fun r => r <| rule_log_modifier := modifier io |>) ;;
      d <- get_dict (kwpaths io) ;;
      set_rule rule (fun r =>
        r <| rule_log ::= fun l => set_inoutput (modifier io) l (paths io) d |>)
  | None => ret tt
  end.

Definition decorate_message : M unit :=
  ri <- get_ruleinfo ruleinfo ;;
  when (truthy (ri_message ri))
    (set_rule rule (fun r => r <| rule_message := ri_message ri |>)).

Definition decorate_benchmark : M unit :=
  ri <- get_ruleinfo ruleinfo ;;
  match ri_benchmark ri with
  | Some io =>
      set_rule rule (fun r => r <| rule_benchmark_modifier := modifier io |>) ;;
      set_rule rule (fun r => r <| rule_benchmark := paths io |>)
  | None => ret tt
  end.

Definition decorate_group (name : string) : M unit :=
  ri <- get_ruleinfo ruleinfo ;;
  w <- get_wf ;;
  when (negb (run_local w)) (
    let group := py_or (default PNone (overwrite_groups w !! name)) (ri_group ri) in
    when (negb (is_None group))
      (set_rule rule (fun r => r <| rule_group := group |>))).

Definition decorate_wrapper : M unit :=
  ri <- get_ruleinfo ruleinfo ;;
  when (truthy (ri_wrapper ri)) (
    w <- get_wf ;;
    env <- gets (fun st => get_conda_env (ext st) (ri_wrapper ri) (wrapper_prefix w)) ;;
    set_rule rule (fun r => r <| rule_conda_env := env |>)).

Definition decorate_env_modules : M unit :=
  ri <- get_ruleinfo ruleinfo ;;
  when (truthy (ri_env_modules ri)) (
    (if invalid_rule ri
     then raise (RuleException
       "envmodules directive is only allowed with shell, script, notebook, or wrapper directives (not with run or the template_engine)")
     else ret tt) ;;
    set_rule rule (fun r => r <| rule_env_modules := ri_env_modules ri |>)).

Definition decorate_conda_env : M unit :=
  ri <- get_ruleinfo ruleinfo ;;
  when (truthy (ri_conda_env ri)) (
    (if invalid_rule ri
     then raise (RuleException
       "Conda environments are only allowed with shell, script, notebook, or wrapper directives (not with run or template_engine).")
     else ret tt) ;;
    match ri_conda_env ri with
    | PPath p => set_ruleinfo ruleinfo (fun i => i <| ri_conda_env := PStr p |>)
    | _ => ret tt
    end ;;
    ri <- get_ruleinfo ruleinfo ;;
    set_rule rule (fun r => r <| rule_conda_env := ri_conda_env ri |>)).

Definition decorate_container : M unit :=
  ri <- get_ruleinfo ruleinfo ;;
  w <- get_wf ;;
  if truthy (ri_container_img ri) then
    (if invalid_rule ri
     then raise (RuleException
       "Singularity directive is only allowed with shell, script, notebook or wrapper directives (not with run or template_engine).")
     else ret tt) ;;
    set_rule rule (fun r => r <| rule_container_img := ri_container_img ri |>) ;;
    set_rule rule (fun r => r <| rule_is_containerized := ri_is_containerized ri |>)
  else if truthy (global_container_img w) then
    when (negb (invalid_rule ri) && negb (py_eq (ri_container_img ri) (PBool false))) (
      set_rule rule (fun r => r <| rule_container_img := global_container_img w |>) ;;
      set_rule rule (fun r => r <| rule_is_containerized := global_is_containerized w |>))
  else ret tt.

(** [Workflow.current_basedir] *)
Definition current_basedir : M pyval :=
  w <- get_wf ;;
  match last (included_stack w) with
  | None => raise AssertionError
  | Some snakefile => gets (fun st => get_basedir (ext st) snakefile)
  end.

(** [rule.norun = ruleinfo.norun] up to [rule.basedir = self.current_basedir] *)
Definition decorate_attributes : M unit :=
  ri <- get_ruleinfo ruleinfo ;;
  set_rule rule (fun r => r <| rule_norun := ri_norun ri |>) ;;
  match ri_name ri with
  | Some n => set_rule rule (fun r => r <| rule_name := n |>)
  | None => ret tt
  end ;;
  set_rule rule (fun r => r <| rule_docstring := ri_docstring ri |>) ;;
  set_rule rule (fun r => r <| rule_run_func := ri_func ri |>) ;;
  set_rule rule (fun r => r <| rule_shellcmd := ri_shellcmd ri |>) ;;
  set_rule rule (fun r => r <| rule_script := ri_script ri |>) ;;
  set_rule rule (fun r => r <| rule_notebook := ri_notebook ri |>) ;;
  set_rule rule (fun r => r <| rule_wrapper := ri_wrapper ri |>) ;;
  set_rule rule (fun r => r <| rule_template_engine := ri_template_engine ri |>) ;;
  set_rule rule (fun r => r <| rule_cwl := ri_cwl ri |>) ;;
  basedir <- current_basedir ;;
  set_rule rule (fun r => r <| rule_basedir := basedir |>).

Definition decorate_handover : M unit :=
  ri <- get_ruleinfo ruleinfo ;;
  when (truthy (ri_handover ri)) (
    w <- get_wf ;;
    when (match ri_resources ri with None => true | Some _ => false end)
      (set_rule rule (fun r =>
         r <| rule_resources ::= fun m =>
                filter (fun kv => is_None (snd kv) = false) (global_resources w) ∪ m |>)) ;;
    r <- get_rule_obj rule ;;
    set_wf (fun w => w <| _localrules ::= fun s => {[rule_name r]} ∪ s |>) ;;
    set_rule rule (fun r => r <| rule_is_handover := true |>)).

Definition decorate_cache : M unit :=
  ri <- get_ruleinfo ruleinfo ;;
  when (truthy (ri_cache ri)) (
    r <- get_rule_obj rule ;;
    (if (1 <? length (rule_output r))%nat then
       match rule_output r with
       | output_0 :: _ =>
           if negb (is_multiext output_0) then
             raise (WorkflowError
               "Rule is marked for between workflow caching but has multiple output files. This is only allowed if multiext() is used to declare them (see docs on between workflow caching).")
           else ret tt
       | [] => ret tt
       end
     else ret tt) ;;
    w <- get_wf ;;
    if negb (enable_cache w) then
      logger Warning ("Workflow defines that rule " ++ rule_name r
        ++ " is eligible for caching between workflows (use the --cache argument to enable this).")
    else
      if truthy (py_or (py_or (PBool (is_True (ri_cache ri))) (PStr "omit-software"))
                       (PStr "all"))
      then
        set_wf (fun w =>
          w <| cache_rules ::=
                 <[rule_name r := if is_True (ri_cache ri) then PStr "all" else ri_cache ri]> |>)
      else
        raise (WorkflowError "Invalid value for cache directive. Use True or 'omit-software'.")).

Definition decorate_benchmark_cache : M unit :=
  ri <- get_ruleinfo ruleinfo ;;
  cache_mode <- gets (fun st => get_cache_mode st rule) ;;
  if match ri_benchmark ri with Some _ => true | None => false end
     && truthy (default PNone cache_mode)
  then raise (WorkflowError
    "Rules with a benchmark directive may not be marked as eligible for between-workflow caching at the same time. The reason is that when the result is taken from cache, there is no way to fill the benchmark file with any reasonable values. Either remove the benchmark directive or disable between-workflow caching for this rule.")
  else ret tt.

Definition decorate_default_target : M unit :=
  ri <- get_ruleinfo ruleinfo ;;
  r <- get_rule_obj rule ;;
  if is_True (ri_default_target ri) then
    set_wf (fun w => w <| default_target := Some (rule_name r) |>)
  else if negb (is_False (ri_default_target ri)) then
    raise (WorkflowError
      "Invalid argument for 'default_target:' directive. Only True allowed. Do not use the directive for rules that shall not be the default target. ")
  else ret tt.

Definition decorate_localrule : M unit :=
  ri <- get_ruleinfo ruleinfo ;;
  r <- get_rule_obj rule ;;
  when (is_True (ri_localrule ri))
    (set_wf (fun w => w <| _localrules ::= fun s => {[rule_name r]} ∪ s |>)).

(** [ruleinfo.func.__name__ = ...; self.globals[ruleinfo.func.__name__] =
    ruleinfo.func] *)
Definition decorate_func : M unit :=
  ri <- get_ruleinfo ruleinfo ;;
  r <- get_rule_obj rule ;;
  match ri_func ri with
  | None => raise AttributeError
  | Some f =>
      let fname := "__" ++ rule_name r in
      modify (fun st => st <| func_names ::= <[f := fname]> |>) ;;
      g <- get_globals ;;
      modify (fun st =>
        st <| namespaces ::= fun h => <[g := <[fname := PFunc f]> (default ∅ (h !! g))]> h |>)
  end.

(** The [RuleProxy] of the rule becomes an attribute of [globals["rules"]]
    under the original and under the final name. *)
Definition decorate_rule_proxy (orig_name : string) : M unit :=
  r <- get_rule_obj rule ;;
  modify (fun st => st <| rules_proxy ::= <[orig_name := rule]> |>) ;;
  modify (fun st => st <| rules_proxy ::= <[rule_name r := rule]> |>).

(** Modelled from the spec: [Checkpoints.register] enters the rule in the
    checkpoint index under its name, and under the name it had before any
    renaming as a fallback. *)
Definition decorate_checkpoint (orig_name : string) (checkpoint : bool) : M unit :=
  r <- get_rule_obj rule ;;
  when checkpoint (
    modify (fun st => st <| checkpoints ::= <[orig_name := rule]> |>) ;;
    modify (fun st => st <| checkpoints ::= <[rule_name r := rule]> |>)).

Definition decorate_ruleinfo : M unit :=
  set_rule rule (fun r => r <| rule_ruleinfo := Some ruleinfo |>).

Definition blocks_before_threads : list (M unit) :=
  [decorate_input; decorate_output; decorate_params; decorate_default_resources].

Definition blocks_before_cache (name : string) : list (M unit) :=
  [decorate_shadow; decorate_resources; decorate_overwrite_resources name;
   decorate_priority; decorate_retries; decorate_version; decorate_log;
   decorate_message; decorate_benchmark; decorate_group name; decorate_wrapper;
   decorate_env_modules; decorate_conda_env; decorate_container;
   decorate_attributes; decorate_handover].

Definition blocks_after_cache (orig_name : string) (checkpoint : bool) : list (M unit) :=
  [decorate_default_target; decorate_localrule; decorate_func;
   decorate_rule_proxy orig_name; decorate_checkpoint orig_name checkpoint;
   decorate_ruleinfo].

(** The body of [decorate] after the renaming. *)
Definition decorate_blocks (name orig_name : string) (checkpoint : bool) : list (M unit) :=
  (blocks_before_threads ++ decorate_threads name :: blocks_before_cache name
   ++ decorate_cache :: decorate_benchmark_cache
   :: blocks_after_cache orig_name checkpoint)%list.

(** [decorate(ruleinfo)]; the result is [ruleinfo.func]. *)
Definition decorate (name orig_name : string) (checkpoint : bool) : M (option addr) :=
  apply_modifier ruleinfo ;;
  decorate_wildcard_constraints ;;
  name <- decorate_name name ;;
  run_all (decorate_blocks name orig_name checkpoint) ;;
  ri <- get_ruleinfo ruleinfo ;;
  ret (ri_func ri).

End decorate.

(** What [Workflow.rule] returns: the closure that ignores the rule, or
    [decorate] with the variables it captured. *)
Inductive decorator :=
| Ignore
| Decorate (rule : addr) (name orig_name : string) (checkpoint : bool).

(** [Workflow.rule] *)
Definition rule (name : option string) (lineno snakefile : pyval) (checkpoint : bool)
    : M decorator :=
  w <- get_wf ;;
  let name := match name with
              | None => py_str_nat (length (_rules w) + 1)
              | Some n => n
              end in
  m <- get_modifier ;;
  if skip_rule m (Some name) then ret Ignore
  else
    let orig_name := name in
    let name := modify_rulename m name in
    name <- add_rule name lineno snakefile checkpoint (mod_allow_rule_overwrite m) ;;
    r <- get_rule name ;;
    set_rule r (fun x => x <| rule_is_checkpoint := checkpoint |>) ;;
    set_rule r (fun x => x <| rule_module_globals := Some (mod_globals m) |>) ;;
    ret (Decorate r name orig_name checkpoint).

(** The call of the closure on a [RuleInfo]. *)
Definition apply_decorator (d : decorator) (ruleinfo : addr) : M (option addr) :=
  match d with
  | Ignore => ri <- get_ruleinfo ruleinfo ;; ret (ri_func ri)
  | Decorate r name orig_name checkpoint => decorate r ruleinfo name orig_name checkpoint
  end.

(** *** The directive setters *)

(** [Workflow.run]: the accumulator of a rule under construction. *)
Definition run (func : addr) : M addr := alloc_ruleinfo (new_RuleInfo (Some func)).

(** A setter for a directive with keyword arguments: the call makes the
    keyword dictionary, the closure it returns stores it. *)
Definition set_inout (f : InOutput -> RuleInfo -> RuleInfo)
    (args : pyval) (kwargs : odict pyval) (ruleinfo : addr) : M addr :=
  kw <- alloc_dict kwargs ;;
  m <- get_modifier ;;
  set_ruleinfo ruleinfo
    (f {| paths := args; kwpaths := kw; modifier := mod_path_modifier m |}) ;;
  ret ruleinfo.

Definition set_args (f : list pyval * addr -> RuleInfo -> RuleInfo)
    (args : list pyval) (kwargs : odict pyval) (ruleinfo : addr) : M addr :=
  kw <- alloc_dict kwargs ;;
  set_ruleinfo ruleinfo (f (args, kw)) ;;
  ret ruleinfo.

Definition set_directive (f : RuleInfo -> RuleInfo) (ruleinfo : addr) : M addr :=
  set_ruleinfo ruleinfo f ;;
  ret ruleinfo.

Definition docstring (s : pyval) := set_directive (fun i => i <| ri_docstring := s |>).
Definition input (ps : list pyval) (kw : odict pyval) :=
  set_inout (fun io i => i <| ri_input := Some io |>) (PTuple ps) kw.
Definition output (ps : list pyval) (kw : odict pyval) :=
  set_inout (fun io i => i <| ri_output := Some io |>) (PTuple ps) kw.
Definition params (ps : list pyval) (kw : odict pyval) :=
  set_args (fun a i => i <| ri_params := Some a |>) ps kw.
Definition register_wildcard_constraints (ps : list pyval) (kw : odict pyval) :=
  set_args (fun a i => i <| ri_wildcard_constraints := Some a |>) ps kw.
Definition cache_rule (cache : pyval) := set_directive (fun i => i <| ri_cache := cache |>).
Definition default_target_rule (v : pyval) :=
  set_directive (fun i => i <| ri_default_target := v |>).
Definition localrule (v : pyval) := set_directive (fun i => i <| ri_localrule := v |>).
Definition message (v : pyval) := set_directive (fun i => i <| ri_message := v |>).
Definition benchmark (b : pyval) :=
  set_inout (fun io i => i <| ri_benchmark := Some io |>) b [].
Definition conda (v : pyval) := set_directive (fun i => i <| ri_conda_env := v |>).
Definition container (v : pyval) :=
  set_directive (fun i =>
    i <| ri_container_img := if is_None v then PBool false else v |>
      <| ri_is_containerized := false |>).
Definition containerized (v : pyval) :=
  set_directive (fun i => i <| ri_container_img := v |> <| ri_is_containerized := true |>).
Definition envmodules (ms : list pyval) :=
  set_directive (fun i => i <| ri_env_modules := PTuple ms |>).
Definition threads (v : pyval) := set_directive (fun i => i <| ri_threads := v |>).
Definition retries (v : pyval) := set_directive (fun i => i <| ri_retries := v |>).
Definition shadow (v : pyval) := set_directive (fun i => i <| ri_shadow_depth := v |>).
Definition resources (ps : list pyval) (kw : odict pyval) :=
  set_args (fun a i => i <| ri_resources := Some a |>) ps kw.
Definition priority (v : pyval) := set_directive (fun i => i <| ri_priority := v |>).
Definition version (v : pyval) := set_directive (fun i => i <| ri_version := v |>).
Definition group (v : pyval) := set_directive (fun i => i <| ri_group := v |>).
Definition log (ps : list pyval) (kw : odict pyval) :=
  set_inout (fun io i => i <| ri_log := Some io |>) (PTuple ps) kw.
Definition handover (v : pyval) := set_directive (fun i => i <| ri_handover := v |>).
Definition shellcmd (v : pyval) := set_directive (fun i => i <| ri_shellcmd := v |>).
Definition script (v : pyval) := set_directive (fun i => i <| ri_script := v |>).
Definition notebook (v : pyval) := set_directive (fun i => i <| ri_notebook := v |>).
Definition wrapper (v : pyval) := set_directive (fun i => i <| ri_wrapper := v |>).
Definition template_engine (v : pyval) :=
  set_directive (fun i => i <| ri_template_engine := v |>).
Definition cwl (v : pyval) := set_directive (fun i => i <| ri_cwl := v |>).
Definition norun := set_directive (fun i => i <| ri_norun := true |>).
Definition name (n : string) := set_directive (fun i => i <| ri_name := Some n |>).

(** *** Modifier scopes and [use rule] *)

(** Entering and leaving a [with WorkflowModifier(...)] block. *)
Definition push_modifier (m : WorkflowModifier) (w : Workflow) : Workflow :=
  w <| modifier_below ::= cons (modifier_top w) |> <| modifier_top := m |>.

Definition pop_modifier (w : Workflow) : Workflow :=
  match modifier_below w with
  | m :: below => w <| modifier_top := m |> <| modifier_below := below |>
  | [] => w
  end.

Definition with_modifier {A} (m : WorkflowModifier) (body : M A) : M A :=
  set_wf (push_modifier m) ;;
  finally body (fun st => st <| wf ::= pop_modifier |>).

(** [name_modifier.replace("*", rulename)] *)
Fixpoint replace_star (name_modifier rulename : string) : string :=
  match name_modifier with
  | EmptyString => EmptyString
  | String c rest =>
      if Ascii.eqb c "*"%char then rulename ++ replace_star rest rulename
      else String c (replace_star rest rulename)
  end.

(** Modelled from the spec: [get_name_modifier_func] of
    [snakemake/modules.py] gives the renaming of a [use rule ... as] scope:
    the given pattern with every [*] replaced by the rule name, translated by
    the enclosing scope. *)
Definition get_name_modifier_func (name_modifier : option string)
    (parent : WorkflowModifier) : option (string -> string) :=
  match name_modifier with
  | None => None
  | Some nm => Some (fun rulename => modify_rulename parent (replace_star nm rulename))
  end.

(** Modelled from the spec: the scope that [userule] opens for local
    inheritance shares namespace, wildcard constraints, rule set and path
    translation with the enclosing scope, renames with the given function and
    overrides with the given [RuleInfo]. *)
Definition child_modifier (parent : WorkflowModifier)
    (rulename_modifier : option (string -> string)) (ruleinfo_overwrite : option addr)
    : WorkflowModifier := {|
  mod_globals := mod_globals parent;
  mod_rulename_modifier := rulename_modifier;
  mod_path_modifier := mod_path_modifier parent;
  mod_skip := None;
  mod_ruleinfo_overwrite := ruleinfo_overwrite;
  mod_allow_rule_overwrite := false;
  mod_wildcard_constraints := mod_wildcard_constraints parent;
  mod_rules := mod_rules parent;
  mod_skip_configfile := mod_skip_configfile parent;
  mod_skip_global_report_caption := mod_skip_global_report_caption parent
|}.

(** [copy.copy(ruleinfo)]: a new object with the attribute values of the
    old one; the objects those values refer to are shared.  The copy of
    [None] is [None]. *)
Definition copy_ruleinfo (ruleinfo : option addr) : M (option addr) :=
  match ruleinfo with
  | None => ret None
  | Some a => ri <- get_ruleinfo a ;; c <- alloc_ruleinfo ri ;; ret (Some c)
  end.

(** [Workflow.userule], the call of the closure it returns.  [maybe_ruleinfo]
    is [None] when the closure is applied to a function rather than to a
    [RuleInfo].  Of the inheritance from a module only the lookup of the
    module is part of this file: what [module.use_rules] then does is left to
    the module and appears as one call.  A rule without directives is copied
    as [None], on which the closure of [Workflow.rule] fails once the new rule
    is registered. *)
Definition userule (rules : list string) (from_module : option string)
    (name_modifier : option string) (lineno : pyval) (maybe_ruleinfo : option addr)
    : M unit :=
  w <- get_wf ;;
  match from_module with
  | Some module_name =>
      if bool_decide (module_name ∈ modules w) then emit (Call "module.use_rules")
      else raise (WorkflowError ("Module " ++ module_name
        ++ " has not been registered with 'module' statement before using it in 'use rule' statement."))
  | None =>
      m <- get_modifier ;;
      if skip_rule m name_modifier then ret tt
      else if (1 <? length rules)%nat then
        raise (WorkflowError
          "'use rule' statement from rule in the same module must declare a single rule but multiple rules are declared.")
      else
        match rules with
        | [] => raise IndexError
        | rules_0 :: _ =>
            match od_get (_rules w) (modify_rulename m rules_0) with
            | None => raise (KeyError (modify_rulename m rules_0))
            | Some orig_rule =>
                with_modifier
                  (child_modifier m (get_name_modifier_func name_modifier m) maybe_ruleinfo)
                  (r <- get_rule_obj orig_rule ;;
                   orig_ruleinfo <- copy_ruleinfo (rule_ruleinfo r) ;;
                   w <- get_wf ;;
                   match last (included_stack w) with
                   | None => raise IndexError
                   | Some snakefile =>
                       d <- rule name_modifier lineno (PStr snakefile) false ;;
                       match orig_ruleinfo with
                       | Some c => apply_decorator d c ;; ret tt
                       | None => raise AttributeError
                       end
                   end)
            end
        end
  end.

(** *** Environment variables *)

Definition is_word_char (c : ascii) : bool :=
  let n := nat_of_ascii c in
  ((48 <=? n) && (n <=? 57) || (65 <=? n) && (n <=? 90)
   || (97 <=? n) && (n <=? 122) || (n =? 95))%nat.

Fixpoint all_word_chars (s : string) : bool :=
  match s with
  | EmptyString => true
  | String c rest => is_word_char c && all_word_chars rest
  end.

(** One or more word characters, then the end of the string or a single
    newline that ends it (what [$] matches without [re.MULTILINE]). *)
Fixpoint word_then_end (s : string) : bool :=
  match s with
  | EmptyString => false
  | String c rest =>
      is_word_char c
      && match rest with
         | EmptyString => true
         | String "010"%char EmptyString => true
         | _ => word_then_end rest
         end
  end.

(** [re.match(r"^\w+$", s, flags=re.ASCII) is not None] *)
Definition re_match_word (s : string) : bool := word_then_end s.

Fixpoint join (sep : string) (l : list string) : string :=
  match l with
  | [] => EmptyString
  | [x] => x
  | x :: rest => x ++ sep ++ join sep rest
  end.

(** [Workflow.register_envvars]; [repr] is written with plain quotes. *)
Definition register_envvars (envvars : list string) : M unit :=
  let invalid_envvars := filter (fun v => re_match_word v = false) envvars in
  match invalid_envvars with
  | _ :: _ =>
      raise (WorkflowError ("Invalid environment variables requested: "
        ++ join ", " (map (fun v => "'" ++ v ++ "'") invalid_envvars)
        ++ ". Environment variable names may only contain alphanumeric characters and the underscore. "))
  | [] =>
      environ <- gets (fun st => os_environ (ext st)) ;;
      let undefined := filter (fun v => v ∉ environ) envvars in
      w <- get_wf ;;
      if check_envvars w && match undefined with [] => false | _ => true end then
        raise (WorkflowError
          ("The following environment variables are requested by the workflow but undefined. Please make sure that they are correctly defined before running Snakemake:"
           ++ String "010"%char (join (String "010"%char EmptyString) undefined)))
      else
        set_wf (fun w => w <| _envvars ::= fun s => s ∪ list_to_set envvars |>)
  end.

(** ** The run: [Workflow.execute] *)

(** The arguments of [execute] that decide its control flow. *)
Record ExecArgs := {
  dryrun : bool;
  printdag : bool;
  printrulegraph : bool;
  printfilegraph : bool;
  printd3dag : bool;
  summary : bool;
  detailed_summary : bool;
  archive : bool;
  delete_all_output : bool;
  delete_temp_output : bool;
  list_version_changes : bool;
  list_code_changes : bool;
  list_input_changes : bool;
  list_params_changes : bool;
  list_untracked : bool;
  list_conda_envs : bool;
  wait_for_files : option (list string);
  nolock : bool;
  unlock : bool;
  nodeps : bool;
  cleanup_metadata : list string;
  conda_cleanup_envs : bool;
  cleanup_containers : bool;
  cleanup_shadow : bool;
  updated_files : bool;                      (* [updated_files is not None] *)
  generate_unit_tests : bool;
  export_cwl : bool;
  report : bool;
  containerize : bool;
  conda_create_envs_only : bool;
  quiet : bool;
  no_hooks : bool;
  stats : bool
}.

(** What the collaborators answer during one run: the dependency graph once
    it is initialised, the persistence layer, the file system and the
    scheduler. *)
Record Collaborators := {
  files_arrive : bool;                       (* [wait_for_files] does not raise IOError *)
  metadata_cleaned : string -> bool;         (* [persistence.cleanup_metadata(f)] *)
  locks_cleaned : bool;                      (* [cleanup_locks] does not raise IOError *)
  lock_free : bool;                          (* [persistence.lock] does not raise *)
  subworkflow_targets : Subworkflow -> list string;   (* [subworkflow.targets(dag)] *)
  missing_input : list string;               (* absent inputs of target jobs that need to run *)
  checkpoint_jobs : list string;             (* [dag.checkpoint_jobs] *)
  dag_len : nat;                             (* [len(dag)] *)
  schedule : bool                            (* [scheduler.schedule()] *)
}.

(** A statement that may [return]: [Some b] is the value returned, [None]
    goes on to the next statement. *)
Definition or_return (m : M (option bool)) (k : M bool) : M bool :=
  r <- m ;;
  match r with
  | Some b => ret b
  | None => k
  end.
Notation "m 'then_' k" := (or_return m k)
  (at level 100, k at level 100, right associativity) : py_scope.

Definition continue : M (option bool) := ret None.
Definition return_ (b : bool) : M (option bool) := ret (Some b).
Definition do (m : M unit) : M (option bool) := m ;; ret None.

(** [Workflow.check_localrules] *)
Definition check_localrules : M unit :=
  w <- get_wf ;;
  st <- gets id ;;
  let names : gset string :=
    list_to_set (map (fun r => rule_name (the_rule st r)) (od_values (_rules w))) in
  let undefined := _localrules w ∖ names in
  when (negb (bool_decide (undefined = ∅)))
    (logger Warning
       "localrules directive specifies rules that are not present in the Snakefile:").

Section execute.

(** The nested run that [execute] is given: it works on the definition
    namespace, which the nested controller shares with this one, and
    answers whether it succeeded and which files it updated. *)
Variable subsnakemake :
  Subworkflow -> list string -> gmap string pyval ->
  bool * list string * gmap string pyval.

Variable c : Collaborators.
Variable a : ExecArgs.

Definition run_subsnakemake (sw : Subworkflow) (targets : list string) : M bool :=
  g <- get_globals ;;
  ns <- gets (fun st => the_namespace st g) ;;
  let '(ok, updated, ns') := subsnakemake sw targets ns in
  modify (fun st => st <| namespaces ::= <[g := ns']> |>) ;;
  ret ok.

(** [for subworkflow in self.subworkflows: ...] *)
Fixpoint execute_subworkflow_loop (sws : list Subworkflow) : M (option bool) :=
  match sws with
  | [] => continue
  | subworkflow :: rest =>
      let targets := subworkflow_targets c subworkflow in
      logger Debug "Files requested from subworkflow:" ;;
      match targets with
      | _ :: _ =>
          logger Info ("Executing subworkflow " ++ sw_name subworkflow ++ ".") ;;
          ok <- run_subsnakemake subworkflow targets ;;
          if negb ok then return_ false
          else
            emit (Call "dag.updated_subworkflow_files.update") ;;
            execute_subworkflow_loop rest
      | [] =>
          logger Info ("Subworkflow " ++ sw_name subworkflow ++ ": Nothing to be done") ;;
          execute_subworkflow_loop rest
      end
  end.

(** The block that runs the sub-workflows between [# backup globals] and
    [# rescue globals]. *)
Definition execute_subworkflows_block : M (option bool) :=
  w <- get_wf ;;
  if match _subworkflows w with [] => false | _ => true end
     && execute_subworkflows w
     && negb (printdag a) && negb (printrulegraph a) && negb (printfilegraph a)
  then
    g <- get_globals ;;
    globals_backup <- gets (fun st => the_namespace st g) ;;
    r <- execute_subworkflow_loop (od_values (_subworkflows w)) ;;
    match r with
    | Some b => return_ b
    | None =>
        when (match _subworkflows w with [] => false | _ => true end)
          (logger Info "Executing main workflow.") ;;
        g <- get_globals ;;
        modify (fun st =>
          st <| namespaces ::= fun h => <[g := globals_backup ∪ default ∅ (h !! g)]> h |>) ;;
        continue
    end
  else continue.

(** [if cleanup_metadata: ...] *)
Definition execute_cleanup_metadata : M (option bool) :=
  match cleanup_metadata a with
  | [] => continue
  | files =>
      emit (Call "persistence.cleanup_metadata") ;;
      let failed := filter (fun f => metadata_cleaned c f = false) files in
      when (match failed with [] => false | _ => true end)
        (logger Warning
           "Failed to clean up metadata for the following files because the metadata was not present.") ;;
      return_ true
  end.

(** [if unlock: ...] *)
Definition execute_unlock : M (option bool) :=
  if unlock a then
    emit (Call "persistence.cleanup_locks") ;;
    if locks_cleaned c then
      logger Info "Unlocking working directory." ;;
      return_ true
    else
      logger Error
        "Error: Unlocking the directory {} failed. Maybe you don't have the permissions?" ;;
      return_ false
  else continue.

(** [if nodeps: ...] *)
Definition execute_nodeps : M (option bool) :=
  if nodeps a then
    match missing_input c with
    | [] => continue
    | _ =>
        logger Error
          "Dependency resolution disabled (--nodeps) but missing input files detected. If this happens on a cluster, please make sure that you handle the dependencies yourself or turn off --immediate-submit. Missing input files:" ;;
        return_ false
    end
  else continue.

(** [if self.immediate_submit and any(dag.checkpoint_jobs): ...] *)
Definition execute_immediate_submit : M (option bool) :=
  w <- get_wf ;;
  if _immediate_submit w && match checkpoint_jobs c with [] => false | _ => true end then
    logger Error
      "Immediate submit mode (--immediate-submit) may not be used for workflows with checkpoint jobs, as the dependencies cannot be determined before execution in such cases." ;;
    return_ false
  else continue.

(** The chain [if generate_unit_tests: ... elif ...: ...] of actions that
    end the run without a scheduler. *)
Definition execute_inspection : M (option bool) :=
  let act (what : string) := emit (Call what) ;; return_ true in
  if generate_unit_tests a then act "unit_tests.generate"
  else if export_cwl a then act "dag_to_cwl"
  else if report a then act "auto_report"
  else if printd3dag a then act "dag.d3dag"
  else if printdag a then act "print(dag)"
  else if printrulegraph a then act "dag.rule_dot"
  else if printfilegraph a then act "dag.filegraph_dot"
  else if summary a then act "dag.summary"
  else if detailed_summary a then act "dag.summary"
  else if archive a then act "dag.archive"
  else if delete_all_output a then act "dag.clean"
  else if delete_temp_output a then act "dag.clean"
  else if list_version_changes a then act "dag.get_outputs_with_changes"
  else if list_code_changes a then act "dag.get_outputs_with_changes"
  else if list_input_changes a then act "dag.get_outputs_with_changes"
  else if list_params_changes a then act "dag.get_outputs_with_changes"
  else if list_untracked a then act "dag.list_untracked"
  else continue.

(** Container images and conda environments. *)
Definition execute_provision : M (option bool) :=
  w <- get_wf ;;
  when (use_singularity w && assume_shared_fs w) (emit (Call "dag.pull_container_imgs")) ;;
  if use_conda w then
    emit (Call "dag.create_conda_envs") ;;
    if conda_create_envs_only a then return_ true else continue
  else continue.

Definition execute_list_and_cleanup_envs : M (option bool) :=
  if list_conda_envs a then emit (Call "print(environments)") ;; return_ true
  else if conda_cleanup_envs a then
    emit (Call "persistence.conda_cleanup_envs") ;; return_ true
  else if cleanup_containers a then
    emit (Call "persistence.cleanup_containers") ;; return_ true
  else continue.

(** What is logged between the construction of the scheduler and its run. *)
Definition execute_announce : M (option bool) :=
  if negb (dryrun a) then
    (if (0 <? dag_len c)%nat then emit (Call "logger.run_info")
     else logger Info "Nothing to be done (all requested files are present and up to date).") ;;
    continue
  else
    if (0 <? dag_len c)%nat then
      emit (Call "logger.run_info") ;;
      if quiet a then return_ true else continue
    else
      logger Info "Nothing to be done (all requested files are present and up to date)." ;;
      return_ true.

(** From [self.scheduler = JobScheduler(...)] to the end. *)
Definition execute_schedule : M bool :=
  emit (Call "JobScheduler") ;;
  set_wf (fun w => w <| scheduler := Some 0%nat |>) ;;
  execute_announce then_
  (when (negb (dryrun a) && negb (no_hooks a)) (emit (Call "onstart")) ;;
   emit (Call "scheduler.schedule") ;;
   let success := schedule c in
   w <- get_wf ;;
   when (negb (_immediate_submit w) && negb (dryrun a) && mode_default w)
     (emit (Call "dag.cleanup_workdir")) ;;
   if success then
     (if dryrun a then
        when (0 <? dag_len c)%nat (emit (Call "dag.print_reasons")) ;;
        logger Info
          "This was a dry-run (flag -n). The order of jobs does not reflect the order of execution." ;;
        when (match checkpoint_jobs c with [] => false | _ => true end)
          (logger Info
             "The run involves checkpoint jobs, which will result in alteration of the DAG of jobs (e.g. adding more jobs) after their completion.")
      else
        when (stats a) (emit (Call "scheduler.stats.to_json")) ;;
        emit (Call "logger.logfile_hint")) ;;
     when (negb (dryrun a) && negb (no_hooks a)) (emit (Call "onsuccess")) ;;
     ret true
   else
     when (negb (dryrun a) && negb (no_hooks a)) (emit (Call "onerror")) ;;
     emit (Call "logger.logfile_hint") ;;
     ret false).

(** [Workflow.execute].  The statements that only compute the arguments
    handed to the graph (the partition of the targets into rules and files)
    are left to the graph. *)
Definition execute : M bool :=
  check_localrules ;;
  (match wait_for_files a with
   | Some _ =>
       emit (Call "wait_for_files") ;;
       if files_arrive c then continue
       else logger Error "IOError" ;; return_ false
   | None => continue
   end) then_
  do (emit (Call "DAG") ;;
      emit (Call "Persistence") ;;
      w <- get_wf ;;
      when (negb (mode_default w)) (emit (Call "persistence.deactivate_cache"))) then_
  execute_cleanup_metadata then_
  execute_unlock then_
  do (logger Info "Building DAG of jobs..." ;;
      emit (Call "dag.init") ;;
      emit (Call "dag.update_checkpoint_dependencies") ;;
      emit (Call "dag.check_dynamic") ;;
      emit (Call "persistence.lock") ;;
      if lock_free c || nolock a then ret tt else raise LockException) then_
  (if cleanup_shadow a then emit (Call "persistence.cleanup_shadow") ;; return_ true
   else continue) then_
  (if containerize a then emit (Call "containerize") ;; return_ true
   else continue) then_
  execute_subworkflows_block then_
  do (emit (Call "dag.postprocess") ;;
      when (negb (dryrun a))
        (emit (Call "iocache.deactivate") ;; emit (Call "persistence.deactivate_cache"))) then_
  execute_nodeps then_
  execute_immediate_submit then_
  do (if updated_files a then emit (Call "updated_files.extend")
      else raise AttributeError) then_
  execute_inspection then_
  execute_provision then_
  execute_list_and_cleanup_envs then_
  execute_schedule.

End execute.

(** ** A controller as its constructor leaves it *)

(** The arguments of [Workflow.__init__] that the modelled methods read. *)
Record InitArgs := {
  arg_snakefile : string;
  arg_cores : pyval;
  arg_nodes : pyval;
  arg_resources : gmap string pyval;
  arg_cache : option (list string);
  arg_overwrite_threads : gmap string pyval;
  arg_overwrite_resources : gmap string (odict pyval);
  arg_overwrite_groups : gmap string pyval;
  arg_default_resources : option (gmap string pyval);
  arg_restart_times : pyval;
  arg_run_local : bool;
  arg_check_envvars : bool;
  arg_immediate_submit : bool;
  arg_execute_subworkflows : bool;
  arg_use_conda : bool;
  arg_use_singularity : bool
}.

(** The defaults of the signature. *)
Definition default_args : InitArgs := {|
  arg_snakefile := "Snakefile";
  arg_cores := PInt 1; arg_nodes := PInt 1; arg_resources := ∅;
  arg_cache := None;
  arg_overwrite_threads := ∅; arg_overwrite_resources := ∅; arg_overwrite_groups := ∅;
  arg_default_resources := None;
  arg_restart_times := PNone; arg_run_local := true; arg_check_envvars := true;
  arg_immediate_submit := false; arg_execute_subworkflows := true;
  arg_use_conda := false; arg_use_singularity := false
|}.

(** The root scope: [WorkflowModifier(self, globals=_globals)]. *)
Definition root_modifier : WorkflowModifier := {|
  mod_globals := 0%nat;
  mod_rulename_modifier := None;
  mod_path_modifier := None;
  mod_skip := None;
  mod_ruleinfo_overwrite := None;
  mod_allow_rule_overwrite := false;
  mod_wildcard_constraints := [];
  mod_rules := 0%nat;
  mod_skip_configfile := false;
  mod_skip_global_report_caption := false
|}.

(** Modelled from the spec: [DefaultResources(mode="bare").parsed] holds only
    the reserved entries. *)
Definition bare_default_resources : gmap string pyval :=
  {[ "_cores" := PInt 1; "_nodes" := PInt 1; "tmpdir" := PFunc 0 ]}.

(** [Workflow.__init__], with the main Snakefile already on the include
    stack, as it is while rules are defined. *)
Definition new_Workflow (i : InitArgs) : Workflow := {|
  global_resources :=
    <["_nodes" := arg_nodes i]> (<["_cores" := arg_cores i]> (arg_resources i));
  _rules := [];
  default_target := None;
  _localrules := ∅;
  rule_count := 0%nat;
  included_stack := [arg_snakefile i];
  _subworkflows := [];
  modules := ∅;
  overwrite_threads := arg_overwrite_threads i;
  overwrite_resources := arg_overwrite_resources i;
  overwrite_groups := arg_overwrite_groups i;
  _immediate_submit := arg_immediate_submit i;
  use_conda := arg_use_conda i;
  use_singularity := arg_use_singularity i;
  global_container_img := PNone;
  global_is_containerized := false;
  wrapper_prefix := PNone;
  restart_times := arg_restart_times i;
  run_local := arg_run_local i;
  assume_shared_fs := true;
  report_text := PNone;
  _envvars := ∅;
  execute_subworkflows := arg_execute_subworkflows i;
  check_envvars := arg_check_envvars i;
  modifier_top := root_modifier;
  modifier_below := [];
  enable_cache := match arg_cache i with Some _ => true | None => false end;
  cache_rules :=
    match arg_cache i with
    | Some names => list_to_map (map (fun n => (n, PStr "all")) names)
    | None => ∅
    end;
  default_resources :=
    Some (default bare_default_resources (arg_default_resources i));
  mode_default := true;
  scheduler := None
|}.

Definition new_Store (i : InitArgs) (e : Externals) : Store := {|
  wf := new_Workflow i;
  rule_objs := ∅;
  ruleinfo_objs := ∅;
  dict_objs := ∅;
  ruleset_objs := {[ 0%nat := ∅ ]};
  func_names := ∅;
  namespaces := {[ 0%nat := ∅ ]};
  rules_proxy := ∅;
  checkpoints := ∅;
  trace := [];
  ext := e
|}.

(** An environment for examples. *)
Definition some_externals : Externals := {|
  get_conda_env := fun wrapper _ => wrapper;
  get_basedir := fun snakefile => PStr ".";
  os_environ := {[ "HOME"; "PATH" ]};
  same_rule := fun r r' =>
    String.eqb (rule_name r) (rule_name r')
    && py_eq (PTuple (rule_output r)) (PTuple (rule_output r'))
|}.

(** A rule definition as the parser lays it out: [@workflow.rule(...)], the
    directive setters, [@workflow.run] on the function.  [prepare_rule] is
    the part before the closure of [Workflow.rule] is called on the
    accumulated directives. *)
Definition prepare_rule (name : option string) (checkpoint : bool)
    (directives : list (addr -> M addr)) (func : addr) : M (decorator * addr) :=
  d <- rule name PNone PNone checkpoint ;;
  ruleinfo <- run func ;;
  ruleinfo <- fold_right (fun set acc => ri <- acc ;; set ri) (ret ruleinfo) directives ;;
  ret (d, ruleinfo).

Definition define_rule (name : option string) (checkpoint : bool)
    (directives : list (addr -> M addr)) (func : addr) : M (option addr) :=
  p <- prepare_rule name checkpoint directives func ;;
  apply_decorator p.1 p.2.

(** *** Container images for the whole workflow *)

(** [Workflow.global_container] *)
Definition global_container (container_img : pyval) : M unit :=
  set_wf (fun w => w <| global_container_img := container_img |>
                     <| global_is_containerized := false |>).

(** [Workflow.global_containerized] *)
Definition global_containerized (container_img : pyval) : M unit :=
  set_wf (fun w => w <| global_container_img := container_img |>
                     <| global_is_containerized := true |>).

(** * The vocabulary of the statements *)

(** [m] started in a store of [P] ends normally in a store of [Q]. *)
Definition total {A} (P : Store -> Prop) (m : M A) (Q : A -> Store -> Prop) : Prop :=
  forall st, P st -> exists a st', m st = (Ok a, st') /\ Q a st'.

(** If [m] started in a store of [P] ends normally, it does so in a store of [Q]. *)
Definition partial {A} (P : Store -> Prop) (m : M A) (Q : A -> Store -> Prop) : Prop :=
  forall st, P st -> forall a st', m st = (Ok a, st') -> Q a st'.

(** [m] started in a store of [P] raises. *)
Definition fails {A} (P : Store -> Prop) (m : M A) : Prop :=
  forall st, P st -> exists e st', m st = (Raise e, st').

(** Whatever [m] does, it keeps what [view] shows of the store. *)
Definition keeps {A V} (view : Store -> V) (m : M A) : Prop :=
  forall st, view (snd (m st)) = view st.

(** The parts of the store that finalising a rule only reads. *)
Definition view_config (st : Store) :=
  (dict_objs st, ext st, enable_cache (wf st), overwrite_threads (wf st),
   overwrite_resources (wf st), global_resources (wf st)).

(** The directives of a [RuleInfo] apart from the two that [decorate]
    normalises in place. *)
Definition other_directives (i : RuleInfo) : RuleInfo :=
  i <| ri_threads := PNone |> <| ri_conda_env := PNone |>.

Definition view_directives (ruleinfo : addr) (st : Store) : RuleInfo :=
  other_directives (the_ruleinfo st ruleinfo).

Definition view_threads (ruleinfo : addr) (st : Store) : pyval :=
  ri_threads (the_ruleinfo st ruleinfo).

Definition view_output (rule : addr) (st : Store) : list pyval :=
  rule_output (the_rule st rule).

Definition raises_only {A} (E : exn -> Prop) (m : M A) : Prop :=
  forall st e st', m st = (Raise e, st') -> E e.

Definition invalid_cache_error : exn :=
  WorkflowError "Invalid value for cache directive. Use True or 'omit-software'.".

(** The directives [decorate] works with: the accumulated ones, with the
    overriding [RuleInfo] of the scope merged over them. *)
Definition accumulated (st : Store) (ruleinfo : addr) : RuleInfo :=
  match mod_ruleinfo_overwrite (modifier_top (wf st)) with
  | Some o => merge_ruleinfo (the_ruleinfo st o) (the_ruleinfo st ruleinfo)
  | None => the_ruleinfo st ruleinfo
  end.

Definition view_rules (st : Store) := rule_objs st.

(** Caching is on, and the directives at [ruleinfo] hold a benchmark and a
    truthy cache directive. *)
Definition benchmark_and_cache (ruleinfo : addr) (st : Store) : Prop :=
  enable_cache (wf st) = true
  /\ truthy (ri_cache (the_ruleinfo st ruleinfo)) = true
  /\ is_Some (ri_benchmark (the_ruleinfo st ruleinfo)).

Definition view_config_directives (ruleinfo : addr) (st : Store) :=
  (view_config st, view_directives ruleinfo st).

(** What the check of benchmark against cache looks at. *)
Definition view_benchmark_cache (rule ruleinfo : addr) (st : Store) :=
  (ri_benchmark (the_ruleinfo st ruleinfo), get_cache_mode st rule).

(** [m] moves [view] upwards along [le]. *)
Definition grows {A V} (view : Store -> V) (le : V -> V -> Prop) (m : M A) : Prop :=
  forall st, le (view st) (view (m st).2).

(** The rule at [rule] does not have a benchmark together with an entry in
    the cache map. *)
Definition not_both (rule ruleinfo : addr) (st : Store) : Prop :=
  ri_benchmark (the_ruleinfo st ruleinfo) = None
  \/ truthy (default PNone (get_cache_mode st rule)) = false.








(** The warning for a rule with a cache directive in a workflow that runs
    without caching between workflows. *)
Definition cache_advisory (name : string) : event :=
  Log Warning ("Workflow defines that rule " ++ name
               ++ " is eligible for caching between workflows (use the --cache argument to enable this).").


(** [m] started in a store of [P] adds only events of [Q] to the trace. *)
Definition emits_from {A} (P : Store -> Prop) (Q : event -> Prop) (m : M A) : Prop :=
  forall st, P st -> exists evs, trace (snd (m st)) = (trace st ++ evs)%list /\ Forall Q evs.


Definition threads_error : exn :=
  RuleException "Threads value has to be an integer, float, or a callable.".

(** The name [decorate] goes on with after the name directive. *)
Definition final_name (ri : RuleInfo) (name : string) : string :=
  match ri_name ri with
  | Some new_name => if negb (String.eqb new_name EmptyString) then new_name else name
  | None => name
  end.

Definition view_cores (rule : addr) (st : Store) : option pyval :=
  rule_resources (the_rule st rule) !! "_cores".

(** Nothing but the threads directive decides the cores of the rule: no
    override for the rule on the command line, no [_cores] among its
    resources, no handover that takes the whole pool. *)
Definition cores_from_threads (st : Store) (acc : RuleInfo) (name : string) : Prop :=
  overwrite_threads (wf st) !! name = None
  /\ match ri_resources acc with
     | Some (_, kw) => od_get (the_dict st kw) "_cores" = None
     | None => True
     end
  /\ match overwrite_resources (wf st) !! name with
     | Some res => od_get res "_cores" = None
     | None => True
     end
  /\ (truthy (ri_handover acc) = false \/ is_Some (ri_resources acc)).

(** The events that hand the run to the scheduler. *)
Definition scheduler_event (e : event) : Prop :=
  e = Call "JobScheduler" \/ e = Call "scheduler.schedule".

(** [m] keeps the controller as it is and hands nothing to the scheduler. *)
Definition unscheduled {A} (m : M A) : Prop :=
  forall st, wf (snd (m st)) = wf st
    /\ exists evs, trace (snd (m st)) = (trace st ++ evs)%list
                 /\ Forall (fun e => ~ scheduler_event e) evs.

(** The name under which a call of [Workflow.rule] registered its rule. *)
Definition registered_name (d : decorator) : option string :=
  match d with
  | Decorate _ name _ _ => Some name
  | Ignore => None
  end.

(** Rule definitions one after the other: each with the name given to
    [Workflow.rule], if any, and the directives [Workflow.run] and the
    setters collected for it.  The result lists the registered names. *)
Fixpoint register_all (regs : list (option string * RuleInfo)) : M (list (option string)) :=
  match regs with
  | [] => ret []
  | (name, directives) :: rest =>
      d <- rule name PNone PNone false ;;
      ruleinfo <- alloc_ruleinfo directives ;;
      apply_decorator d ruleinfo ;;
      names <- register_all rest ;;
      ret (registered_name d :: names)
  end.

(** A scope that neither skips nor renames nor overrides, like the root
    scope. *)
Definition plain_scope (st : Store) : Prop :=
  mod_skip (modifier_top (wf st)) = None
  /\ mod_rulename_modifier (modifier_top (wf st)) = None
  /\ mod_ruleinfo_overwrite (modifier_top (wf st)) = None
  /\ mod_allow_rule_overwrite (modifier_top (wf st)) = false.

Definition view_registry (st : Store) := (_rules (wf st), modifier_top (wf st)).

(** The registry together with the name directive at [ruleinfo]. *)
Definition view_registry_name (ruleinfo : addr) (st : Store) :=
  (view_registry st, ri_name (the_ruleinfo st ruleinfo)).

(** The names the spec gives: the unnamed registrations are numbered among
    themselves, from [count + 1] on. *)
Fixpoint numbered_among_unnamed (count : nat) (names : list (option string))
    : list (option string) :=
  match names with
  | [] => []
  | Some n :: rest => Some n :: numbered_among_unnamed count rest
  | None :: rest => Some (py_str_nat (count + 1)) :: numbered_among_unnamed (S count) rest
  end.

Definition use_rule_error : exn :=
  WorkflowError
    "'use rule' statement from rule in the same module must declare a single rule but multiple rules are declared.".

(** The values a [shadow] directive may have. *)
Definition shadow_values : list pyval :=
  [PBool true; PStr "shallow"; PStr "full"; PStr "minimal"; PStr "copy-minimal"].

(** The local rules and the name of the rule at [rule]. *)
Definition view_local (rule : addr) (st : Store) : gset string * string :=
  (_localrules (wf st), rule_name (the_rule st rule)).

(** More local rules, the same name. *)
Definition more_local (v v' : gset string * string) : Prop := v.1 ⊆ v'.1 /\ v.2 = v'.2.

(** The directives and the resources of the rule at [rule]. *)
Definition view_resources (rule ruleinfo : addr) (st : Store) : RuleInfo * gmap string pyval :=
  (view_directives ruleinfo st, rule_resources (the_rule st rule)).

(** No hand-over that gives the rule the resources of the workflow. *)
Definition no_plain_handover (i : RuleInfo) : Prop :=
  truthy (ri_handover i) = false \/ is_Some (ri_resources i).

(** The same directives and, unless a hand-over gives the rule the
    resources of the workflow, the same resources. *)
Definition same_resources (v v' : RuleInfo * gmap string pyval) : Prop :=
  v.1 = v'.1 /\ (no_plain_handover v.1 -> v.2 = v'.2).

(** The function names, the namespaces and the name of the rule. *)
Definition view_function (rule : addr) (st : Store) :=
  (func_names st, namespaces st, rule_name (the_rule st rule)).

(** The attributes of [rules] and the name of the rule. *)
Definition view_proxy (rule : addr) (st : Store) :=
  (rules_proxy st, rule_name (the_rule st rule)).

(** The registry holds every name once, and the controller has counted the
    names. *)
Definition registry_counted (w : Workflow) : Prop :=
  NoDup (od_keys (_rules w)) /\ rule_count w = length (_rules w).

Definition newline : string := String "010"%char EmptyString.

Definition word_tail (rest : string) : bool :=
  match rest with
  | EmptyString => true
  | String "010"%char EmptyString => true
  | _ => word_then_end rest
  end.

(** The stack of scopes: the active one and those it suspended. *)
Definition view_scopes (st : Store) :=
  (modifier_top (wf st), modifier_below (wf st)).

(** Every event that [m] adds to the trace satisfies [P]. *)
Definition emits {A} (P : event -> Prop) (m : M A) : Prop :=
  forall st, exists evs, trace (snd (m st)) = (trace st ++ evs)%list /\ Forall P evs.

(** The hooks of the workflow and the work that a dry run must not do. *)
Definition not_for_dry_run : list event :=
  [Call "onstart"; Call "onsuccess"; Call "onerror"; Call "dag.cleanup_workdir";
   Call "iocache.deactivate"; Call "scheduler.stats.to_json"].

(** One of the options that ask for a look at the job graph instead of its
    execution. *)
Definition inspection (a : ExecArgs) : bool :=
  generate_unit_tests a || export_cwl a || report a || printd3dag a || printdag a
  || printrulegraph a || printfilegraph a || summary a || detailed_summary a
  || archive a || delete_all_output a || delete_temp_output a
  || list_version_changes a || list_code_changes a || list_input_changes a
  || list_params_changes a || list_untracked a.

(** In the events [evs] of a run with the answer [answer], every call of
    the hook [what] comes after a call of [onstart], and the answer is
    [expected]. *)
Definition hook_in_order (what : string) (expected : bool) (answer : result bool)
    (evs : list event) : Prop :=
  forall before after,
    evs = (before ++ Call what :: after)%list ->
    answer = Ok expected /\ Call "onstart" ∈ before.

(** The hooks [onsuccess] and [onerror] are called only in a run that gives
    the matching answer, and only after [onstart] has been called. *)
Definition hooks_agree (m : M bool) : Prop :=
  forall st, exists evs,
    trace (snd (m st)) = (trace st ++ evs)%list
    /\ hook_in_order "onsuccess" true (fst (m st)) evs
    /\ hook_in_order "onerror" false (fst (m st)) evs.

Definition no_final_hook (e : event) : Prop :=
  e <> Call "onsuccess" /\ e <> Call "onerror".

(** The events of a run that stops after its maintenance action: the graph
    is not built, the working directory is not locked and nothing reaches the
    scheduler. *)
Definition maintenance_only (evs : list event) : Prop :=
  Forall (fun e => e <> Call "dag.init" /\ e <> Call "persistence.lock"
                   /\ ~ scheduler_event e) evs.

(** * Scenarios *)

(** A controller with the rule
    [rule a: threads: 4 resources: mem=100 shell: "touch x"]. *)
Definition store_with_rule_a : Store :=
  snd (define_rule (Some "a") false
         [threads (PInt 4); resources [] [("mem", PInt 100)]; shellcmd (PStr "touch x")]
         7%nat (new_Store default_args some_externals)).

(** The rule definitions [rule a: ...] and then [rule: ...], without
    directives. *)
Definition named_then_unnamed : list (option string * RuleInfo) :=
  [(Some "a", new_RuleInfo (Some 0%nat)); (None, new_RuleInfo (Some 1%nat))].

(** A workflow started with [--cache] and no rule names. *)
Definition caching_args : InitArgs := default_args <| arg_cache := Some [] |>.

(** The store when [decorate] is about to be called for
    [rule a: output: "out.txt" cache: "bogus"]; rule and directives are the
    objects at address 0. *)
Definition store_cache_bogus : Store :=
  snd (prepare_rule (Some "a") false
         [cache_rule (PStr "bogus"); output [PStr "out.txt"] []] 7%nat
         (new_Store caching_args some_externals)).

(** The same for [rule a: output: "out.txt" benchmark: "b.tsv" cache: True],
    with the arguments [i] of the controller. *)
Definition store_benchmark_cache (i : InitArgs) : Store :=
  snd (prepare_rule (Some "a") false
         [cache_rule (PBool true); benchmark (PStr "b.tsv"); output [PStr "out.txt"] []] 7%nat
         (new_Store i some_externals)).


(** A controller with caching between workflows enabled and the rule
    [rule a: output: "out.txt" cache: True localrule: True
    shell: "touch out.txt"]. *)
Definition store_cached_local_rule : Store :=
  snd (define_rule (Some "a") false
         [cache_rule (PBool true); localrule (PBool true); output [PStr "out.txt"] [];
          shellcmd (PStr "touch out.txt")]
         7%nat (new_Store caching_args some_externals)).

(** The same in a scope that allows rules to be overwritten. *)
Definition store_overwriting : Store :=
  store_cached_local_rule
    <| wf ::= fun w =>
         w <| modifier_top ::= fun m => m <| mod_allow_rule_overwrite := true |> |> |>.

(** The store when [decorate] is about to be called for
    [rule a: threads: v], with the arguments [i] of the controller. *)
Definition store_threads (i : InitArgs) (v : pyval) : Store :=
  snd (prepare_rule (Some "a") false [threads v] 7%nat (new_Store i some_externals)).

(** A workflow started with [--set-threads a=8]. *)
Definition set_threads_args : InitArgs :=
  default_args <| arg_overwrite_threads := {[ "a" := PInt 8 ]} |>.

(** A run that asks for nothing but the execution of the jobs. *)
Definition plain_run : ExecArgs := {|
  dryrun := false; printdag := false; printrulegraph := false; printfilegraph := false;
  printd3dag := false; summary := false; detailed_summary := false; archive := false;
  delete_all_output := false; delete_temp_output := false; list_version_changes := false;
  list_code_changes := false; list_input_changes := false; list_params_changes := false;
  list_untracked := false; list_conda_envs := false; wait_for_files := None;
  nolock := false; unlock := false; nodeps := false; cleanup_metadata := [];
  conda_cleanup_envs := false; cleanup_containers := false; cleanup_shadow := false;
  updated_files := false; generate_unit_tests := false; export_cwl := false;
  report := false; containerize := false; conda_create_envs_only := false;
  quiet := false; no_hooks := false; stats := false
|}.

(** Collaborators that do their work; the job set holds the given checkpoint
    jobs and every sub-workflow is asked for the file [data.txt]. *)
Definition collaborators (checkpoints : list string) : Collaborators := {|
  files_arrive := true; metadata_cleaned := fun _ => true; locks_cleaned := true;
  lock_free := true; subworkflow_targets := fun _ => ["data.txt"];
  missing_input := []; checkpoint_jobs := checkpoints; dag_len := 1%nat;
  schedule := true
|}.

(** A nested run that binds the name [leak] in the namespace it works on. *)
Definition leaking_run (sw : Subworkflow) (targets : list string) (ns : gmap string pyval)
    : bool * list string * gmap string pyval :=
  (true, [], <["leak" := PInt 1]> ns).

(** A controller with the sub-workflow [sub] and the rule [a]; its Snakefile
    has bound the name [samples]. *)
Definition store_with_subworkflow : Store :=
  store_with_rule_a
    <| wf ::= fun w => w <| _subworkflows :=
         [("sub", {| sw_name := "sub"; sw_snakefile := PStr "sub/Snakefile";
                     sw_workdir := PStr "sub"; sw_configfile := PNone |})] |> |>
    <| namespaces := {[ 0%nat := {[ "samples" := PInt 3 ]} ]} |>.

(** A controller in immediate-submit mode with the rule [a]. *)
Definition store_immediate_submit : Store :=
  store_with_rule_a <| wf ::= fun w => w <| _immediate_submit := true |> |>.

(** [d[k] = v] on the dictionary object at [d]. *)
Definition set_dict_item (d : addr) (k : string) (v : pyval) : M unit :=
  modify (fun st =>
    st <| dict_objs ::= fun h => <[d := od_set (default [] (h !! d)) k v]> h |>).

(** A controller with the rule
    [rule a: input: "in.txt", ref="ref.fa" output: "out.txt" shell: "touch out.txt"];
    the rule and its directives are the objects at address 0, the keyword
    arguments of [input] the dictionary at address 1. *)
Definition store_with_rule_in : Store :=
  snd (define_rule (Some "a") false
         [input [PStr "in.txt"] [("ref", PStr "ref.fa")]; output [PStr "out.txt"] [];
          shellcmd (PStr "touch out.txt")] 7%nat (new_Store default_args some_externals)).

(** The same inside a scope that wants the rule [wanted] only. *)
Definition store_skipping : Store :=
  store_with_rule_in
    <| wf ::= fun w =>
         w <| modifier_top ::= fun m =>
                m <| mod_skip := Some (fun n => negb (bool_decide (n = Some "wanted"))) |> |> |>.

(** A workflow that runs on a cluster, started with
    [--set-resources a:mem=200]. *)
Definition cluster_args : InitArgs :=
  default_args <| arg_run_local := false |>
               <| arg_overwrite_resources := {[ "a" := [("mem", PInt 200)] ]} |>.

(** The store when [decorate] is about to be called for a rule [a] with
    the directives [shadow: "minimal"], [resources: mem=100], [priority: 5],
    [retries: 2], [group: "g"], [container: "docker://img"],
    [default_target: True], [localrule: True] and [shell: "touch x"], in a
    workflow started with [cluster_args]; rule and directives are the
    objects at address 0. *)
Definition store_deployed_rule : Store :=
  snd (prepare_rule (Some "a") false
         [shadow (PStr "minimal"); resources [] [("mem", PInt 100)]; priority (PInt 5);
          retries (PInt 2); group (PStr "g"); container (PStr "docker://img");
          default_target_rule (PBool true); localrule (PBool true);
          shellcmd (PStr "touch x")]
         7%nat (new_Store cluster_args some_externals)).

(** The same for [rule a: handover: True shell: "touch x"] in a workflow
    started with the defaults. *)
Definition store_handover_rule : Store :=
  snd (prepare_rule (Some "a") false [handover (PBool true); shellcmd (PStr "touch x")]
         7%nat (new_Store default_args some_externals)).

(** The store when [decorate] is about to be called for
    [rule a: name: "b" shell: "touch x"]; rule and directives are the objects
    at address 0. *)
Definition store_renamed_rule : Store :=
  snd (prepare_rule (Some "a") false [name "b"; shellcmd (PStr "touch x")]
         7%nat (new_Store default_args some_externals)).

(** The same for [rule c: name: "a" shell: "touch y"] in the controller
    that has the rule [a]; rule and directives are the objects at address 1.
    *)
Definition store_renamed_onto_a : Store :=
  snd (prepare_rule (Some "c") false [name "a"; shellcmd (PStr "touch y")]
         8%nat store_with_rule_a).

(** A dry run, a run that prints a summary, a run that cleans the metadata
    of [out.txt] and a run that unlocks the working directory. *)
Definition dry_run : ExecArgs := plain_run <| dryrun := true |> <| updated_files := true |>.
Definition summary_run : ExecArgs := plain_run <| summary := true |> <| updated_files := true |>.
Definition cleanup_metadata_run_args : ExecArgs := plain_run <| cleanup_metadata := ["out.txt"] |>.
Definition unlock_run_args : ExecArgs := plain_run <| unlock := true |>.

(** The store when [decorate] is about to be called for
    [rule a: container: None shell: "touch x"] in a workflow whose Snakefile
    declared [container: "docker://base"] before. *)
Definition store_before_container_none : Store :=
  snd (prepare_rule (Some "a") false [shellcmd (PStr "touch x")] 7%nat
         (snd (global_container (PStr "docker://base")
                 (new_Store default_args some_externals)))).

(** The store when the rule [rule a: shell: "touch x"] is about to be
    finalised. *)
Definition store_plain_rule : Store :=
  snd (prepare_rule (Some "a") false [shellcmd (PStr "touch x")] 7%nat
         (new_Store default_args some_externals)).

(** * Properties *)

(** ** Reasoning about computations *)

#[local] Arguments lookup_total : simpl never.

(** Unfolding of the operations of [M]. *)
Ltac unfold_M :=
  cbv beta iota delta
    [when bind get_ruleinfo get_rule_obj get_dict gets get_wf get_modifier
     get_globals set_rule set_ruleinfo set_wf modify raise ret emit logger
     continue return_ do or_return].

Lemma total_partial {A} P (m : M A) Q : total P m Q -> partial P m Q.
Proof.
  intros H st HP a st' E. destruct (H st HP) as (a' & st'' & E' & HQ).
  rewrite E in E'. by simplify_eq.
Qed.

Lemma partial_bind {A B} P (m : M A) Q (k : A -> M B) R :
  partial P m Q -> (forall a, partial (Q a) (k a) R) -> partial P (bind m k) R.
Proof.
  intros Hm Hk st HP b st'. unfold bind.
  destruct (m st) as [[a|e] st1] eqn:E; [|done].
  intros E'. eapply Hk; [|done]. by eapply Hm.
Qed.

Lemma total_bind {A B} P (m : M A) Q (k : A -> M B) R :
  total P m Q -> (forall a, total (Q a) (k a) R) -> total P (bind m k) R.
Proof.
  intros Hm Hk st HP. destruct (Hm st HP) as (a & st1 & E & HQ).
  destruct (Hk a st1 HQ) as (b & st2 & E' & HR).
  exists b, st2. unfold bind. by rewrite E.
Qed.

Lemma fails_bind {A B} P (m : M A) Q (k : A -> M B) :
  partial P m Q -> (forall a, fails (Q a) (k a)) -> fails P (bind m k).
Proof.
  intros Hm Hk st HP. unfold bind.
  destruct (m st) as [[a|e] st1] eqn:E; [|by eauto].
  eapply Hk, Hm; eauto.
Qed.

Lemma keeps_bind {A B V} (view : Store -> V) (m : M A) (k : A -> M B) :
  keeps view m -> (forall a, keeps view (k a)) -> keeps view (bind m k).
Proof.
  intros Hm Hk st. unfold bind. specialize (Hm st).
  destruct (m st) as [[a|e] st1]; simpl in *; [|done].
  by rewrite Hk.
Qed.

Lemma keeps_run_all {V} (view : Store -> V) (ms : list (M unit)) :
  Forall (keeps view) ms -> keeps view (run_all ms).
Proof.
  induction 1 as [|m ms Hm _ IH]; simpl; [done|].
  by apply keeps_bind.
Qed.

Lemma partial_keeps {A V} (view : Store -> V) (m : M A) v :
  keeps view m -> partial (fun st => view st = v) m (fun _ st => view st = v).
Proof. intros H st Hv a st' E. specialize (H st). rewrite E in H. simpl in H. congruence. Qed.

Lemma partial_conj {A} P (m : M A) Q1 Q2 :
  partial P m Q1 -> partial P m Q2 -> partial P m (fun a st => Q1 a st /\ Q2 a st).
Proof. intros H1 H2 st HP a st' E. split; eauto. Qed.

Lemma partial_weaken {A} (P P' : Store -> Prop) (m : M A) (Q Q' : A -> Store -> Prop) :
  partial P m Q -> (forall st, P' st -> P st) -> (forall a st, Q a st -> Q' a st) ->
  partial P' m Q'.
Proof. intros H HP HQ st ? a st' E. eapply HQ, H; eauto. Qed.

Lemma run_all_app (ms ns : list (M unit)) st :
  run_all (ms ++ ns) st = (run_all ms ;; run_all ns) st.
Proof.
  revert st. induction ms as [|m ms IH]; intros st; simpl; [done|].
  unfold bind in *. destruct (m st) as [[[]|e] st1]; [|done].
  apply IH.
Qed.

(** ** Dictionaries *)

Lemma od_get_set {V} (d : odict V) k v k' :
  od_get (od_set d k v) k' = if String.eqb k' k then Some v else od_get d k'.
Proof.
  induction d as [|[k0 v0] d IH]; simpl.
  - done.
  - destruct (String.eqb k k0) eqn:E; simpl.
    + apply String.eqb_eq in E as ->. by destruct (String.eqb k' k0).
    + rewrite IH. destruct (String.eqb k' k0) eqn:E'; [|done].
      apply String.eqb_eq in E' as ->. rewrite String.eqb_sym. by rewrite E.
Qed.

Lemma od_keys_set_mem {V} (d : odict V) k v :
  od_mem d k = true -> od_keys (od_set d k v) = od_keys d.
Proof.
  unfold od_mem, od_keys. induction d as [|[k0 v0] d IH]; simpl; [done|].
  rewrite (String.eqb_sym k k0).
  destruct (String.eqb k0 k) eqn:E; simpl.
  - apply String.eqb_eq in E as ->. done.
  - intros H. by rewrite IH.
Qed.

Lemma od_length_set_new {V} (d : odict V) k v :
  od_mem d k = false -> length (od_set d k v) = S (length d).
Proof.
  unfold od_mem. induction d as [|[k0 v0] d IH]; simpl; [done|].
  destruct (String.eqb k k0); simpl; [done|].
  intros H. by rewrite IH.
Qed.

(** ** The registry: [add_rule] *)

Lemma fresh_rule_addr (st : Store) : rule_objs st !! fresh (dom (rule_objs st)) = None.
Proof. apply not_elem_of_dom, is_fresh. Qed.

(** C6. For every registry and every name registered in it: [add_rule]
    without the permission to overwrite raises [CreateRuleException] (the
    duplicate-rule error) and leaves the whole store as it was; with the
    permission it succeeds, and the registry then holds under that name, at
    the position of the old rule, a rule object that did not exist before and
    that is the empty rule made from the arguments of the call alone.  What
    the workflow keeps by rule name stays as the old rule left it and now
    applies to the new rule: the cache map (so [get_cache_mode] of the new
    rule is the entry of the old one), the local rules, and a default target
    that is set.  The rules of the scope stay as they were if they hold a
    rule that is the same element as the new one. *)
Theorem add_rule_duplicate (st : Store) (name : string) (lineno snakefile : pyval)
    (checkpoint : bool) :
  is_rule (wf st) name = true ->
  add_rule name lineno snakefile checkpoint false st
    = (Raise (CreateRuleException ("The name " ++ name ++ " is already used by another rule")), st)
  /\ exists r st',
       add_rule name lineno snakefile checkpoint true st = (Ok name, st')
       /\ rule_objs st !! r = None
       /\ od_get (_rules (wf st')) name = Some r
       /\ the_rule st' r = new_Rule name lineno snakefile
       /\ od_keys (_rules (wf st')) = od_keys (_rules (wf st))
       /\ (forall n, n <> name -> od_get (_rules (wf st')) n = od_get (_rules (wf st)) n)
       /\ (forall r', r' <> r -> rule_objs st' !! r' = rule_objs st !! r')
       /\ rule_count (wf st') = rule_count (wf st)
       /\ cache_rules (wf st') = cache_rules (wf st)
       /\ _localrules (wf st') = _localrules (wf st)
       /\ get_cache_mode st' r = cache_rules (wf st) !! name
       /\ default_target (wf st')
          = match default_target (wf st) with
            | None | Some EmptyString => Some name
            | Some target => Some target
            end
       /\ (forall r',
             r' ∈ default ∅ (ruleset_objs st !! mod_rules (modifier_top (wf st))) ->
             is_Some (rule_objs st !! r') ->
             same_rule (ext st) (the_rule st r') (new_Rule name lineno snakefile) = true ->
             ruleset_objs st' = ruleset_objs st).
Proof.
  intros Hin. split.
  - unfold add_rule. unfold_M. by rewrite Hin.
  - exists (fresh (dom (rule_objs st))).
    unfold add_rule, alloc_rule. unfold_M. rewrite Hin. simpl.
    repeat case_match; simplify_eq/=.
    all: eexists; split; [reflexivity|]; simpl.
    all: split; [apply fresh_rule_addr|].
    all: rewrite od_get_set, String.eqb_refl.
    all: split; [done|]; split; [unfold the_rule; simpl; apply lookup_total_insert_eq|].
    all: split; [by apply od_keys_set_mem|].
    all: split; [intros n Hn; rewrite od_get_set;
                 by destruct (String.eqb_spec n name)|].
    all: split; [intros r' Hr'; by rewrite lookup_insert_ne|].
    all: split; [done|]; split; [done|]; split; [done|].
    all: split; [unfold get_cache_mode, the_rule; simpl; by rewrite lookup_total_insert_eq|].
    all: split; [done|].
    all: intros r' Hr' Hsome Hsame.
    all: match goal with |- context [existsb ?f ?l] =>
           assert (existsb f l = true) as ->; [|done] end.
    all: apply existsb_exists; exists r'; split; [by apply list_elem_of_In, elem_of_elements|].
    all: unfold the_rule in *; simpl.
    all: rewrite lookup_total_insert_eq, lookup_total_insert_ne; [done|].
    all: intros <-; rewrite fresh_rule_addr in Hsome; by destruct Hsome.
Qed.

Lemma add_rule_duplicate_witness :
  is_rule (wf store_with_rule_a) "a" = true
  /\ add_rule "a" PNone PNone false false store_with_rule_a
     = (Raise (CreateRuleException "The name a is already used by another rule"),
        store_with_rule_a).
Proof.
  split; [reflexivity|].
  apply (add_rule_duplicate store_with_rule_a "a" PNone PNone false). reflexivity.
Defined.

(** ** Environment variables *)

Lemma filter_nil_Forall {A} (p : A -> bool) (l : list A) :
  filter (fun v => p v = false) l = [] <-> Forall (fun v => p v = true) l.
Proof.
  induction l as [|x l IH]; simpl.
  - split; [constructor|done].
  - rewrite filter_cons. destruct (decide (p x = false)) as [E|E].
    + split; [done|]. inversion 1; congruence.
    + rewrite IH. apply not_false_iff_true in E.
      split; [by constructor|by inversion 1].
Qed.

(** C10. [register_envvars] is all or nothing.  If a requested name does not
    match the identifier pattern, or strict checking is on and a requested
    name is not defined in the process environment, it raises
    [WorkflowError] and the store, hence the set of registered names, is the
    one from before; if neither is the case it succeeds, and all that changes
    is that the registered set becomes the union of the old set and the
    requested names. *)
Theorem register_envvars_atomic (st : Store) (envvars : list string) :
  ((exists v, v ∈ envvars /\ re_match_word v = false) ->
     exists msg, register_envvars envvars st = (Raise (WorkflowError msg), st))
  /\ (check_envvars (wf st) = true ->
      (exists v, v ∈ envvars /\ v ∉ os_environ (ext st)) ->
      exists msg, register_envvars envvars st = (Raise (WorkflowError msg), st))
  /\ (Forall (fun v => re_match_word v = true) envvars ->
      check_envvars (wf st) = false \/ Forall (fun v => v ∈ os_environ (ext st)) envvars ->
      register_envvars envvars st
        = (Ok tt, st <| wf ::= fun w =>
                          w <| _envvars := _envvars (wf st) ∪ list_to_set envvars |> |>))
  /\ (forall r st', register_envvars envvars st = (r, st') ->
      (r = Ok tt /\ _envvars (wf st') = _envvars (wf st) ∪ list_to_set envvars)
      \/ ((exists msg, r = Raise (WorkflowError msg)) /\ st' = st)).
Proof.
  unfold register_envvars. unfold_M.
  destruct (filter (fun v => re_match_word v = false) envvars) as [|x xs] eqn:Ef.
  - pose proof (proj1 (filter_nil_Forall _ _) Ef) as Hall.
    split; [|split; [|split]].
    + intros (v & Hv & Hbad). rewrite Forall_forall in Hall.
      specialize (Hall v Hv). congruence.
    + intros Hc (v & Hv & Hundef). rewrite Hc. simpl.
      destruct (filter (fun v => v ∉ os_environ (ext st)) envvars) as [|y ys] eqn:Eu.
      * assert (v ∈ filter (fun v => v ∉ os_environ (ext st)) envvars) as Hin
          by (by apply list_elem_of_filter).
        rewrite Eu in Hin. by apply elem_of_nil in Hin.
      * eauto.
    + intros _ [Hc|Hdef].
      * rewrite Hc. done.
      * assert (filter (fun v => v ∉ os_environ (ext st)) envvars = []) as ->.
        { clear -Hdef. induction Hdef as [|y ys Hy _ IH]; [done|].
          rewrite filter_cons. by destruct (decide (y ∉ os_environ (ext st))). }
        by rewrite andb_false_r.
    + intros r st'. repeat case_match; intros; simplify_eq; eauto.
  - split; [|split; [|split]].
    + eauto.
    + eauto.
    + intros Hall. apply filter_nil_Forall in Hall. congruence.
    + intros r st' ?. simplify_eq. eauto.
Qed.

(** The theorem at work: one bad name among the requested ones, and the
    controller keeps the names it had. *)
Lemma register_envvars_atomic_witness :
  let st := new_Store default_args some_externals in
  (exists v, v ∈ ["HOME"; "MY-VAR"] /\ re_match_word v = false)
  /\ exists msg, register_envvars ["HOME"; "MY-VAR"] st = (Raise (WorkflowError msg), st).
Proof.
  intros st.
  assert (exists v, v ∈ ["HOME"; "MY-VAR"] /\ re_match_word v = false) as H.
  { exists "MY-VAR". split; [|reflexivity]. apply list_elem_of_In. simpl. auto. }
  split; [exact H|].
  exact (proj1 (register_envvars_atomic st ["HOME"; "MY-VAR"]) H).
Defined.

(** ** Finalising a rule: what the blocks of [decorate] leave alone *)

Lemma keeps_ret {A V} (view : Store -> V) (a : A) : keeps view (ret a).
Proof. done. Qed.

Lemma keeps_raise {A V} (view : Store -> V) (e : exn) : keeps view (@raise A e).
Proof. done. Qed.

Lemma keeps_gets {A V} (view : Store -> V) (f : Store -> A) : keeps view (gets f).
Proof. done. Qed.

Lemma keeps_modify {V} (view : Store -> V) (f : Store -> Store) :
  (forall st, view (f st) = view st) -> keeps view (modify f).
Proof. intros H st. apply H. Qed.

Lemma keeps_when {V} (view : Store -> V) (c : bool) (m : M unit) :
  keeps view m -> keeps view (when c m).
Proof. by destruct c. Qed.

Lemma keeps_pair {A V W} (v : Store -> V) (w : Store -> W) (m : M A) :
  keeps v m -> keeps w m -> keeps (fun st => (v st, w st)) m.
Proof. intros Hv Hw st. by rewrite Hv, Hw. Qed.

Ltac head_of t :=
  lazymatch t with
  | ?f _ => head_of f
  | _ => t
  end.

Create HintDb views.

Ltac heap_lookups :=
  autounfold with views;
  unfold get_cache_mode; unfold the_rule, the_ruleinfo, the_dict, the_namespace; simpl;
  rewrite ?lookup_total_insert_eq, ?lookup_insert_eq;
  rewrite ?lookup_total_insert_ne, ?lookup_insert_ne by done.

(** Proves [keeps view m] along the structure of [m]; what is left are the
    assignments that do change the view. *)
Ltac keeps_step :=
  lazymatch goal with
  | |- keeps _ (bind _ _) => apply keeps_bind; [|intros ?]
  | |- keeps _ (when _ _) => apply keeps_when
  | |- keeps _ (ret _) => apply keeps_ret
  | |- keeps _ (raise _) => apply keeps_raise
  | |- keeps _ (gets _) => apply keeps_gets
  | |- keeps _ (modify _) =>
      apply keeps_modify; intros ?; first [reflexivity | heap_lookups; reflexivity]
  | |- keeps _ (if ?c then _ else _) => destruct c
  | |- keeps _ (match ?x with _ => _ end) => destruct x
  | |- keeps _ ?m => let h := head_of m in unfold h
  end.

Ltac frame := intros; repeat keeps_step.

#[local] Hint Unfold view_config view_directives other_directives view_threads
  view_output : views.

Section frames.

Variables (rule ruleinfo : addr) (name orig_name : string) (checkpoint : bool).

Lemma keeps_config_before_threads :
  Forall (keeps view_config) (blocks_before_threads rule ruleinfo).
Proof. repeat constructor; frame. Qed.

Lemma keeps_config_threads : keeps view_config (decorate_threads rule ruleinfo name).
Proof. frame. Qed.

Lemma keeps_config_before_cache :
  Forall (keeps view_config) (blocks_before_cache rule ruleinfo name).
Proof. repeat constructor; frame. Qed.

Lemma keeps_directives_before_threads :
  Forall (keeps (view_directives ruleinfo)) (blocks_before_threads rule ruleinfo).
Proof. repeat constructor; frame. Qed.

Lemma keeps_directives_threads :
  keeps (view_directives ruleinfo) (decorate_threads rule ruleinfo name).
Proof. frame. Qed.

Lemma keeps_directives_before_cache :
  Forall (keeps (view_directives ruleinfo)) (blocks_before_cache rule ruleinfo name).
Proof. repeat constructor; frame. Qed.

Lemma keeps_directives_after_cache :
  Forall (keeps (view_directives ruleinfo))
    (decorate_cache rule ruleinfo :: decorate_benchmark_cache rule ruleinfo
     :: blocks_after_cache rule ruleinfo orig_name checkpoint).
Proof. repeat constructor; frame. Qed.

Lemma keeps_threads_before_threads :
  Forall (keeps (view_threads ruleinfo)) (blocks_before_threads rule ruleinfo).
Proof. repeat constructor; frame. Qed.

Lemma keeps_output_threads :
  keeps (view_output rule) (decorate_threads rule ruleinfo name).
Proof. frame. Qed.

Lemma keeps_output_before_cache :
  Forall (keeps (view_output rule)) (blocks_before_cache rule ruleinfo name).
Proof. repeat constructor; frame. Qed.

End frames.

(** ** Which exceptions a computation can raise *)

Lemma raises_only_ret {A} E (a : A) : raises_only E (ret a).
Proof. by intros st e st'. Qed.

Lemma raises_only_gets {A} E (f : Store -> A) : raises_only E (gets f).
Proof. by intros st e st'. Qed.

Lemma raises_only_modify E f : raises_only E (modify f).
Proof. by intros st e st'. Qed.

Lemma raises_only_raise {A} (E : exn -> Prop) e : E e -> raises_only E (@raise A e).
Proof. intros He st e' st' [= <- _]. done. Qed.

Lemma raises_only_when E c m : raises_only E m -> raises_only E (when c m).
Proof. by destruct c. Qed.

Lemma raises_only_bind {A B} E (m : M A) (k : A -> M B) :
  raises_only E m -> (forall a, raises_only E (k a)) -> raises_only E (bind m k).
Proof.
  intros Hm Hk st e st'. unfold bind.
  destruct (m st) as [[a|e'] st1] eqn:Em.
  - apply Hk.
  - intros [= <- _]. by eapply Hm.
Qed.

Lemma raises_only_run_all E (ms : list (M unit)) :
  Forall (raises_only E) ms -> raises_only E (run_all ms).
Proof.
  induction 1 as [|m ms Hm _ IH]; simpl; [apply raises_only_ret|].
  by apply raises_only_bind.
Qed.

Ltac raises_step :=
  lazymatch goal with
  | |- raises_only _ (bind _ _) => apply raises_only_bind; [|intros ?]
  | |- raises_only _ (when _ _) => apply raises_only_when
  | |- raises_only _ (ret _) => apply raises_only_ret
  | |- raises_only _ (gets _) => apply raises_only_gets
  | |- raises_only _ (modify _) => apply raises_only_modify
  | |- raises_only _ (raise _) => apply raises_only_raise
  | |- raises_only _ (if ?c then _ else _) => destruct c eqn:?
  | |- raises_only _ (match ?x with _ => _ end) => destruct x eqn:?
  | |- raises_only _ ?m => let h := head_of m in unfold h
  end.

(** ** The guard of the cache directive *)

(** [ruleinfo.cache is True or "omit-software" or "all"] is truthy whatever
    the directive is. *)
Lemma cache_guard_always (cache : pyval) :
  truthy (py_or (py_or (PBool (is_True cache)) (PStr "omit-software")) (PStr "all")) = true.
Proof. unfold py_or. simpl. by destruct (is_True cache). Qed.

Section cache_guard.

Variables (rule ruleinfo : addr) (name orig_name : string) (checkpoint : bool).

Let E (e : exn) : Prop := e <> invalid_cache_error.

Ltac not_invalid :=
  repeat raises_step;
  try (unfold E, invalid_cache_error; discriminate);
  try (unfold int_of_float in *; repeat case_match; simplify_eq;
       unfold E, invalid_cache_error; discriminate).

Lemma decorate_cache_not_invalid : raises_only E (decorate_cache rule ruleinfo).
Proof.
  unfold decorate_cache.
  repeat raises_step; try (unfold E, invalid_cache_error; discriminate).
  by rewrite cache_guard_always in *.
Qed.

Lemma blocks_not_invalid (n : string) :
  Forall (raises_only E) (decorate_blocks rule ruleinfo n orig_name checkpoint).
Proof.
  unfold decorate_blocks, blocks_before_threads, blocks_before_cache, blocks_after_cache.
  simpl. repeat constructor.
  all: try apply decorate_cache_not_invalid.
  all: not_invalid.
Qed.

Lemma decorate_not_invalid :
  raises_only E (decorate rule ruleinfo name orig_name checkpoint).
Proof.
  unfold decorate.
  apply raises_only_bind; [not_invalid|intros _].
  apply raises_only_bind; [not_invalid|intros _].
  apply raises_only_bind; [not_invalid|intros name'].
  apply raises_only_bind; [|intros; not_invalid].
  apply raises_only_run_all, blocks_not_invalid.
Qed.

End cache_guard.

(** ** What a computation adds to the trace *)

Lemma emits_ret {A} P (x : A) : emits P (ret x).
Proof. intros st. exists []. by rewrite app_nil_r. Qed.

Lemma emits_raise {A} P (e : exn) : emits P (@raise A e).
Proof. intros st. exists []. by rewrite app_nil_r. Qed.

Lemma emits_gets {A} P (f : Store -> A) : emits P (gets f).
Proof. intros st. exists []. by rewrite app_nil_r. Qed.

Lemma emits_modify P (f : Store -> Store) :
  (forall st, trace (f st) = trace st) -> emits P (modify f).
Proof. intros Hf st. exists []. simpl. by rewrite Hf, app_nil_r. Qed.

Lemma emits_emit (P : event -> Prop) (e : event) : P e -> emits P (emit e).
Proof. intros He st. exists [e]. split; [done|]. by constructor. Qed.

Lemma emits_bind {A B} P (m : M A) (k : A -> M B) :
  emits P m -> (forall x, emits P (k x)) -> emits P (bind m k).
Proof.
  intros Hm Hk st. unfold bind. destruct (Hm st) as (evs & Ht & Hevs).
  destruct (m st) as [[x|e] st1]; simpl in *; [|by eauto].
  destruct (Hk x st1) as (evs' & Ht' & Hevs').
  exists (evs ++ evs')%list. rewrite Ht', Ht, app_assoc. split; [done|]. by apply Forall_app.
Qed.

Lemma emits_when P (b : bool) (m : M unit) : emits P m -> emits P (when b m).
Proof. destruct b; [done|]. intros _. apply emits_ret. Qed.

Lemma emits_when_false P (b : bool) (m : M unit) : b = false -> emits P (when b m).
Proof. intros ->. apply emits_ret. Qed.

Lemma emits_or_return P (m : M (option bool)) (k : M bool) :
  emits P m -> emits P k -> emits P (m then_ k).
Proof.
  intros Hm Hk. unfold or_return. apply emits_bind; [done|].
  intros [b|]; [apply emits_ret|done].
Qed.

Ltac allowed_event :=
  first
    [ intros [?|?]; discriminate
    | intros H; unfold not_for_dry_run in H;
      repeat (apply elem_of_cons in H as [H|H]; [discriminate|]);
      by apply elem_of_nil in H
    | repeat split; discriminate
    | intros ? H; unfold cache_advisory in H; simpl in H; discriminate ].

Ltac emits_step :=
  lazymatch goal with
  | |- emits _ (bind _ _) => apply emits_bind; [|intros ?]
  | |- emits _ (or_return _ _) => apply emits_or_return
  | |- emits _ (when _ _) =>
      first [ apply emits_when_false;
              rewrite ?andb_false_r, ?andb_false_l; reflexivity
            | apply emits_when ]
  | |- emits _ (ret _) => apply emits_ret
  | |- emits _ (raise _) => apply emits_raise
  | |- emits _ (gets _) => apply emits_gets
  | |- emits _ (modify _) => apply emits_modify; reflexivity
  | |- emits _ (emit _) => apply emits_emit; allowed_event
  | |- emits _ (if ?c then _ else _) => destruct c
  | |- emits _ (match ?x with _ => _ end) => destruct x
  | |- emits _ ?m => let h := head_of m in unfold h
  end.

(** What [decorate_cache] does when caching is enabled and the outputs pass
    the test on multiple outputs. *)
Lemma decorate_cache_enabled (rule ruleinfo : addr) (st : Store) :
  enable_cache (wf st) = true ->
  truthy (ri_cache (the_ruleinfo st ruleinfo)) = true ->
  ((length (rule_output (the_rule st rule)) <= 1)%nat
   \/ exists o rest, rule_output (the_rule st rule) = o :: rest /\ is_multiext o = true) ->
  decorate_cache rule ruleinfo st
  = (Ok tt,
     st <| wf ::= fun w =>
             w <| cache_rules ::=
                    <[rule_name (the_rule st rule) :=
                        if is_True (ri_cache (the_ruleinfo st ruleinfo)) then PStr "all"
                        else ri_cache (the_ruleinfo st ruleinfo)]> |> |>).
Proof.
  intros Hen Hc Hout. unfold decorate_cache. unfold_M.
  rewrite Hc. cbv beta iota.
  assert ((if (1 <? length (rule_output (the_rule st rule)))%nat
           then match rule_output (the_rule st rule) with
                | [] => true
                | o :: _ => is_multiext o
                end
           else true) = true) as Hok.
  { destruct Hout as [Hlen|(o & rest & -> & Hm)].
    - destruct (1 <? length (rule_output (the_rule st rule)))%nat eqn:El; [|done].
      apply Nat.ltb_lt in El. lia.
    - by destruct (1 <? length (o :: rest))%nat. }
  destruct (1 <? length (rule_output (the_rule st rule)))%nat.
  - destruct (rule_output (the_rule st rule)) as [|o rest]; cbv beta iota.
    + rewrite Hen, cache_guard_always. done.
    + rewrite Hok. cbv beta iota delta [negb]. rewrite Hen, cache_guard_always. done.
  - cbv beta iota. rewrite Hen, cache_guard_always. done.
Qed.

(** ** Finalising a rule: benchmark and cache *)

#[local] Hint Unfold view_rules : views.

Lemma fails_bind_l {A B} P (m : M A) (k : A -> M B) : fails P m -> fails P (bind m k).
Proof.
  intros H st HP. destruct (H st HP) as (e & st' & E). exists e, st'.
  unfold bind. by rewrite E.
Qed.

Lemma fails_run_all_app P Q (ms ns : list (M unit)) :
  partial P (run_all ms) (fun _ => Q) -> fails Q (run_all ns) -> fails P (run_all (ms ++ ns)).
Proof.
  intros Hm Hn st HP. rewrite run_all_app.
  revert st HP. apply (fails_bind P _ (fun _ => Q)); [done|by intros _].
Qed.

Lemma partial_inv_of_keeps {A V} (view : Store -> V) (I : Store -> Prop) (m : M A) :
  keeps view m -> (forall st st', view st' = view st -> I st -> I st') ->
  partial I m (fun _ => I).
Proof.
  intros Hk HI st Hst a st' E. apply (HI st); [|done].
  specialize (Hk st). by rewrite E in Hk.
Qed.

Lemma partial_run_all I (ms : list (M unit)) :
  Forall (fun m => partial I m (fun _ => I)) ms -> partial I (run_all ms) (fun _ => I).
Proof.
  induction 1 as [|m ms Hm _ IH]; simpl.
  - by intros st HI a st' [= _ <-].
  - by apply (partial_bind I m (fun _ => I)).
Qed.

Lemma apply_modifier_effect (ruleinfo : addr) (st : Store) :
  exists st',
    apply_modifier ruleinfo st = (Ok tt, st')
    /\ the_ruleinfo st' ruleinfo = accumulated st ruleinfo
    /\ (forall a, a <> ruleinfo -> ruleinfo_objs st' !! a = ruleinfo_objs st !! a)
    /\ view_config st' = view_config st
    /\ rule_objs st' = rule_objs st
    /\ wf st' = wf st.
Proof.
  unfold apply_modifier, accumulated. unfold_M.
  destruct (mod_ruleinfo_overwrite (modifier_top (wf st))) as [o|].
  - eexists. split; [reflexivity|]. split; [heap_lookups; reflexivity|].
    split; [intros a Ha; by heap_lookups|]. done.
  - eexists. split; [reflexivity|]. done.
Qed.

#[local] Hint Unfold view_config_directives view_benchmark_cache : views.

Section benchmark_cache.

Variables (rule ruleinfo : addr) (orig_name : string) (checkpoint : bool).

Let both := benchmark_and_cache ruleinfo.
Let view := view_config_directives ruleinfo.

Lemma both_of_view st st' : view st' = view st -> both st -> both st'.
Proof.
  unfold view, view_config_directives, view_config, view_directives.
  intros Hv (H1 & H2 & H3).
  pose proof (f_equal snd Hv) as Hd.
  pose proof (f_equal (fun v => snd (fst (fst (fst (fst v))))) Hv) as Hen.
  simpl in Hd, Hen.
  unfold both, benchmark_and_cache.
  assert (ri_cache (the_ruleinfo st' ruleinfo) = ri_cache (the_ruleinfo st ruleinfo))
    as -> by exact (f_equal ri_cache Hd).
  assert (ri_benchmark (the_ruleinfo st' ruleinfo)
          = ri_benchmark (the_ruleinfo st ruleinfo))
    as -> by exact (f_equal ri_benchmark Hd).
  by rewrite Hen.
Qed.

Lemma keeps_view_blocks name :
  Forall (keeps view)
    (blocks_before_threads rule ruleinfo
     ++ decorate_threads rule ruleinfo name :: blocks_before_cache rule ruleinfo name).
Proof.
  apply Forall_app. split; [|constructor].
  - eapply Forall_impl; [apply Forall_and; split;
      [apply keeps_config_before_threads|apply keeps_directives_before_threads]|].
    intros m [??]. by apply (keeps_pair view_config (view_directives ruleinfo)).
  - apply (keeps_pair view_config (view_directives ruleinfo));
      [apply keeps_config_threads|apply keeps_directives_threads].
  - eapply Forall_impl; [apply Forall_and; split;
      [apply keeps_config_before_cache|apply keeps_directives_before_cache]|].
    intros m [??]. by apply (keeps_pair view_config (view_directives ruleinfo)).
Qed.

Lemma cache_then_benchmark_fails (rest : M unit) :
  fails both (decorate_cache rule ruleinfo ;; decorate_benchmark_cache rule ruleinfo ;; rest).
Proof.
  intros st (Hen & Hc & [io Hb]).
  unfold bind at 1.
  destruct (decorate_cache rule ruleinfo st) as [[[]|e] st1] eqn:E; [|by eauto].
  assert (exists v, st1 = st <| wf ::= fun w =>
            w <| cache_rules ::= <[rule_name (the_rule st rule) := v]> |> |>
          /\ truthy v = true) as (v & -> & Hv).
  { revert E. unfold decorate_cache. unfold_M. rewrite Hc. cbv beta iota.
    destruct (1 <? length (rule_output (the_rule st rule)))%nat;
      [destruct (rule_output (the_rule st rule)) as [|o ?];
        [|destruct (is_multiext o)]|].
    all: cbv beta iota delta [negb]; try done.
    all: rewrite Hen, cache_guard_always; cbv beta iota delta [negb].
    all: intros [= <-]; eexists; split; [reflexivity|].
    all: destruct (is_True (ri_cache (the_ruleinfo st ruleinfo))); done. }
  unfold bind, decorate_benchmark_cache. unfold_M.
  unfold get_cache_mode, the_rule, the_ruleinfo in *. simpl in *.
  rewrite Hb, lookup_insert_eq. simpl. rewrite Hv. eauto.
Qed.


Lemma blocks_to_cache_keep_both name :
  partial both
    (run_all (blocks_before_threads rule ruleinfo
              ++ decorate_threads rule ruleinfo name
              :: blocks_before_cache rule ruleinfo name))
    (fun _ => both).
Proof.
  apply partial_run_all. eapply Forall_impl; [apply (keeps_view_blocks name)|].
  intros m Hm. eapply partial_inv_of_keeps; [exact Hm|exact both_of_view].
Qed.

Lemma decorate_blocks_split name :
  decorate_blocks rule ruleinfo name orig_name checkpoint
  = ((blocks_before_threads rule ruleinfo
      ++ decorate_threads rule ruleinfo name :: blocks_before_cache rule ruleinfo name)
     ++ decorate_cache rule ruleinfo :: decorate_benchmark_cache rule ruleinfo
        :: blocks_after_cache rule ruleinfo orig_name checkpoint)%list.
Proof. reflexivity. Qed.

Lemma keeps_view_start name :
  keeps view (decorate_wildcard_constraints rule ruleinfo)
  /\ keeps view (decorate_name rule ruleinfo name).
Proof.
  split; apply (keeps_pair view_config (view_directives ruleinfo)); frame.
Qed.

Lemma benchmark_and_cache_fail name st :
  enable_cache (wf st) = true ->
  truthy (ri_cache (accumulated st ruleinfo)) = true ->
  is_Some (ri_benchmark (accumulated st ruleinfo)) ->
  exists e st', decorate rule ruleinfo name orig_name checkpoint st = (Raise e, st').
Proof.
  intros Hen Hc Hb.
  destruct (apply_modifier_effect ruleinfo st) as (st1 & E1 & Hri & _ & Hcfg & _ & Hwf).
  unfold decorate. unfold bind at 1. rewrite E1.
  assert (both st1) as H1.
  { unfold both, benchmark_and_cache. rewrite Hri, Hwf. done. }
  clear E1 Hri Hcfg Hwf. revert st1 H1.
  change (fails both
    (decorate_wildcard_constraints rule ruleinfo ;;
     name0 <- decorate_name rule ruleinfo name ;;
     run_all (decorate_blocks rule ruleinfo name0 orig_name checkpoint) ;;
     ri <- get_ruleinfo ruleinfo ;; ret (ri_func ri))).
  destruct (keeps_view_start name) as [Hwc Hname].
  apply (fails_bind both _ (fun _ => both));
    [by eapply partial_inv_of_keeps; [|exact both_of_view]|intros _].
  apply (fails_bind both _ (fun _ => both));
    [by eapply partial_inv_of_keeps; [|exact both_of_view]|intros name0].
  apply fails_bind_l. rewrite decorate_blocks_split.
  apply (fails_run_all_app both both); [apply blocks_to_cache_keep_both|].
  simpl. apply cache_then_benchmark_fails.
Qed.

End benchmark_cache.

(** ** Finalising a rule: what a single block does to the finalised rule *)

Lemma run_all_split (pre post : list (M unit)) (b : M unit) (st st' : Store) :
  run_all (pre ++ b :: post) st = (Ok tt, st') ->
  exists s1 s2,
    run_all pre st = (Ok tt, s1) /\ b s1 = (Ok tt, s2) /\ run_all post s2 = (Ok tt, st').
Proof.
  rewrite run_all_app. unfold bind at 1.
  destruct (run_all pre st) as [[[]|e] s1] eqn:E1; simpl; [|done].
  unfold bind at 1. destruct (b s1) as [[[]|e] s2] eqn:E2; simpl; [|done].
  intros E. exists s1, s2. by rewrite E2.
Qed.

Lemma keeps_result {A V} (view : Store -> V) (m : M A) st r st' :
  keeps view m -> m st = (r, st') -> view st' = view st.
Proof. intros H E. specialize (H st). by rewrite E in H. Qed.

Lemma final_name_other_directives (i : RuleInfo) (name : string) :
  final_name (other_directives i) name = final_name i name.
Proof. done. Qed.

Lemma keeps_view_start_directives (rule ruleinfo : addr) (name : string) :
  keeps (view_directives ruleinfo) (decorate_wildcard_constraints rule ruleinfo)
  /\ keeps (view_directives ruleinfo) (decorate_name rule ruleinfo name).
Proof. split; frame. Qed.

Section block_effect.

Variables (rule ruleinfo : addr) (orig_name : string) (checkpoint : bool).
Context {W V : Type} (before : Store -> W) (view : Store -> V).

(** The name [decorate] goes on with is the one [final_name] gives. *)
Lemma decorate_name_result (name n : string) (st st' : Store) :
  decorate_name rule ruleinfo name st = (Ok n, st') ->
  n = final_name (the_ruleinfo st ruleinfo) name.
Proof.
  unfold decorate_name, final_name. unfold_M.
  destruct (ri_name (the_ruleinfo st ruleinfo)) as [new_name|]; [|by intros [= <- _]].
  destruct (negb (String.eqb new_name EmptyString)); [|by intros [= <- _]].
  cbv beta iota.
  match goal with
  | |- context [is_rule ?w name] => destruct (is_rule w name); [|by intros [= ]]
  end.
  intros [= <- _]. unfold the_rule. simpl. by rewrite lookup_total_insert_eq.
Qed.

(** The block at position [k] of [decorate]: if what comes before it keeps
    [before] and what comes after it keeps [view], then what the block
    makes of [view], given the value of [before] it starts with, is what
    a successful [decorate] makes of it, given the value of [before] once
    the directives of the scope are merged. *)
Lemma decorate_block (k : nat) (name : string) (R : string -> W -> V -> Prop) :
  keeps before (decorate_wildcard_constraints rule ruleinfo) ->
  keeps before (decorate_name rule ruleinfo name) ->
  (forall n, exists b,
      decorate_blocks rule ruleinfo n orig_name checkpoint !! k = Some b
      /\ Forall (keeps before)
           (take k (decorate_blocks rule ruleinfo n orig_name checkpoint))
      /\ Forall (keeps view)
           (drop (S k) (decorate_blocks rule ruleinfo n orig_name checkpoint))
      /\ forall st a st', b st = (Ok a, st') -> R n (before st) (view st')) ->
  forall st f st',
    decorate rule ruleinfo name orig_name checkpoint st = (Ok f, st') ->
    exists st1,
      the_ruleinfo st1 ruleinfo = accumulated st ruleinfo
      /\ wf st1 = wf st /\ rule_objs st1 = rule_objs st /\ dict_objs st1 = dict_objs st
      /\ R (final_name (accumulated st ruleinfo) name) (before st1) (view st').
Proof.
  intros Hw Hn Hblocks st f st'.
  destruct (apply_modifier_effect ruleinfo st) as (st1 & E1 & Hri & _ & Hcfg & Hrules & Hwf).
  unfold decorate. unfold bind at 1. rewrite E1. intros E.
  exists st1. split; [done|]. split; [done|]. split; [done|].
  split; [exact (f_equal (fun v => v.1.1.1.1.1) Hcfg)|].
  rewrite <- Hri. clear E1 Hri Hcfg Hrules Hwf st. revert E.
  unfold bind at 1.
  pose proof (Hw st1) as Hv2.
  pose proof (proj1 (keeps_view_start_directives rule ruleinfo name) st1) as Hd2.
  destruct (decorate_wildcard_constraints rule ruleinfo st1) as [[[]|e] st2]; [|done].
  simpl in Hv2, Hd2. unfold bind at 1.
  pose proof (Hn st2) as Hv3.
  destruct (decorate_name rule ruleinfo name st2) as [[n|e] st3] eqn:En; [|done].
  simpl in Hv3. apply decorate_name_result in En.
  unfold bind at 1.
  destruct (run_all (decorate_blocks rule ruleinfo n orig_name checkpoint) st3)
    as [[[]|e] st4] eqn:Er; [|done].
  unfold_M. intros [= _ <-].
  destruct (Hblocks n) as (b & Hb & Hpre & Hpost & HR).
  rewrite <- (take_drop_middle _ _ _ Hb) in Er.
  apply run_all_split in Er as (s1 & s2 & Epre & Eb & Epost).
  pose proof (keeps_result before _ _ _ _ (keeps_run_all before _ Hpre) Epre) as Hv4.
  pose proof (keeps_result view _ _ _ _ (keeps_run_all view _ Hpost) Epost) as Hv5.
  specialize (HR s1 tt s2 Eb).
  rewrite Hv4, Hv3, Hv2, <- Hv5 in HR.
  replace n with (final_name (the_ruleinfo st1 ruleinfo) name) in HR; [done|].
  rewrite En, <- (final_name_other_directives (the_ruleinfo st2 ruleinfo)).
  unfold view_directives in Hd2. by rewrite Hd2.
Qed.

End block_effect.

Lemma keeps_const {A V} (v : V) (m : M A) : keeps (fun _ => v) m.
Proof. done. Qed.

(** Takes [decorate_blocks] apart at a position and proves the frame
    conditions of [decorate_block]; the effect of the block is left. *)
Ltac block_at :=
  intros ?; eexists; split; [reflexivity|];
  split; [|split];
  [ cbv [decorate_blocks blocks_before_threads blocks_before_cache blocks_after_cache
         app take drop firstn skipn];
    repeat first [apply Forall_nil_2 | apply Forall_cons_2; [frame|]]
  | cbv [decorate_blocks blocks_before_threads blocks_before_cache blocks_after_cache
         app take drop firstn skipn];
    repeat first [apply Forall_nil_2 | apply Forall_cons_2; [frame|]]
  | ].

(** The same with blocks after position [k] that may let [view] grow along
    a preorder under which the effect is closed. *)
Section block_effect_le.

Variables (rule ruleinfo : addr) (orig_name : string) (checkpoint : bool).
Context {W V : Type} (before : Store -> W) (view : Store -> V) (le : V -> V -> Prop).
Hypothesis le_refl : forall v, le v v.
Hypothesis le_trans : forall u v w, le u v -> le v w -> le u w.

Lemma grows_of_keeps {A} (m : M A) : keeps view m -> grows view le m.
Proof. intros H st. rewrite H. apply le_refl. Qed.

Lemma grows_result {A} (m : M A) st r st' :
  grows view le m -> m st = (r, st') -> le (view st) (view st').
Proof. intros H E. specialize (H st). by rewrite E in H. Qed.

Lemma grows_run_all (ms : list (M unit)) :
  Forall (grows view le) ms -> grows view le (run_all ms).
Proof.
  induction 1 as [|m ms Hm _ IH]; intros st; simpl; [apply le_refl|].
  unfold bind. specialize (Hm st). destruct (m st) as [[[]|e] st1]; [|done].
  simpl in Hm. eapply le_trans; [exact Hm|apply IH].
Qed.

Lemma decorate_block_le (k : nat) (name : string) (R : string -> W -> V -> Prop) :
  (forall n w v v', R n w v -> le v v' -> R n w v') ->
  keeps before (decorate_wildcard_constraints rule ruleinfo) ->
  keeps before (decorate_name rule ruleinfo name) ->
  (forall n, exists b,
      decorate_blocks rule ruleinfo n orig_name checkpoint !! k = Some b
      /\ Forall (keeps before)
           (take k (decorate_blocks rule ruleinfo n orig_name checkpoint))
      /\ Forall (grows view le)
           (drop (S k) (decorate_blocks rule ruleinfo n orig_name checkpoint))
      /\ forall st a st', b st = (Ok a, st') -> R n (before st) (view st')) ->
  forall st f st',
    decorate rule ruleinfo name orig_name checkpoint st = (Ok f, st') ->
    exists st1,
      the_ruleinfo st1 ruleinfo = accumulated st ruleinfo
      /\ wf st1 = wf st /\ rule_objs st1 = rule_objs st /\ dict_objs st1 = dict_objs st
      /\ R (final_name (accumulated st ruleinfo) name) (before st1) (view st').
Proof.
  intros Hmono Hw Hn Hblocks st f st'.
  destruct (apply_modifier_effect ruleinfo st) as (st1 & E1 & Hri & _ & Hcfg & Hrules & Hwf).
  unfold decorate. unfold bind at 1. rewrite E1. intros E.
  exists st1. split; [done|]. split; [done|]. split; [done|].
  split; [exact (f_equal (fun v => v.1.1.1.1.1) Hcfg)|].
  rewrite <- Hri. clear E1 Hri Hcfg Hrules Hwf st. revert E.
  unfold bind at 1.
  pose proof (Hw st1) as Hv2.
  pose proof (proj1 (keeps_view_start_directives rule ruleinfo name) st1) as Hd2.
  destruct (decorate_wildcard_constraints rule ruleinfo st1) as [[[]|e] st2]; [|done].
  simpl in Hv2, Hd2. unfold bind at 1.
  pose proof (Hn st2) as Hv3.
  destruct (decorate_name rule ruleinfo name st2) as [[n|e] st3] eqn:En; [|done].
  simpl in Hv3. apply decorate_name_result in En.
  unfold bind at 1.
  destruct (run_all (decorate_blocks rule ruleinfo n orig_name checkpoint) st3)
    as [[[]|e] st4] eqn:Er; [|done].
  unfold_M. intros [= _ <-].
  destruct (Hblocks n) as (b & Hb & Hpre & Hpost & HR).
  rewrite <- (take_drop_middle _ _ _ Hb) in Er.
  apply run_all_split in Er as (s1 & s2 & Epre & Eb & Epost).
  pose proof (keeps_result before _ _ _ _ (keeps_run_all before _ Hpre) Epre) as Hv4.
  pose proof (grows_result _ _ _ _ (grows_run_all _ Hpost) Epost) as Hle.
  specialize (HR s1 tt s2 Eb).
  rewrite Hv4, Hv3, Hv2 in HR. apply (Hmono _ _ _ _ HR) in Hle.
  replace n with (final_name (the_ruleinfo st1 ruleinfo) name) in Hle; [done|].
  rewrite En, <- (final_name_other_directives (the_ruleinfo st2 ruleinfo)).
  unfold view_directives in Hd2. by rewrite Hd2.
Qed.

End block_effect_le.

(** ** Finalising a rule: the cache directive is recorded *)

(** Whenever [decorate_cache] returns with caching enabled and a truthy
    directive, the directive is in the cache map under the name of the rule.
    *)
Lemma decorate_cache_records (rule ruleinfo : addr) (st st' : Store) (a : unit) :
  decorate_cache rule ruleinfo st = (Ok a, st') ->
  enable_cache (wf st) = true ->
  truthy (ri_cache (the_ruleinfo st ruleinfo)) = true ->
  cache_rules (wf st') !! rule_name (the_rule st' rule)
  = Some (if is_True (ri_cache (the_ruleinfo st ruleinfo)) then PStr "all"
          else ri_cache (the_ruleinfo st ruleinfo)).
Proof.
  intros E Hen Hc. revert E. unfold decorate_cache. unfold_M.
  rewrite Hc. cbv beta iota.
  assert ((Ok tt,
           st <| wf ::= fun w =>
                   w <| cache_rules ::=
                          <[rule_name (the_rule st rule) :=
                              if is_True (ri_cache (the_ruleinfo st ruleinfo)) then PStr "all"
                              else ri_cache (the_ruleinfo st ruleinfo)]> |> |>)
          = (Ok a, st') ->
          cache_rules (wf st') !! rule_name (the_rule st' rule)
          = Some (if is_True (ri_cache (the_ruleinfo st ruleinfo)) then PStr "all"
                  else ri_cache (the_ruleinfo st ruleinfo))) as Hdone.
  { intros [= _ <-]. apply lookup_insert_eq. }
  destruct (1 <? length (rule_output (the_rule st rule)))%nat.
  - destruct (rule_output (the_rule st rule)) as [|o rest]; cbv beta iota.
    + rewrite Hen, cache_guard_always. cbv beta iota delta [negb]. exact Hdone.
    + destruct (is_multiext o); cbv beta iota delta [negb]; [|done].
      rewrite Hen, cache_guard_always. cbv beta iota delta [negb]. exact Hdone.
  - cbv beta iota. rewrite Hen, cache_guard_always. cbv beta iota delta [negb].
    exact Hdone.
Qed.

(** C9. The test that guards the rejection of a cache directive is true for
    every value of the directive, so that finalising a rule never raises the
    error for an invalid cache directive.  With caching enabled, a rule that
    is finalised with a truthy cache directive, whatever the value, has it
    afterwards in the cache map of the controller under its final name
    ([True] as ["all"], anything else as it is); and the block of [decorate]
    that handles the directive returns whenever the outputs pass the test on
    multiple outputs. *)
Theorem cache_directive_never_rejected :
  (forall cache : pyval,
     truthy (py_or (py_or (PBool (is_True cache)) (PStr "omit-software")) (PStr "all")) = true)
  /\ (forall rule ruleinfo name orig_name checkpoint st e st',
        decorate rule ruleinfo name orig_name checkpoint st = (Raise e, st') ->
        e <> WorkflowError "Invalid value for cache directive. Use True or 'omit-software'.")
  /\ (forall rule ruleinfo name orig_name checkpoint st f st',
        enable_cache (wf st) = true ->
        truthy (ri_cache (accumulated st ruleinfo)) = true ->
        decorate rule ruleinfo name orig_name checkpoint st = (Ok f, st') ->
        cache_rules (wf st') !! rule_name (the_rule st' rule)
        = Some (if is_True (ri_cache (accumulated st ruleinfo)) then PStr "all"
                else ri_cache (accumulated st ruleinfo)))
  /\ (forall rule ruleinfo st,
        enable_cache (wf st) = true ->
        truthy (ri_cache (the_ruleinfo st ruleinfo)) = true ->
        ((length (rule_output (the_rule st rule)) <= 1)%nat
         \/ exists o rest,
              rule_output (the_rule st rule) = o :: rest /\ is_multiext o = true) ->
        exists st',
          decorate_cache rule ruleinfo st = (Ok tt, st')
          /\ cache_rules (wf st') !! rule_name (the_rule st rule)
             = Some (if is_True (ri_cache (the_ruleinfo st ruleinfo)) then PStr "all"
                     else ri_cache (the_ruleinfo st ruleinfo))).
Proof.
  split; [exact cache_guard_always|]. split; [|split].
  - intros rule ruleinfo name orig_name checkpoint st e st' H.
    exact (decorate_not_invalid rule ruleinfo name orig_name checkpoint st e st' H).
  - intros rule ruleinfo name orig_name checkpoint st f st' Hen Hc E.
    destruct (decorate_block rule ruleinfo orig_name checkpoint
                (fun st => (view_directives ruleinfo st, enable_cache (wf st)))
                (fun st => (cache_rules (wf st), rule_name (the_rule st rule))) 21 name
                (fun _ w v =>
                   w.2 = true -> truthy (ri_cache w.1) = true ->
                   v.1 !! v.2 = Some (if is_True (ri_cache w.1) then PStr "all"
                                      else ri_cache w.1)))
      with st f st' as (st1 & Hri & Hwf & _ & _ & HR).
    + frame.
    + frame.
    + block_at.
      intros s a s' Es He Ht. cbn [fst snd] in *. unfold view_directives in *.
      change (ri_cache (other_directives (the_ruleinfo s ruleinfo)))
        with (ri_cache (the_ruleinfo s ruleinfo)) in *.
      by apply (decorate_cache_records rule ruleinfo s s' a).
    + done.
    + cbn [fst snd] in HR. unfold view_directives in HR. rewrite Hri, Hwf in HR.
      by apply HR.
  - intros rule ruleinfo st Hen Hc Hout. eexists. split.
    + by apply decorate_cache_enabled.
    + simpl. apply lookup_insert_eq.
Qed.

Lemma partial_true {A} P (m : M A) : partial P m (fun _ _ => True).
Proof. by intros st _ a st' _. Qed.

Lemma partial_run_all_app P Q R (ms ns : list (M unit)) :
  partial P (run_all ms) (fun _ => Q) -> partial Q (run_all ns) (fun _ => R) ->
  partial P (run_all (ms ++ ns)) (fun _ => R).
Proof.
  intros Hm Hn st HP a st'. rewrite run_all_app. revert st HP a st'.
  apply (partial_bind P _ (fun _ => Q)); [done|by intros _].
Qed.

Lemma partial_run_all_cons P Q R (m : M unit) (ms : list (M unit)) :
  partial P m (fun _ => Q) -> partial Q (run_all ms) (fun _ => R) ->
  partial P (run_all (m :: ms)) (fun _ => R).
Proof. intros Hm Hms. by apply (partial_bind P m (fun _ => Q)). Qed.

Section never_both.

Variables (rule ruleinfo : addr) (orig_name : string) (checkpoint : bool).

Lemma benchmark_cache_check :
  partial (fun _ => True) (decorate_benchmark_cache rule ruleinfo)
    (fun _ => not_both rule ruleinfo).
Proof.
  intros st _ a st'. unfold decorate_benchmark_cache, not_both. unfold_M.
  destruct (ri_benchmark (the_ruleinfo st ruleinfo)) as [io|] eqn:Eb;
    destruct (truthy (default PNone (get_cache_mode st rule))) eqn:E;
    simpl; intros; simplify_eq; auto.
Qed.

Lemma not_both_of_view st st' :
  view_benchmark_cache rule ruleinfo st' = view_benchmark_cache rule ruleinfo st ->
  not_both rule ruleinfo st -> not_both rule ruleinfo st'.
Proof. unfold view_benchmark_cache, not_both. intros [= -> ->]. done. Qed.

Lemma keeps_benchmark_cache_after :
  Forall (keeps (view_benchmark_cache rule ruleinfo))
    (blocks_after_cache rule ruleinfo orig_name checkpoint).
Proof. repeat constructor; frame. Qed.

Lemma decorate_blocks_split_check name :
  decorate_blocks rule ruleinfo name orig_name checkpoint
  = ((blocks_before_threads rule ruleinfo
      ++ decorate_threads rule ruleinfo name :: blocks_before_cache rule ruleinfo name
      ++ [decorate_cache rule ruleinfo])
     ++ decorate_benchmark_cache rule ruleinfo
        :: blocks_after_cache rule ruleinfo orig_name checkpoint)%list.
Proof.
  reflexivity.
Qed.

Lemma decorate_never_both name :
  partial (fun _ => True) (decorate rule ruleinfo name orig_name checkpoint)
    (fun _ => not_both rule ruleinfo).
Proof.
  unfold decorate.
  apply (partial_bind _ _ (fun _ _ => True)); [apply partial_true|intros _].
  apply (partial_bind _ _ (fun _ _ => True)); [apply partial_true|intros _].
  apply (partial_bind _ _ (fun _ _ => True)); [apply partial_true|intros name0].
  apply (partial_bind _ _ (fun _ => not_both rule ruleinfo)).
  - rewrite decorate_blocks_split_check.
    apply (partial_run_all_app _ (fun _ => True)); [apply partial_true|].
    apply (partial_run_all_cons _ (not_both rule ruleinfo));
      [apply benchmark_cache_check|].
    apply partial_run_all.
    eapply Forall_impl; [apply keeps_benchmark_cache_after|].
    intros m Hm. eapply partial_inv_of_keeps; [exact Hm|exact not_both_of_view].
  - intros _. eapply partial_inv_of_keeps; [|exact not_both_of_view]. frame.
Qed.

End never_both.

(** C4, as the code has it.  With caching enabled, a rule whose directives
    hold a benchmark and a truthy cache directive cannot be finalised:
    [decorate] raises.  And whenever [decorate] succeeds, whatever the
    directives and whether or not caching is enabled, the rule does not have
    a benchmark together with a truthy entry in the cache map. *)
Theorem benchmark_excludes_cache (rule ruleinfo : addr) (name orig_name : string)
    (checkpoint : bool) (st : Store) :
  (enable_cache (wf st) = true ->
   truthy (ri_cache (accumulated st ruleinfo)) = true ->
   is_Some (ri_benchmark (accumulated st ruleinfo)) ->
   exists e st', decorate rule ruleinfo name orig_name checkpoint st = (Raise e, st'))
  /\ (forall f st',
        decorate rule ruleinfo name orig_name checkpoint st = (Ok f, st') ->
        ri_benchmark (the_ruleinfo st' ruleinfo) = None
        \/ truthy (default PNone (get_cache_mode st' rule)) = false).
Proof.
  split.
  - apply benchmark_and_cache_fail.
  - intros f st' E.
    exact (decorate_never_both rule ruleinfo orig_name checkpoint name st I f st' E).
Qed.

(** ** Finalising a rule: several outputs and the cache directive *)





Lemma emits_from_emits {A} P Q (m : M A) : emits Q m -> emits_from P Q m.
Proof. intros H st _. apply H. Qed.





Section multiple_outputs.

Variables (rule ruleinfo : addr) (orig_name : string) (checkpoint : bool).




Let view := view_config_directives ruleinfo.












Ltac quiet := repeat emits_step.







End multiple_outputs.

(** ** Finalising a rule: the threads directive *)

#[local] Hint Unfold view_cores : views.

Lemma map_update_other (m : gmap string pyval) (e : odict pyval) (k : string) :
  od_get e k = None -> map_update m e !! k = m !! k.
Proof.
  unfold map_update. revert m. induction e as [|[k' v] e IH]; intros m; simpl; [done|].
  destruct (String.eqb_spec k k') as [->|Hne]; [done|].
  intros H. rewrite IH by done. by rewrite lookup_insert_ne.
Qed.

Lemma raises_only_False {A} (m : M A) :
  raises_only (fun _ => False) m -> forall st, exists a st', m st = (Ok a, st').
Proof.
  intros H st. destruct (m st) as [[a|e] st'] eqn:E; [by eauto|].
  destruct (H st e st' E).
Qed.

Lemma total_of_keeps {A V} (view : Store -> V) (I : Store -> Prop) (m : M A) :
  raises_only (fun _ => False) m -> keeps view m ->
  (forall st st', view st' = view st -> I st -> I st') ->
  total I m (fun _ => I).
Proof.
  intros Hr Hk HI st Hst. destruct (raises_only_False m Hr st) as (a & st' & E).
  exists a, st'. split; [done|]. apply (HI st); [|done].
  specialize (Hk st). by rewrite E in Hk.
Qed.

Lemma total_run_all I (ms : list (M unit)) :
  Forall (fun m => total I m (fun _ => I)) ms -> total I (run_all ms) (fun _ => I).
Proof.
  induction 1 as [|m ms Hm _ IH]; simpl.
  - intros st Hst. by exists tt, st.
  - by apply (total_bind I m (fun _ => I)).
Qed.

Lemma raises_after_total {A B} P (m : M A) Q (k : A -> M B) (e : exn) :
  total P m Q ->
  (forall a st, Q a st -> exists st', k a st = (Raise e, st')) ->
  forall st, P st -> exists st', bind m k st = (Raise e, st').
Proof.
  intros Hm Hk st HP. destruct (Hm st HP) as (a & st1 & E & HQ).
  unfold bind. rewrite E. by apply Hk.
Qed.

Section threads.

Variables (rule ruleinfo : addr) (orig_name : string) (checkpoint : bool).

Ltac never := repeat raises_step.

(** The directive at [ruleinfo] is [v] and the rule is registered under
    [name]. *)
Let ready (v : pyval) (name : string) (st : Store) : Prop :=
  view_threads ruleinfo st = v /\ is_rule (wf st) name = true.

Lemma wildcard_constraints_total v name :
  total (ready v name) (decorate_wildcard_constraints rule ruleinfo)
    (fun _ => ready v name).
Proof.
  apply (total_of_keeps (fun st => (view_threads ruleinfo st, wf st))).
  - never.
  - apply keeps_pair; frame.
  - unfold ready. intros st st' [= -> ->]. done.
Qed.

Lemma decorate_name_total v name :
  total (ready v name) (decorate_name rule ruleinfo name)
    (fun _ st => view_threads ruleinfo st = v).
Proof.
  intros st [Hv Hr]. unfold decorate_name. unfold_M.
  destruct (ri_name (the_ruleinfo st ruleinfo)) as [n|]; [|by eauto].
  destruct (negb (String.eqb n EmptyString)); [|by eauto].
  simpl. rewrite Hr. simpl. eauto.
Qed.

Lemma before_threads_total v :
  total (fun st => view_threads ruleinfo st = v)
    (run_all (blocks_before_threads rule ruleinfo))
    (fun _ st => view_threads ruleinfo st = v).
Proof.
  apply total_run_all. unfold blocks_before_threads.
  repeat first
    [ apply Forall_nil_2
    | apply Forall_cons_2;
      [cbv beta; apply (total_of_keeps (view_threads ruleinfo));
       [never|frame|congruence]|] ].
Qed.

Lemma threads_rejects v name (rest : M unit) st :
  view_threads ruleinfo st = v ->
  v <> PNone -> isinstance_int v = false -> isinstance_float v = false ->
  callable v = false ->
  exists st', (decorate_threads rule ruleinfo name ;; rest) st = (Raise threads_error, st').
Proof.
  unfold view_threads. intros Hv Hnone Hi Hf Hc.
  unfold decorate_threads. unfold_M. rewrite Hv, Hi, Hf, Hc.
  destruct v; try done; simpl; eauto.
Qed.

Lemma invalid_threads_fail v name st :
  ri_threads (accumulated st ruleinfo) = v ->
  is_rule (wf st) name = true ->
  v <> PNone -> isinstance_int v = false -> isinstance_float v = false ->
  callable v = false ->
  exists st', decorate rule ruleinfo name orig_name checkpoint st = (Raise threads_error, st').
Proof.
  intros Hv Hr Hnone Hi Hf Hc.
  destruct (apply_modifier_effect ruleinfo st) as (st1 & E1 & Hri & _ & _ & _ & Hwf).
  unfold decorate. unfold bind at 1. rewrite E1.
  assert (ready v name st1) as H1.
  { unfold ready, view_threads. by rewrite Hri, Hwf. }
  revert H1. generalize st1. clear E1 Hri Hwf st1.
  eapply raises_after_total; [apply wildcard_constraints_total|].
  intros ?; cbv beta. eapply raises_after_total; [apply decorate_name_total|].
  intros name0 st2 H2. cbv beta in H2.
  unfold bind at 1. unfold decorate_blocks. rewrite run_all_app.
  revert st2 H2. change (forall st2, view_threads ruleinfo st2 = v ->
    exists st', match (run_all (blocks_before_threads rule ruleinfo) ;;
                       run_all (decorate_threads rule ruleinfo name0
                         :: (blocks_before_cache rule ruleinfo name0
                             ++ decorate_cache rule ruleinfo
                             :: decorate_benchmark_cache rule ruleinfo
                             :: blocks_after_cache rule ruleinfo orig_name checkpoint)))
                      st2 with
                | (Ok a, st') => (fun _ => ri <- get_ruleinfo ruleinfo ;; ret (ri_func ri)) a st'
                | (Raise e, st') => (Raise e, st')
                end = (Raise threads_error, st')).
  intros st2 H2.
  destruct (raises_after_total _ _ _
              (fun _ => run_all (decorate_threads rule ruleinfo name0
                         :: (blocks_before_cache rule ruleinfo name0
                             ++ decorate_cache rule ruleinfo
                             :: decorate_benchmark_cache rule ruleinfo
                             :: blocks_after_cache rule ruleinfo orig_name checkpoint)))
              threads_error (before_threads_total v)) with st2 as [st' E']; [|done|].
  - intros _ st3 H3. by apply (threads_rejects v).
  - exists st'. by rewrite E'.
Qed.

End threads.

Section threads_float.

Variables (rule ruleinfo : addr) (orig_name : string) (checkpoint : bool).

(** The store after the merge of the directives. *)
Variables (st1 : Store) (name : string) (z : Z).

Let view := view_config_directives ruleinfo.

Hypothesis Hsole : cores_from_threads st1 (the_ruleinfo st1 ruleinfo) name.

Let before (st : Store) : Prop :=
  view st = view st1 /\ view_threads ruleinfo st = view_threads ruleinfo st1.

Let after (st : Store) : Prop :=
  view st = view st1 /\ view_cores rule st = Some (PInt z)
  /\ view_threads ruleinfo st = PInt z.

Lemma before_of_views st st' :
  (view st', view_threads ruleinfo st') = (view st, view_threads ruleinfo st) ->
  before st -> before st'.
Proof.
  unfold before. intros H [H1 H2].
  pose proof (f_equal fst H) as Hv. pose proof (f_equal snd H) as Ho. simpl in *.
  by rewrite Hv, Ho.
Qed.

Lemma after_of_views st st' :
  (view st', (view_cores rule st', view_threads ruleinfo st'))
  = (view st, (view_cores rule st, view_threads ruleinfo st)) ->
  after st -> after st'.
Proof.
  unfold after. intros H (H1 & H2 & H3).
  pose proof (f_equal fst H) as Hv.
  pose proof (f_equal (fun v => fst (snd v)) H) as Hc.
  pose proof (f_equal (fun v => snd (snd v)) H) as Ht. simpl in *.
  by rewrite Hv, Hc, Ht.
Qed.

Lemma keeps_before {A} (m : M A) :
  keeps view_config m -> keeps (view_directives ruleinfo) m ->
  keeps (view_threads ruleinfo) m ->
  partial before m (fun _ => before).
Proof.
  intros. eapply partial_inv_of_keeps; [|apply before_of_views].
  apply keeps_pair; [by apply (keeps_pair view_config (view_directives ruleinfo))|done].
Qed.

Lemma keeps_after {A} (m : M A) :
  keeps view_config m -> keeps (view_directives ruleinfo) m ->
  keeps (view_cores rule) m -> keeps (view_threads ruleinfo) m ->
  partial after m (fun _ => after).
Proof.
  intros. eapply partial_inv_of_keeps; [|apply after_of_views].
  apply keeps_pair; [by apply (keeps_pair view_config (view_directives ruleinfo))|].
  by apply keeps_pair.
Qed.

Lemma view_facts st :
  view st = view st1 ->
  dict_objs st = dict_objs st1
  /\ overwrite_threads (wf st) = overwrite_threads (wf st1)
  /\ overwrite_resources (wf st) = overwrite_resources (wf st1)
  /\ ri_resources (the_ruleinfo st ruleinfo) = ri_resources (the_ruleinfo st1 ruleinfo)
  /\ ri_handover (the_ruleinfo st ruleinfo) = ri_handover (the_ruleinfo st1 ruleinfo)
  /\ ri_name (the_ruleinfo st ruleinfo) = ri_name (the_ruleinfo st1 ruleinfo).
Proof.
  intros H.
  pose proof (f_equal (fun v => fst (fst (fst (fst (fst (fst v)))))) H) as H1.
  pose proof (f_equal (fun v => snd (fst (fst (fst v)))) H) as H2.
  pose proof (f_equal (fun v => snd (fst (fst v))) H) as H3.
  pose proof (f_equal (fun v => ri_resources (snd v)) H) as H4.
  pose proof (f_equal (fun v => ri_handover (snd v)) H) as H5.
  pose proof (f_equal (fun v => ri_name (snd v)) H) as H6.
  done.
Qed.

Lemma decorate_name_final n0 :
  partial before (decorate_name rule ruleinfo n0)
    (fun n st => before st /\ n = final_name (the_ruleinfo st1 ruleinfo) n0).
Proof.
  apply partial_conj.
  - apply keeps_before; frame.
  - intros st [Hv _] n st'. apply view_facts in Hv as (_ & _ & _ & _ & _ & Hn).
    unfold decorate_name, final_name. unfold_M. rewrite Hn.
    destruct (ri_name (the_ruleinfo st1 ruleinfo)) as [n1|]; [|by intros [= <- _]].
    destruct (negb (String.eqb n1 EmptyString)); [|by intros [= <- _]].
    simpl. destruct (is_rule (wf st) n0); simpl; [|done].
    intros [= <- _]. unfold the_rule. simpl. by rewrite lookup_total_insert_eq.
Qed.

Lemma keeps_view_threads_block :
  keeps view (decorate_threads rule ruleinfo name).
Proof. apply (keeps_pair view_config (view_directives ruleinfo)); frame. Qed.

Lemma threads_sets_cores f :
  view_threads ruleinfo st1 = PFloat f -> int_of_float f = inr z ->
  partial before (decorate_threads rule ruleinfo name) (fun _ => after).
Proof.
  intros Hf Hz st [Hv Ht] a st' E.
  pose proof (keeps_view_threads_block st) as Hk. rewrite E in Hk. simpl in Hk.
  destruct Hsole as (Hot & _). rewrite Hf in Ht. unfold view_threads in Ht.
  pose proof (view_facts st Hv) as (_ & Hot' & _).
  revert E. unfold decorate_threads. unfold_M. rewrite Ht. simpl.
  rewrite Hot', Hot, Hz. intros [= _ <-].
  unfold after. split; [|split].
  - by rewrite <- Hv.
  - unfold view_cores, the_rule, the_ruleinfo. simpl.
    rewrite !lookup_total_insert_eq. simpl. by rewrite lookup_insert_eq.
  - unfold view_threads, the_ruleinfo. simpl. by rewrite lookup_total_insert_eq.
Qed.

Lemma resources_keep_cores :
  partial after (decorate_resources rule ruleinfo) (fun _ => after).
Proof.
  apply partial_conj; [|apply partial_conj].
  - eapply partial_weaken; [apply (partial_keeps view (decorate_resources rule ruleinfo))| |].
    + apply (keeps_pair view_config (view_directives ruleinfo)); frame.
    + intros st H. apply H.
    + done.
  - intros st (Hv & Hc & _) a st'.
    destruct Hsole as (_ & Hres & _).
    pose proof (view_facts st Hv) as (Hd & _ & _ & Hr & _).
    unfold decorate_resources. unfold_M. rewrite Hr.
    destruct (ri_resources (the_ruleinfo st1 ruleinfo)) as [[args kw]|];
      [|by intros [= _ <-]].
    assert (the_dict st kw = the_dict st1 kw) as Hkw
      by (unfold the_dict; by rewrite Hd).
    destruct args; [|done]. cbv beta iota. rewrite Hkw.
    destruct (forallb _ _); [|done]. simpl. intros [= _ <-].
    unfold view_cores, the_rule in *. simpl.
    rewrite lookup_total_insert_eq. simpl. by rewrite map_update_other.
  - eapply partial_weaken;
      [apply (partial_keeps (view_threads ruleinfo) (decorate_resources rule ruleinfo))| |].
    + frame.
    + intros st H. apply H.
    + done.
Qed.


Lemma overwrite_resources_keep_cores :
  partial after (decorate_overwrite_resources rule name) (fun _ => after).
Proof.
  intros st (Hv & Hc & Ht) a st' E.
  assert (keeps (fun st => (view st, view_threads ruleinfo st))
            (decorate_overwrite_resources rule name)) as Hk.
  { apply keeps_pair;
      [apply (keeps_pair view_config (view_directives ruleinfo))|]; frame. }
  specialize (Hk st). rewrite E in Hk. simpl in Hk.
  pose proof (f_equal fst Hk) as Hk1. pose proof (f_equal snd Hk) as Hk2. simpl in *.
  unfold after. rewrite Hk1, Hk2. split; [done|]. split; [|done].
  destruct Hsole as (_ & _ & Hres & _).
  pose proof (view_facts st Hv) as (_ & _ & Hor & _).
  revert E. unfold decorate_overwrite_resources. unfold_M. rewrite Hor.
  destruct (overwrite_resources (wf st1) !! name) as [res|]; [|by intros [= _ <-]].
  intros [= _ <-]. unfold view_cores, the_rule in *. simpl.
  rewrite lookup_total_insert_eq. simpl. by rewrite map_update_other.
Qed.

Lemma handover_keep_cores :
  partial after (decorate_handover rule ruleinfo) (fun _ => after).
Proof.
  intros st (Hv & Hc & Ht) a st' E.
  assert (keeps (fun st => (view st, view_threads ruleinfo st))
            (decorate_handover rule ruleinfo)) as Hk.
  { apply keeps_pair;
      [apply (keeps_pair view_config (view_directives ruleinfo))|]; frame. }
  specialize (Hk st). rewrite E in Hk. simpl in Hk.
  pose proof (f_equal fst Hk) as Hk1. pose proof (f_equal snd Hk) as Hk2. simpl in *.
  unfold after. rewrite Hk1, Hk2. split; [done|]. split; [|done].
  destruct Hsole as (_ & _ & _ & Hho).
  pose proof (view_facts st Hv) as (_ & _ & _ & Hr & Hh & _).
  revert E. unfold decorate_handover. unfold_M. rewrite Hh, Hr.
  destruct Hho as [->|[x ->]]; simpl.
  - by intros [= _ <-].
  - destruct (truthy (ri_handover (the_ruleinfo st1 ruleinfo))); simpl.
    + intros [= _ <-]. unfold view_cores, the_rule in *. simpl.
      by rewrite lookup_total_insert_eq.
    + by intros [= _ <-].
Qed.

Lemma before_cache_keep_cores :
  Forall (fun m => partial after m (fun _ => after))
    (blocks_before_cache rule ruleinfo name).
Proof.
  unfold blocks_before_cache.
  repeat first
    [ apply Forall_nil_2
    | apply Forall_cons_2;
      [cbv beta;
       first [ apply resources_keep_cores
             | apply overwrite_resources_keep_cores
             | apply handover_keep_cores
             | apply keeps_after; frame ]|] ].
Qed.

Lemma after_cache_keep_cores :
  Forall (fun m => partial after m (fun _ => after))
    (decorate_cache rule ruleinfo :: decorate_benchmark_cache rule ruleinfo
     :: blocks_after_cache rule ruleinfo orig_name checkpoint).
Proof.
  unfold blocks_after_cache.
  repeat first
    [ apply Forall_nil_2
    | apply Forall_cons_2; [cbv beta; apply keeps_after; frame|] ].
Qed.

Lemma before_threads_keep :
  Forall (fun m => partial before m (fun _ => before))
    (blocks_before_threads rule ruleinfo).
Proof.
  unfold blocks_before_threads.
  repeat first
    [ apply Forall_nil_2
    | apply Forall_cons_2; [cbv beta; apply keeps_before; frame|] ].
Qed.

Lemma blocks_set_cores f :
  view_threads ruleinfo st1 = PFloat f -> int_of_float f = inr z ->
  partial before (run_all (decorate_blocks rule ruleinfo name orig_name checkpoint))
    (fun _ => after).
Proof.
  intros Hf Hz. unfold decorate_blocks.
  apply (partial_run_all_app _ before); [apply partial_run_all, before_threads_keep|].
  apply (partial_run_all_cons _ after); [by apply (threads_sets_cores f)|].
  apply partial_run_all. apply Forall_app. split.
  - apply before_cache_keep_cores.
  - apply after_cache_keep_cores.
Qed.


Lemma decorate_merged_sets_cores n0 f fn st' :
  name = final_name (the_ruleinfo st1 ruleinfo) n0 ->
  view_threads ruleinfo st1 = PFloat f -> int_of_float f = inr z ->
  (decorate_wildcard_constraints rule ruleinfo ;;
   n <- decorate_name rule ruleinfo n0 ;;
   run_all (decorate_blocks rule ruleinfo n orig_name checkpoint) ;;
   ri <- get_ruleinfo ruleinfo ;; ret (ri_func ri)) st1 = (Ok fn, st') ->
  rule_resources (the_rule st' rule) !! "_cores" = Some (PInt z)
  /\ ri_threads (the_ruleinfo st' ruleinfo) = PInt z.
Proof.
  intros Hn Hf Hz E.
  assert (partial before
    (decorate_wildcard_constraints rule ruleinfo ;;
     n <- decorate_name rule ruleinfo n0 ;;
     run_all (decorate_blocks rule ruleinfo n orig_name checkpoint) ;;
     ri <- get_ruleinfo ruleinfo ;; ret (ri_func ri)) (fun _ => after)) as H.
  { apply (partial_bind _ _ (fun _ => before)); [apply keeps_before; frame|intros ?].
    eapply partial_bind; [apply (decorate_name_final n0)|intros n].
    intros st [Hb Heq]. rewrite <- Hn in Heq. subst n. revert st Hb.
    apply (partial_bind _ _ (fun _ => after)); [by apply (blocks_set_cores f)|intros ?].
    apply keeps_after; frame. }
  destruct (H st1 (conj eq_refl eq_refl) fn st' E) as (_ & Hc & Ht). done.
Qed.

End threads_float.

(** C7, as the code has it.  A float given as threads is truncated toward
    zero ([3.9] becomes [3]) and, when nothing else decides the cores of the
    rule (no override of its threads or of [_cores] on the command line, no
    [_cores] among its resources, no handover of the whole pool), a rule that
    is finalised has that integer as its [_cores] resource.  A threads value
    other than [None] that is neither an integer (booleans count as
    integers), nor a float, nor callable makes the finalisation of a
    registered rule raise [RuleException]. *)
Theorem threads_directive (rule ruleinfo : addr) (name orig_name : string)
    (checkpoint : bool) (st : Store) :
  int_of_float float_3_9 = inr 3
  /\ (forall f z fn st',
        ri_threads (accumulated st ruleinfo) = PFloat f ->
        int_of_float f = inr z ->
        cores_from_threads st (accumulated st ruleinfo)
          (final_name (accumulated st ruleinfo) name) ->
        decorate rule ruleinfo name orig_name checkpoint st = (Ok fn, st') ->
        rule_resources (the_rule st' rule) !! "_cores" = Some (PInt z)
        /\ ri_threads (the_ruleinfo st' ruleinfo) = PInt z)
  /\ (forall v,
        ri_threads (accumulated st ruleinfo) = v ->
        is_rule (wf st) name = true ->
        v <> PNone -> isinstance_int v = false -> isinstance_float v = false ->
        callable v = false ->
        exists st',
          decorate rule ruleinfo name orig_name checkpoint st
          = (Raise (RuleException "Threads value has to be an integer, float, or a callable."),
             st')).
Proof.
  split; [reflexivity|]. split.
  - intros f z fn st' Hf Hz Hsole. 
    destruct (apply_modifier_effect ruleinfo st) as (st1 & E1 & Hri & _ & Hcfg & _ & Hwf).
    unfold decorate. unfold bind at 1. rewrite E1. intros E.
    rewrite <- Hri in Hf, Hsole.
    assert (cores_from_threads st1 (the_ruleinfo st1 ruleinfo)
              (final_name (the_ruleinfo st1 ruleinfo) name)) as Hsole1.
    { unfold cores_from_threads, the_dict in *. rewrite Hwf.
      by injection Hcfg as ->. }
    exact (decorate_merged_sets_cores rule ruleinfo orig_name checkpoint st1 _ z
             Hsole1 name f fn st' eq_refl Hf Hz E).
  - intros v. apply invalid_threads_fail.
Qed.

(** ** The run: sub-workflows and the definition namespace *)

Section subworkflows.

Variable subsnakemake :
  Subworkflow -> list string -> gmap string pyval ->
  bool * list string * gmap string pyval.
Variable c : Collaborators.
Variable a : ExecArgs.

Lemma keeps_wf_run_subsnakemake sw targets :
  keeps (fun st => wf st) (run_subsnakemake subsnakemake sw targets).
Proof.
  intros st. unfold run_subsnakemake. unfold_M.
  by destruct (subsnakemake sw targets _) as [[ok updated] ns'].
Qed.

Lemma keeps_wf_loop sws :
  keeps (fun st => wf st) (execute_subworkflow_loop subsnakemake c sws).
Proof.
  induction sws as [|sw sws IH]; simpl; [done|].
  apply keeps_bind; [frame|intros _].
  destruct (subworkflow_targets c sw).
  - apply keeps_bind; [frame|by intros _].
  - apply keeps_bind; [frame|intros _].
    apply keeps_bind; [apply keeps_wf_run_subsnakemake|intros ok].
    destruct ok; simpl; [|done].
    apply keeps_bind; [frame|by intros _].
Qed.

(** C3, as the code has it.  When the block that runs the sub-workflows
    ends without a failed nested run, every name that the definition
    namespace bound before the block is bound to the same value after it;
    the namespace may hold more names than before. *)
Theorem globals_rescued (st st' : Store) (k : string) (v : pyval) :
  execute_subworkflows_block subsnakemake c a st = (Ok None, st') ->
  the_namespace st (mod_globals (modifier_top (wf st))) !! k = Some v ->
  the_namespace st' (mod_globals (modifier_top (wf st))) !! k = Some v.
Proof.
  unfold execute_subworkflows_block. unfold_M.
  destruct (_ && _ && _ && _ && _); [|by intros [= <-]].
  pose proof (keeps_wf_loop (od_values (_subworkflows (wf st))) st) as Hwf.
  destruct (execute_subworkflow_loop _ _ _ st) as [[[b|]|e] st2]; simpl in Hwf;
    [done| |done].
  destruct (_subworkflows (wf st)) as [|sw sws]; simpl.
  - intros [= <-] Hk. unfold the_namespace in *. simpl. rewrite Hwf.
    rewrite lookup_insert_eq. simpl. by apply lookup_union_Some_l.
  - intros [= <-] Hk. unfold the_namespace in *. simpl. rewrite Hwf.
    rewrite lookup_insert_eq. simpl. by apply lookup_union_Some_l.
Qed.

End subworkflows.

(** ** The run: immediate submit and checkpoints *)

Lemma unscheduled_ret {A} (x : A) : unscheduled (ret x).
Proof. intros st. split; [done|]. exists []. by rewrite app_nil_r. Qed.

Lemma unscheduled_raise {A} (e : exn) : unscheduled (@raise A e).
Proof. intros st. split; [done|]. exists []. by rewrite app_nil_r. Qed.

Lemma unscheduled_gets {A} (f : Store -> A) : unscheduled (gets f).
Proof. intros st. split; [done|]. exists []. by rewrite app_nil_r. Qed.

Lemma unscheduled_emit (e : event) : ~ scheduler_event e -> unscheduled (emit e).
Proof. intros He st. split; [done|]. exists [e]. split; [done|]. by constructor. Qed.

Lemma unscheduled_bind {A B} (m : M A) (k : A -> M B) :
  unscheduled m -> (forall x, unscheduled (k x)) -> unscheduled (bind m k).
Proof.
  intros Hm Hk st. unfold bind. destruct (Hm st) as (Hw & evs & Ht & Hevs).
  destruct (m st) as [[x|e] st1]; simpl in *; [|by eauto].
  destruct (Hk x st1) as (Hw' & evs' & Ht' & Hevs').
  split; [congruence|]. exists (evs ++ evs')%list.
  rewrite Ht', Ht, app_assoc. split; [done|]. by apply Forall_app.
Qed.

Lemma unscheduled_when (b : bool) (m : M unit) : unscheduled m -> unscheduled (when b m).
Proof. destruct b; [done|]. intros _. apply unscheduled_ret. Qed.

Lemma unscheduled_modify_namespaces f :
  unscheduled (modify (fun st => st <| namespaces ::= f st |>)).
Proof. intros st. split; [done|]. exists []. by rewrite app_nil_r. Qed.

Ltac unscheduled_step :=
  lazymatch goal with
  | |- unscheduled (bind _ _) => apply unscheduled_bind; [|intros ?]
  | |- unscheduled (when _ _) => apply unscheduled_when
  | |- unscheduled (ret _) => apply unscheduled_ret
  | |- unscheduled (raise _) => apply unscheduled_raise
  | |- unscheduled (gets _) => apply unscheduled_gets
  | |- unscheduled (emit _) =>
      apply unscheduled_emit; unfold scheduler_event; intros [?|?]; discriminate
  | |- unscheduled (if ?c then _ else _) => destruct c
  | |- unscheduled (match ?x with _ => _ end) => destruct x
  | |- unscheduled ?m => let h := head_of m in unfold h
  end.

Section immediate_submit.

Variable subsnakemake :
  Subworkflow -> list string -> gmap string pyval ->
  bool * list string * gmap string pyval.
Variable c : Collaborators.
Variable a : ExecArgs.

Lemma unscheduled_run_subsnakemake sw targets :
  unscheduled (run_subsnakemake subsnakemake sw targets).
Proof.
  unfold run_subsnakemake.
  apply unscheduled_bind; [repeat unscheduled_step|intros g].
  apply unscheduled_bind; [repeat unscheduled_step|intros ns].
  destruct (subsnakemake sw targets ns) as [[ok updated] ns'].
  apply unscheduled_bind; [|intros; apply unscheduled_ret].
  apply (unscheduled_modify_namespaces (fun _ => <[g := ns']>)).
Qed.

Lemma unscheduled_loop sws : unscheduled (execute_subworkflow_loop subsnakemake c sws).
Proof.
  induction sws as [|sw sws IH]; simpl; [apply unscheduled_ret|].
  apply unscheduled_bind; [repeat unscheduled_step|intros _].
  destruct (subworkflow_targets c sw).
  - apply unscheduled_bind; [repeat unscheduled_step|by intros _].
  - apply unscheduled_bind; [repeat unscheduled_step|intros _].
    apply unscheduled_bind; [apply unscheduled_run_subsnakemake|intros ok].
    destruct ok; simpl; [|apply unscheduled_ret].
    apply unscheduled_bind; [repeat unscheduled_step|by intros _].
Qed.

Lemma unscheduled_subworkflows_block :
  unscheduled (execute_subworkflows_block subsnakemake c a).
Proof.
  unfold execute_subworkflows_block.
  apply unscheduled_bind; [repeat unscheduled_step|intros w].
  destruct (_ && _ && _ && _ && _); [|apply unscheduled_ret].
  apply unscheduled_bind; [repeat unscheduled_step|intros g].
  apply unscheduled_bind; [repeat unscheduled_step|intros backup].
  apply unscheduled_bind; [apply unscheduled_loop|intros [b|]]; [apply unscheduled_ret|].
  apply unscheduled_bind; [repeat unscheduled_step|intros _].
  apply unscheduled_bind; [repeat unscheduled_step|intros g'].
  apply unscheduled_bind; [|intros; apply unscheduled_ret].
  apply (unscheduled_modify_namespaces
           (fun _ h => <[g' := backup ∪ default ∅ (h !! g')]> h)).
Qed.


(** Started in immediate-submit mode, [m] hands nothing to the scheduler. *)
Let stops (m : M bool) : Prop :=
  forall st, _immediate_submit (wf st) = true ->
    scheduler (wf (snd (m st))) = scheduler (wf st)
    /\ exists evs, trace (snd (m st)) = (trace st ++ evs)%list
                  /\ Forall (fun e => ~ scheduler_event e) evs.

Lemma stops_bind {A} (m : M A) (k : A -> M bool) :
  unscheduled m -> (forall x, stops (k x)) -> stops (bind m k).
Proof.
  intros Hm Hk st Hi. unfold bind. destruct (Hm st) as (Hw & evs & Ht & Hevs).
  destruct (m st) as [[x|e] st1]; simpl in *; [|rewrite Hw; by eauto].
  destruct (Hk x st1) as (Hs & evs' & Ht' & Hevs'); [by rewrite Hw|].
  rewrite Hs, Hw. split; [done|]. exists (evs ++ evs')%list.
  rewrite Ht', Ht, app_assoc. split; [done|]. by apply Forall_app.
Qed.

Lemma stops_ret b : stops (ret b).
Proof. intros st _. split; [done|]. exists []. by rewrite app_nil_r. Qed.

Lemma stops_or_return (m : M (option bool)) (k : M bool) :
  unscheduled m -> stops k -> stops (m then_ k).
Proof.
  intros Hm Hk. unfold or_return. apply stops_bind; [done|].
  intros [b|]; [apply stops_ret|done].
Qed.

Hypothesis Hcheckpoints : checkpoint_jobs c <> [].

Lemma stops_immediate_submit (k : M bool) : stops (execute_immediate_submit c then_ k).
Proof.
  intros st Hi. unfold or_return, execute_immediate_submit. unfold_M.
  rewrite Hi. destruct (checkpoint_jobs c); [done|]. simpl.
  split; [done|]. eexists. split; [done|].
  constructor; [|done]. intros [?|?]; discriminate.
Qed.

Lemma execute_stops : stops (execute subsnakemake c a).
Proof.
  unfold execute.
  apply stops_bind; [repeat unscheduled_step|intros _].
  apply stops_or_return; [repeat unscheduled_step|].
  apply stops_or_return; [repeat unscheduled_step|].
  apply stops_or_return; [repeat unscheduled_step|].
  apply stops_or_return; [repeat unscheduled_step|].
  apply stops_or_return; [repeat unscheduled_step|].
  apply stops_or_return; [repeat unscheduled_step|].
  apply stops_or_return; [repeat unscheduled_step|].
  apply stops_or_return; [apply unscheduled_subworkflows_block|].
  apply stops_or_return; [repeat unscheduled_step|].
  apply stops_or_return; [repeat unscheduled_step|].
  apply stops_immediate_submit.
Qed.


(** A statement that does not end the run with success. *)
Let never_true (m : M (option bool)) : Prop :=
  forall st, fst (m st) <> Ok (Some true).

Let unsuccessful (m : M bool) : Prop :=
  forall st, _immediate_submit (wf st) = true -> fst (m st) <> Ok true.

Lemma unsuccessful_or_return (m : M (option bool)) (k : M bool) :
  unscheduled m -> never_true m -> unsuccessful k -> unsuccessful (m then_ k).
Proof.
  intros Hq Hm Hk st Hi. unfold or_return, bind.
  specialize (Hm st). destruct (Hq st) as (Hw & _).
  destruct (m st) as [ [ [ [ | ] | ] | e ] st1 ]; simpl in *; try done.
  apply Hk. by rewrite Hw.
Qed.

Lemma never_true_do (m : M unit) : never_true (do m).
Proof.
  intros st. unfold do, bind. by destruct (m st) as [[[]|e] st1].
Qed.

Lemma never_true_loop sws : never_true (execute_subworkflow_loop subsnakemake c sws).
Proof.
  induction sws as [|sw sws IH]; intros st; simpl; [done|].
  unfold_M. destruct (subworkflow_targets c sw); simpl; [apply IH|].
  destruct (run_subsnakemake _ _ _ _) as [[[]|e] st1]; simpl; [apply IH|done|done].
Qed.

Lemma never_true_subworkflows_block :
  never_true (execute_subworkflows_block subsnakemake c a).
Proof.
  intros st. unfold execute_subworkflows_block. unfold_M.
  destruct (_ && _ && _ && _ && _); [|done].
  pose proof (never_true_loop (od_values (_subworkflows (wf st))) st) as H.
  destruct (execute_subworkflow_loop _ _ _ st) as [ [ [ [ | ] | ] | e ] st1 ]; simpl in *; try done.
  by destruct (_subworkflows (wf st)).
Qed.

Hypothesis Hmetadata : cleanup_metadata a = [].
Hypothesis Hunlock : unlock a = false.
Hypothesis Hshadow : cleanup_shadow a = false.
Hypothesis Hcontainerize : containerize a = false.

Lemma unsuccessful_bind {A} (m : M A) (k : A -> M bool) :
  unscheduled m -> (forall x, unsuccessful (k x)) -> unsuccessful (bind m k).
Proof.
  intros Hq Hk st Hi. unfold bind. destruct (Hq st) as (Hw & _).
  destruct (m st) as [[x|e] st1]; simpl in *; [|done].
  apply Hk. by rewrite Hw.
Qed.

Lemma unsuccessful_immediate_submit (k : M bool) :
  unsuccessful (execute_immediate_submit c then_ k).
Proof.
  intros st Hi. unfold or_return, execute_immediate_submit. unfold_M.
  rewrite Hi. by destruct (checkpoint_jobs c).
Qed.

Ltac never_true_step :=
  intros st; unfold execute_cleanup_metadata, execute_unlock, execute_nodeps;
  unfold_M;
  rewrite ?Hmetadata, ?Hunlock, ?Hshadow, ?Hcontainerize;
  repeat case_match; simpl; congruence.

Lemma execute_unsuccessful : unsuccessful (execute subsnakemake c a).
Proof.
  unfold execute.
  apply unsuccessful_bind; [repeat unscheduled_step|intros _].
  apply unsuccessful_or_return; [repeat unscheduled_step|never_true_step|].
  apply unsuccessful_or_return; [repeat unscheduled_step|apply never_true_do|].
  apply unsuccessful_or_return; [repeat unscheduled_step|never_true_step|].
  apply unsuccessful_or_return; [repeat unscheduled_step|never_true_step|].
  apply unsuccessful_or_return; [repeat unscheduled_step|apply never_true_do|].
  apply unsuccessful_or_return; [repeat unscheduled_step|never_true_step|].
  apply unsuccessful_or_return; [repeat unscheduled_step|never_true_step|].
  apply unsuccessful_or_return;
    [apply unscheduled_subworkflows_block|apply never_true_subworkflows_block|].
  apply unsuccessful_or_return; [repeat unscheduled_step|apply never_true_do|].
  apply unsuccessful_or_return; [repeat unscheduled_step|never_true_step|].
  apply unsuccessful_immediate_submit.
Qed.

End immediate_submit.

(** C8, as the code has it.  A run in immediate-submit mode whose job set
    holds a checkpoint job neither constructs nor runs the scheduler, whatever
    else was asked for; and unless one of the maintenance actions that end
    the run before the jobs are looked at was asked for (cleaning metadata,
    unlocking, cleaning shadow directories, containerising), the run does not
    return success. *)
Theorem immediate_submit_rejects_checkpoints
    (subsnakemake :
       Subworkflow -> list string -> gmap string pyval ->
       bool * list string * gmap string pyval)
    (c : Collaborators) (a : ExecArgs) (st : Store) :
  _immediate_submit (wf st) = true ->
  checkpoint_jobs c <> [] ->
  (scheduler (wf (snd (execute subsnakemake c a st))) = scheduler (wf st)
   /\ exists evs,
        trace (snd (execute subsnakemake c a st)) = (trace st ++ evs)%list
        /\ (Call "JobScheduler" ∉ evs) /\ (Call "scheduler.schedule" ∉ evs))
  /\ (cleanup_metadata a = [] -> unlock a = false -> cleanup_shadow a = false ->
      containerize a = false ->
      fst (execute subsnakemake c a st) <> Ok true).
Proof.
  intros Hi Hc. split.
  - destruct (execute_stops subsnakemake c a Hc st Hi) as (Hs & evs & Ht & Hevs).
    split; [done|]. exists evs. split; [done|].
    rewrite Forall_forall in Hevs. unfold scheduler_event in Hevs.
    split; intros Hin; apply (Hevs _ Hin); auto.
  - intros H1 H2 H3 H4.
    by apply (execute_unsuccessful subsnakemake c a Hc H1 H2 H3 H4 st).
Qed.

(** ** Names of unnamed rules *)

#[local] Hint Unfold view_registry : views.

Lemma od_get_mem {V} (d : odict V) k : od_mem d k = true -> is_Some (od_get d k).
Proof. unfold od_mem. by destruct (od_get d k). Qed.

Lemma add_rule_outcome (name : string) (lineno snakefile : pyval)
    (checkpoint : bool) (st : Store) :
  (is_rule (wf st) name = true /\
   add_rule name lineno snakefile checkpoint false st
   = (Raise (CreateRuleException ("The name " ++ name ++ " is already used by another rule")),
      st))
  \/ (is_rule (wf st) name = false /\
      exists st',
        add_rule name lineno snakefile checkpoint false st = (Ok name, st')
        /\ _rules (wf st') = od_set (_rules (wf st)) name (fresh (dom (rule_objs st)))
        /\ modifier_top (wf st') = modifier_top (wf st)
        /\ ruleinfo_objs st' = ruleinfo_objs st).
Proof.
  unfold add_rule, alloc_rule. unfold_M.
  destruct (is_rule (wf st) name) eqn:Hin; simpl; [by left|right].
  split; [done|].
  repeat case_match; simplify_eq/=; eexists; (split; [reflexivity|done]).
Qed.

(** [Workflow.rule] in a scope that leaves rules alone: either the name is taken
    and the call raises, or the rule is registered under the chosen name. *)
Lemma rule_outcome (name : option string) (lineno snakefile : pyval) (checkpoint : bool)
    (st : Store) :
  plain_scope st ->
  let n := default (py_str_nat (length (_rules (wf st)) + 1)) name in
  (is_rule (wf st) n = true /\
   exists e, rule name lineno snakefile checkpoint st = (Raise e, st))
  \/ (is_rule (wf st) n = false /\
      exists r st',
        rule name lineno snakefile checkpoint st = (Ok (Decorate r n n checkpoint), st')
        /\ length (_rules (wf st')) = S (length (_rules (wf st)))
        /\ modifier_top (wf st') = modifier_top (wf st)).
Proof.
  intros (Hskip & Hren & _ & Hover) n.
  assert (rule name lineno snakefile checkpoint st
          = bind (add_rule n lineno snakefile checkpoint false)
              (fun name =>
                 r <- get_rule name ;;
                 set_rule r (fun x => x <| rule_is_checkpoint := checkpoint |>) ;;
                 set_rule r (fun x => x <| rule_module_globals
                                            := Some (mod_globals (modifier_top (wf st))) |>) ;;
                 ret (Decorate r name n checkpoint)) st) as ->.
  { unfold rule. unfold get_wf, get_modifier, gets. unfold bind at 1 2.
    unfold skip_rule, modify_rulename. rewrite Hskip, Hren, Hover.
    subst n. by destruct name. }
  destruct (add_rule_outcome n lineno snakefile checkpoint st)
    as [[Hin Ea]|(Hin & st1 & Ea & Hr & Hm & _)]; [left|right].
  { split; [done|]. eexists. unfold bind at 1. by rewrite Ea. }
  split; [done|].
  pose proof (od_get_set (_rules (wf st)) n (fresh (dom (rule_objs st))) n) as Hget.
  rewrite String.eqb_refl in Hget.
  pose proof (od_length_set_new (_rules (wf st)) n (fresh (dom (rule_objs st))) Hin) as Hl.
  rewrite <- Hr in Hget, Hl.
  eexists _, _. split.
  - unfold bind at 1. rewrite Ea. unfold get_rule. unfold_M. rewrite Hget.
    destruct (_rules (wf st1)); [done|]. reflexivity.
  - done.
Qed.

Section registry.

Variables (rule ruleinfo : addr) (name orig_name : string) (checkpoint : bool).

Lemma keeps_registry_blocks :
  Forall (keeps view_registry) (decorate_blocks rule ruleinfo name orig_name checkpoint).
Proof.
  unfold decorate_blocks.
  repeat first [apply Forall_app_2 | apply Forall_cons_2 | apply Forall_nil_2];
    try (repeat constructor; frame).
Qed.

Lemma keeps_registry_wildcard_constraints :
  keeps (view_registry_name ruleinfo) (decorate_wildcard_constraints rule ruleinfo).
Proof. unfold view_registry_name. frame. Qed.

(** Without a [name] directive and without overriding directives of the
    scope, finalising a rule leaves the registry as it is. *)
Lemma decorate_keeps_registry (st : Store) :
  mod_ruleinfo_overwrite (modifier_top (wf st)) = None ->
  ri_name (the_ruleinfo st ruleinfo) = None ->
  view_registry (snd (decorate rule ruleinfo name orig_name checkpoint st))
  = view_registry st.
Proof.
  intros Hover Hname. unfold decorate.
  destruct (apply_modifier_effect ruleinfo st) as (st1 & E1 & Hri & _ & _ & _ & Hwf).
  unfold accumulated in Hri. rewrite Hover in Hri.
  unfold bind at 1. rewrite E1.
  pose proof (keeps_registry_wildcard_constraints st1) as H2.
  unfold bind at 1.
  destruct (decorate_wildcard_constraints rule ruleinfo st1) as [[[]|e] st2];
    simpl in H2; unfold view_registry_name in H2;
    pose proof (f_equal fst H2) as Hreg; pose proof (f_equal snd H2) as Hn;
    simpl in Hreg, Hn; rewrite Hri, Hname in Hn;
    assert (view_registry st1 = view_registry st) as Hst1
      by (unfold view_registry; by rewrite Hwf).
  - assert (decorate_name rule ruleinfo name st2 = (Ok name, st2)) as Edn.
    { unfold decorate_name. unfold_M. by rewrite Hn. }
    unfold bind at 1. rewrite Edn.
    etrans; [|etrans; [exact Hreg|exact Hst1]].
    apply (keeps_bind view_registry).
    + apply keeps_run_all, keeps_registry_blocks.
    + frame.
  - simpl. by rewrite Hreg.
Qed.

End registry.

Lemma alloc_ruleinfo_effect (directives : RuleInfo) (st : Store) :
  exists a st',
    alloc_ruleinfo directives st = (Ok a, st')
    /\ the_ruleinfo st' a = directives
    /\ wf st' = wf st.
Proof.
  unfold alloc_ruleinfo. eexists _, _. split; [reflexivity|].
  split; [by heap_lookups|done].
Qed.

Lemma register_all_names (regs : list (option string * RuleInfo)) :
  Forall (fun reg => ri_name reg.2 = None) regs ->
  forall (st st' : Store) (names : list (option string)),
    plain_scope st ->
    register_all regs st = (Ok names, st') ->
    forall (i : nat) (name : option string),
      regs.*1 !! i = Some name ->
      names !! i
      = Some (Some (default (py_str_nat (length (_rules (wf st)) + i + 1)) name)).
Proof.
  induction 1 as [|[name0 directives] regs Hname _ IH]; intros st st' names Hplain E i name Hi;
    [done|].
  simpl in Hname. simpl in E. revert E. unfold bind at 1.
  destruct (rule_outcome name0 PNone PNone false st Hplain)
    as [(_ & e & ->)|(_ & r & st1 & -> & Hlen & Hmod)]; [done|].
  unfold bind at 1.
  destruct (alloc_ruleinfo_effect directives st1) as (a & st2 & -> & Hri & Hwf).
  unfold bind at 1. unfold apply_decorator.
  destruct Hplain as (Hskip & Hren & Hover & Hallow).
  pose proof (decorate_keeps_registry r a
                (default (py_str_nat (length (_rules (wf st)) + 1)) name0)
                (default (py_str_nat (length (_rules (wf st)) + 1)) name0) false st2) as Hkeep.
  rewrite Hwf, Hmod, Hri in Hkeep. specialize (Hkeep Hover Hname).
  destruct (decorate r a _ _ false st2) as [[f|e] st3]; [|done].
  simpl in Hkeep. unfold view_registry in Hkeep. rewrite Hwf in Hkeep.
  pose proof (f_equal fst Hkeep) as Hrules. pose proof (f_equal snd Hkeep) as Hmod3.
  simpl in Hrules, Hmod3. rewrite Hmod in Hmod3.
  unfold bind at 1.
  destruct (register_all regs st3) as [[names'|e] st4] eqn:Erest; [|done].
  intros [= <- <-].
  destruct i as [|i]; simpl in Hi |- *.
  - injection Hi as <-. by rewrite Nat.add_0_r.
  - assert (plain_scope st3) as Hplain3 by (unfold plain_scope; by rewrite Hmod3).
    rewrite (IH st3 st4 names' Hplain3 Erest i name Hi).
    rewrite Hrules, Hlen.
    by replace (S (length (_rules (wf st))) + i + 1)%nat
      with (length (_rules (wf st)) + S i + 1)%nat by lia.
Qed.

(** C2, as the spec has it, does not hold: an unnamed rule defined after the
    rule [a] is registered as "2", where numbering the unnamed rules among
    themselves gives "1". *)
Lemma unnamed_after_named_is_2 :
  (register_all named_then_unnamed (new_Store default_args some_externals)).1
  = Ok [Some "a"; Some "2"]
  /\ numbered_among_unnamed 0 (named_then_unnamed.*1) = [Some "a"; Some "1"]
  /\ (register_all named_then_unnamed (new_Store default_args some_externals)).1
     <> Ok (numbered_among_unnamed 0 (named_then_unnamed.*1)).
Proof. split; [|split]; [by vm_compute|by vm_compute|]. by vm_compute. Qed.

(** C2, as the code has it.  In a scope that neither skips nor renames
    rules, overrides no directives and does not allow rules to be
    overwritten: a rule defined without a name is registered under the
    decimal numeral of the size of the registry plus one, provided that name
    is free; and for every sequence of rule definitions without [name]
    directive that runs through, the definition at position [i], if unnamed,
    has the numeral of the size of the registry before the sequence plus
    [i + 1]: named rules count as well. *)
Theorem unnamed_rule_names (regs : list (option string * RuleInfo)) (st : Store) :
  plain_scope st ->
  Forall (fun reg => ri_name reg.2 = None) regs ->
  (forall lineno snakefile checkpoint,
     is_rule (wf st) (py_str_nat (length (_rules (wf st)) + 1)) = false ->
     exists r st',
       rule None lineno snakefile checkpoint st
       = (Ok (Decorate r (py_str_nat (length (_rules (wf st)) + 1))
                (py_str_nat (length (_rules (wf st)) + 1)) checkpoint), st'))
  /\ forall names st',
       register_all regs st = (Ok names, st') ->
       forall i : nat,
         regs.*1 !! i = Some None ->
         names !! i = Some (Some (py_str_nat (length (_rules (wf st)) + i + 1))).
Proof.
  intros Hplain Hnames. split.
  - intros lineno snakefile checkpoint Hfree.
    destruct (rule_outcome None lineno snakefile checkpoint st Hplain)
      as [(Hin & _)|(_ & r & st' & E & _)]; simpl in *; [congruence|eauto].
  - intros names st' E i Hi.
    by rewrite (register_all_names regs Hnames st st' names Hplain E i None Hi).
Qed.

Lemma unnamed_rule_names_witness :
  exists names st',
    register_all named_then_unnamed (new_Store default_args some_externals) = (Ok names, st')
    /\ names !! 1%nat = Some (Some (py_str_nat (0 + 1 + 1))).
Proof.
  eexists _, _. split; [by vm_compute|].
  refine (proj2 (unnamed_rule_names named_then_unnamed (new_Store default_args some_externals)
                   _ _) _ _ _ 1%nat _).
  - by vm_compute.
  - repeat constructor.
  - by vm_compute.
  - reflexivity.
Defined.

(** ** Local inheritance: [use rule ... as ...] *)

(** [Workflow.rule] in a scope that does not skip and does not allow to
    overwrite: either the name is taken and the call raises, or a new rule
    object is registered under the name the scope makes. *)
Lemma rule_in_scope (name : option string) (lineno snakefile : pyval) (checkpoint : bool)
    (st : Store) :
  mod_skip (modifier_top (wf st)) = None ->
  mod_allow_rule_overwrite (modifier_top (wf st)) = false ->
  let orig := default (py_str_nat (length (_rules (wf st)) + 1)) name in
  let n := modify_rulename (modifier_top (wf st)) orig in
  (exists e, rule name lineno snakefile checkpoint st = (Raise e, st))
  \/ (exists st',
        rule name lineno snakefile checkpoint st
        = (Ok (Decorate (fresh (dom (rule_objs st))) n orig checkpoint), st')
        /\ od_get (_rules (wf st')) n = Some (fresh (dom (rule_objs st)))
        /\ modifier_top (wf st') = modifier_top (wf st)
        /\ ruleinfo_objs st' = ruleinfo_objs st).
Proof.
  intros Hskip Hover orig n.
  assert (rule name lineno snakefile checkpoint st
          = bind (add_rule n lineno snakefile checkpoint false)
              (fun name =>
                 r <- get_rule name ;;
                 set_rule r (fun x => x <| rule_is_checkpoint := checkpoint |>) ;;
                 set_rule r (fun x => x <| rule_module_globals
                                            := Some (mod_globals (modifier_top (wf st))) |>) ;;
                 ret (Decorate r name orig checkpoint)) st) as ->.
  { unfold rule. unfold get_wf, get_modifier, gets. unfold bind at 1 2.
    unfold skip_rule. rewrite Hskip, Hover. subst n orig. by destruct name. }
  destruct (add_rule_outcome n lineno snakefile checkpoint st)
    as [[Hin Ea]|(Hin & st1 & Ea & Hr & Hm & Hri)]; [left|right].
  { eexists. unfold bind at 1. by rewrite Ea. }
  pose proof (od_get_set (_rules (wf st)) n (fresh (dom (rule_objs st))) n) as Hget.
  rewrite String.eqb_refl in Hget. rewrite <- Hr in Hget.
  eexists. split.
  - unfold bind at 1. rewrite Ea. unfold get_rule. unfold_M. rewrite Hget.
    destruct (_rules (wf st1)); [done|]. reflexivity.
  - done.
Qed.

Section clone.

Variables (rule ruleinfo : addr) (name orig_name : string) (checkpoint : bool).

Lemma keeps_other_ruleinfo_blocks (src : addr) (n : string) :
  ruleinfo <> src ->
  Forall (keeps (fun st => ruleinfo_objs st !! src))
    (decorate_blocks rule ruleinfo n orig_name checkpoint).
Proof.
  intros Hne. unfold decorate_blocks.
  repeat first [apply Forall_app_2 | apply Forall_cons_2 | apply Forall_nil_2];
    try (repeat constructor; frame).
Qed.

(** Finalising a rule leaves every [RuleInfo] other than the one it is
    given as it is. *)
Lemma keeps_other_ruleinfo (src : addr) :
  ruleinfo <> src ->
  keeps (fun st => ruleinfo_objs st !! src)
    (decorate rule ruleinfo name orig_name checkpoint).
Proof.
  intros Hne. unfold decorate.
  apply keeps_bind; [frame|intros _].
  apply keeps_bind; [frame|intros _].
  apply keeps_bind; [frame|intros n].
  apply keeps_bind; [|frame].
  by apply keeps_run_all, keeps_other_ruleinfo_blocks.
Qed.

Lemma keeps_directives_blocks (n : string) :
  Forall (keeps (view_directives ruleinfo))
    (decorate_blocks rule ruleinfo n orig_name checkpoint).
Proof.
  unfold decorate_blocks.
  repeat first [apply Forall_app_2 | apply Forall_cons_2 | apply Forall_nil_2];
    try (repeat constructor; frame).
Qed.

(** Apart from the normalisation of [threads] and [conda], the directives
    a rule is finalised with stay what they are once those of the scope
    are merged over them. *)
Lemma decorate_directives (st : Store) :
  view_directives ruleinfo (decorate rule ruleinfo name orig_name checkpoint st).2
  = other_directives (accumulated st ruleinfo).
Proof.
  destruct (apply_modifier_effect ruleinfo st) as (st1 & E1 & Hri & _).
  unfold decorate. unfold bind at 1. rewrite E1.
  rewrite <- Hri. change (other_directives (the_ruleinfo st1 ruleinfo))
    with (view_directives ruleinfo st1).
  clear E1 Hri. revert st1.
  change (keeps (view_directives ruleinfo)
            (decorate_wildcard_constraints rule ruleinfo ;;
             name <- decorate_name rule ruleinfo name ;;
             run_all (decorate_blocks rule ruleinfo name orig_name checkpoint) ;;
             ri <- get_ruleinfo ruleinfo ;; ret (ri_func ri))).
  apply keeps_bind; [frame|intros _].
  apply keeps_bind; [frame|intros n].
  apply keeps_bind; [|frame].
  apply keeps_run_all, keeps_directives_blocks.
Qed.

Lemma decorate_blocks_last (n : string) :
  decorate_blocks rule ruleinfo n orig_name checkpoint
  = ((blocks_before_threads rule ruleinfo
      ++ decorate_threads rule ruleinfo n :: blocks_before_cache rule ruleinfo n
      ++ [decorate_cache rule ruleinfo; decorate_benchmark_cache rule ruleinfo;
          decorate_default_target rule ruleinfo; decorate_localrule rule ruleinfo;
          decorate_func rule ruleinfo; decorate_rule_proxy rule orig_name;
          decorate_checkpoint rule orig_name checkpoint])
     ++ [decorate_ruleinfo rule ruleinfo])%list.
Proof. reflexivity. Qed.

(** A rule that is finalised holds the [RuleInfo] it was finalised with. *)
Lemma decorate_sets_ruleinfo (st st' : Store) (f : option addr) :
  decorate rule ruleinfo name orig_name checkpoint st = (Ok f, st') ->
  rule_ruleinfo (the_rule st' rule) = Some ruleinfo.
Proof.
  intros E.
  cut (partial (fun _ => True) (decorate rule ruleinfo name orig_name checkpoint)
         (fun _ st' => rule_ruleinfo (the_rule st' rule) = Some ruleinfo)).
  { intros H. exact (H st I f st' E). }
  clear E. unfold decorate.
  apply (partial_bind _ _ (fun _ _ => True)); [apply partial_true|intros _].
  apply (partial_bind _ _ (fun _ _ => True)); [apply partial_true|intros _].
  apply (partial_bind _ _ (fun _ _ => True)); [apply partial_true|intros n].
  apply (partial_bind _ _
           (fun _ st' => rule_ruleinfo (the_rule st' rule) = Some ruleinfo)).
  - rewrite decorate_blocks_last.
    apply (partial_run_all_app _ (fun _ => True)); [apply partial_true|].
    intros s1 _ [] s2. unfold run_all, decorate_ruleinfo. unfold_M.
    intros [= <-]. by heap_lookups.
  - intros _ s1 Hs1 a s2. unfold_M. by intros [= _ <-].
Qed.

End clone.

Section clone_registered.

Variables (rule ruleinfo : addr) (orig_name : string) (checkpoint : bool).

Let registered (n : string) (st : Store) : Prop := od_get (_rules (wf st)) n = Some rule.

Lemma registered_of_view n st st' :
  view_registry st' = view_registry st -> registered n st -> registered n st'.
Proof. unfold registered, view_registry. by intros [= -> _]. Qed.

Lemma decorate_name_registered name :
  partial (registered name) (decorate_name rule ruleinfo name)
    (fun n st' => registered n st').
Proof.
  intros st Hreg n st'. unfold decorate_name. unfold_M.
  destruct (ri_name (the_ruleinfo st ruleinfo)) as [new_name|]; [|by intros [= <- <-]].
  destruct (negb (String.eqb new_name EmptyString)); [|by intros [= <- <-]].
  cbv beta iota.
  match goal with
  | |- context [is_rule ?w name] => destruct (is_rule w name); [|by intros [= ]]
  end.
  intros [= <- <-]. unfold registered, the_rule. simpl.
  by rewrite lookup_total_insert_eq, od_get_set, String.eqb_refl.
Qed.

(** The rule that is finalised is registered afterwards, under the name
    it goes by in the end. *)
Lemma decorate_registers name st st' f :
  decorate rule ruleinfo name orig_name checkpoint st = (Ok f, st') ->
  od_get (_rules (wf st)) name = Some rule ->
  exists n, od_get (_rules (wf st')) n = Some rule.
Proof.
  intros E Hreg.
  cut (partial (registered name) (decorate rule ruleinfo name orig_name checkpoint)
         (fun _ st' => exists n, registered n st')).
  { intros H. exact (H st Hreg f st' E). }
  clear. unfold decorate.
  apply (partial_bind _ _ (fun _ => registered name)).
  { apply (partial_inv_of_keeps view_registry); [frame|apply registered_of_view]. }
  intros _. apply (partial_bind _ _ (fun _ => registered name)).
  { apply (partial_inv_of_keeps view_registry); [frame|apply registered_of_view]. }
  intros _. apply (partial_bind _ _ (fun n => registered n)).
  { apply decorate_name_registered. }
  intros n. apply (partial_bind _ _ (fun _ => registered n)).
  { apply (partial_inv_of_keeps view_registry);
      [apply keeps_run_all, keeps_registry_blocks|apply registered_of_view]. }
  intros _ s1 Hs1 a s2. unfold_M. intros [= _ <-]. by exists n.
Qed.

End clone_registered.

Lemma rules_pop_modifier (w : Workflow) : _rules (pop_modifier w) = _rules w.
Proof. unfold pop_modifier. by destruct (modifier_below w). Qed.

(** C5, as the code has it.  In a scope that does not skip the new name, a
    local [use rule] with more than one rule name raises [WorkflowError] and
    leaves the store as it is.  With one name, that of a registered rule
    whose directives are the object [src], a [use rule] that runs through
    has made a new rule object, registered it, and given it a new directive
    object: a shallow copy of [src], taken at that moment, over which the
    directives given at the use site are merged; apart from the
    normalisation of [threads] and [conda] it holds the same values
    afterwards.  [src] itself is as before, and a later assignment to an
    attribute of [src] does not change the copy. *)
Theorem use_rule_local (st : Store) (rules : list string) (name_modifier : option string)
    (lineno : pyval) (maybe_ruleinfo : option addr) :
  skip_rule (modifier_top (wf st)) name_modifier = false ->
  ((1 < length rules)%nat ->
   userule rules None name_modifier lineno maybe_ruleinfo st = (Raise use_rule_error, st))
  /\ (forall name orig src st',
        rules = [name] ->
        od_get (_rules (wf st)) (modify_rulename (modifier_top (wf st)) name) = Some orig ->
        rule_ruleinfo (the_rule st orig) = Some src ->
        is_Some (ruleinfo_objs st !! src) ->
        (forall o, maybe_ruleinfo = Some o -> is_Some (ruleinfo_objs st !! o)) ->
        userule rules None name_modifier lineno maybe_ruleinfo st = (Ok tt, st') ->
        let c := fresh (dom (ruleinfo_objs st)) in
        let r := fresh (dom (rule_objs st)) in
        ruleinfo_objs st !! c = None
        /\ rule_objs st !! r = None
        /\ (exists n, od_get (_rules (wf st')) n = Some r)
        /\ rule_ruleinfo (the_rule st' r) = Some c
        /\ other_directives (the_ruleinfo st' c)
           = other_directives
               match maybe_ruleinfo with
               | Some o => merge_ruleinfo (the_ruleinfo st o) (the_ruleinfo st src)
               | None => the_ruleinfo st src
               end
        /\ ruleinfo_objs st' !! src = ruleinfo_objs st !! src
        /\ forall f, the_ruleinfo (set_ruleinfo src f st').2 c = the_ruleinfo st' c).
Proof.
  intros Hskip. split.
  - intros Hlen. unfold userule. unfold_M. rewrite Hskip.
    by rewrite (proj2 (Nat.ltb_lt _ _) Hlen).
  - intros name orig src st' -> Horig Hsrc Hsrc_in Hov.
    unfold userule. unfold get_wf, get_modifier, gets. unfold bind at 1 2.
    rewrite Hskip. cbv beta iota. change ((1 <? length [name])%nat) with false.
    cbv iota. rewrite Horig.
    unfold with_modifier. unfold set_wf, modify. unfold bind at 1. unfold finally.
    cbv beta.
    set (child := child_modifier (modifier_top (wf st))
                    (get_name_modifier_func name_modifier (modifier_top (wf st)))
                    maybe_ruleinfo).
    set (st1 := st <| wf ::= push_modifier child |>).
    unfold bind at 1. unfold get_rule_obj at 1. unfold gets at 1.
    change (the_rule st1 orig) with (the_rule st orig). rewrite Hsrc.
    unfold copy_ruleinfo. unfold bind at 1. unfold bind at 1.
    unfold get_ruleinfo at 1, gets at 1. unfold bind at 1.
    unfold alloc_ruleinfo at 1. unfold ret at 1. cbv zeta.
    change (ruleinfo_objs st1) with (ruleinfo_objs st).
    change (the_ruleinfo st1 src) with (the_ruleinfo st src).
    set (c := fresh (dom (ruleinfo_objs st))).
    set (st2 := st1 <| ruleinfo_objs ::= <[c := the_ruleinfo st src]> |>).
    unfold bind at 1.
    change (wf st2) with (wf st1).
    destruct (last (included_stack (wf st1))) as [snakefile|]; [|by intros [= ]].
    assert (ruleinfo_objs st !! c = None) as Hc by apply not_elem_of_dom, is_fresh.
    assert (c <> src) as Hne by (intros ->; rewrite Hc in Hsrc_in; by destruct Hsrc_in).
    unfold bind at 1.
    destruct (rule_in_scope name_modifier lineno (PStr snakefile) false st2 eq_refl eq_refl)
      as [[e Er]|(st3 & Er & Hreg & Hmod & Hri3)]; rewrite Er; [by intros [= ]|].
    change (fresh (dom (rule_objs st2))) with (fresh (dom (rule_objs st))).
    set (r := fresh (dom (rule_objs st))).
    unfold bind at 1. unfold apply_decorator.
    match goal with
    | |- context [decorate r c ?n ?o false st3] =>
        pose proof (decorate_directives r c n o false st3) as Hdir;
        pose proof (keeps_other_ruleinfo r c n o false src Hne st3) as Hkeep;
        destruct (decorate r c n o false st3) as [[f|e] st4] eqn:Ed; [|by intros [= ]];
        pose proof (decorate_sets_ruleinfo r c n o false st3 st4 f Ed) as Hset;
        pose proof (decorate_registers r c o false n st3 st4 f Ed Hreg) as [n' Hn']
    end.
    intros [= <-]. simpl in Hdir, Hkeep.
    split; [exact Hc|]. split; [apply fresh_rule_addr|].
    split; [exists n'; simpl; by rewrite rules_pop_modifier|]. split; [exact Hset|].
    split; [|split].
    + change (the_ruleinfo (st4 <| wf ::= pop_modifier |>) c) with (the_ruleinfo st4 c).
      unfold view_directives in Hdir. rewrite Hdir. f_equal.
      unfold accumulated. rewrite Hmod. change (mod_ruleinfo_overwrite _) with maybe_ruleinfo.
      unfold the_ruleinfo. rewrite Hri3. simpl. rewrite lookup_total_insert_eq.
      destruct maybe_ruleinfo as [o|]; [|done].
      rewrite lookup_total_insert_ne; [done|].
      intros <-. destruct (Hov c eq_refl) as [? Ho]. by rewrite Hc in Ho.
    + change (ruleinfo_objs (st4 <| wf ::= pop_modifier |>)) with (ruleinfo_objs st4).
      rewrite Hkeep, Hri3. simpl. by rewrite lookup_insert_ne.
    + intros g. unfold set_ruleinfo, modify, the_ruleinfo. simpl.
      by rewrite lookup_total_insert_ne.
Qed.

(** ** The theorems at work *)

Lemma cache_directive_never_rejected_witness :
  let st := store_cache_bogus in
  let st' := snd (decorate 0%nat 0%nat "a" "a" false st) in
  enable_cache (wf st) = true
  /\ ri_cache (accumulated st 0%nat) = PStr "bogus"
  /\ decorate 0%nat 0%nat "a" "a" false st = (Ok (Some 7%nat), st')
  /\ cache_rules (wf st') !! "a" = Some (PStr "bogus").
Proof.
  intros st st'.
  assert (decorate 0%nat 0%nat "a" "a" false st = (Ok (Some 7%nat), st')) as E
    by (vm_compute; reflexivity).
  split; [reflexivity|]. split; [reflexivity|]. split; [exact E|].
  exact (proj1 (proj2 (proj2 cache_directive_never_rejected))
           0%nat 0%nat "a" "a" false st (Some 7%nat) st' eq_refl eq_refl E).
Defined.

(** C4, as the spec has it, does not hold: without [--cache], the rule with
    a benchmark and a cache directive is finalised; the only reaction is a
    warning. *)
Lemma benchmark_and_cache_without_caching :
  let st := store_benchmark_cache default_args in
  let r := decorate 0%nat 0%nat "a" "a" false st in
  truthy (ri_cache (the_ruleinfo st 0%nat)) = true
  /\ is_Some (ri_benchmark (the_ruleinfo st 0%nat))
  /\ r.1 = Ok (Some 7%nat)
  /\ trace r.2
     = [Log Warning
          "Workflow defines that rule a is eligible for caching between workflows (use the --cache argument to enable this)."].
Proof.
  intros st r. split; [by vm_compute|]. split; [vm_compute; eauto|].
  split; by vm_compute.
Qed.

Lemma benchmark_excludes_cache_witness :
  let st := store_benchmark_cache caching_args in
  enable_cache (wf st) = true
  /\ truthy (ri_cache (accumulated st 0%nat)) = true
  /\ is_Some (ri_benchmark (accumulated st 0%nat))
  /\ exists e st', decorate 0%nat 0%nat "a" "a" false st = (Raise e, st').
Proof.
  intros st.
  assert (enable_cache (wf st) = true) as H1 by reflexivity.
  assert (truthy (ri_cache (accumulated st 0%nat)) = true) as H2 by reflexivity.
  assert (is_Some (ri_benchmark (accumulated st 0%nat))) as H3 by (vm_compute; eauto).
  split; [exact H1|]. split; [exact H2|]. split; [exact H3|].
  exact (proj1 (benchmark_excludes_cache 0%nat 0%nat "a" "a" false st) H1 H2 H3).
Defined.




(** C6, as the spec has it, does not hold.  With caching between workflows
    enabled the rule [a] is defined with [cache: True] and [localrule: True]
    and then overwritten.  The new rule object is the empty rule of the
    call, yet [get_cache_mode] answers ["all"] for it and its name is still
    among the local rules: both are directives of the old rule.  So in a
    scope that allows overwriting, [rule a: benchmark: "b.tsv"
    shell: "touch x"] is rejected for combining benchmark and caching though
    it has no cache directive; with an empty cache map it is finalised. *)
Lemma overwritten_rule_keeps_cache_mode :
  let st := store_cached_local_rule in
  let st' := snd (add_rule "a" PNone PNone false true st) in
  let benchmarked := [benchmark (PStr "b.tsv"); shellcmd (PStr "touch x")] in
  is_rule (wf st) "a" = true
  /\ add_rule "a" PNone PNone false true st = (Ok "a", st')
  /\ od_get (_rules (wf st')) "a" = Some 1%nat
  /\ the_rule st' 1%nat = new_Rule "a" PNone PNone
  /\ get_cache_mode st' 1%nat = Some (PStr "all")
  /\ "a" ∈ _localrules (wf st')
  /\ fst (define_rule (Some "a") false benchmarked 8%nat store_overwriting)
     = Raise (WorkflowError
         "Rules with a benchmark directive may not be marked as eligible for between-workflow caching at the same time. The reason is that when the result is taken from cache, there is no way to fill the benchmark file with any reasonable values. Either remove the benchmark directive or disable between-workflow caching for this rule.")
  /\ fst (define_rule (Some "a") false benchmarked 8%nat
            (store_overwriting <| wf ::= fun w => w <| cache_rules := ∅ |> |>))
     = Ok (Some 8%nat).
Proof.
  intros st st' benchmarked.
  do 5 (split; [vm_compute; reflexivity|]).
  split; [apply (bool_decide_unpack _); vm_compute; exact I|].
  split; vm_compute; reflexivity.
Qed.

(** C7, as the spec has it, does not hold.  With [--set-threads a=8] the
    rule [a] with [threads: 3.9] has 8 cores, and its directive stays the
    float.  And the value [None], which is neither an integer nor a float
    nor callable, is accepted: the rule is finalised. *)
Lemma threads_overridden_or_none :
  (let r := decorate 0%nat 0%nat "a" "a" false (store_threads set_threads_args (PFloat float_3_9)) in
   r.1 = Ok (Some 7%nat)
   /\ rule_resources (the_rule r.2 0%nat) !! "_cores" = Some (PInt 8)
   /\ ri_threads (the_ruleinfo r.2 0%nat) = PFloat float_3_9)
  /\ (let st := store_threads default_args PNone in
      ri_threads (the_ruleinfo st 0%nat) = PNone
      /\ isinstance_int PNone = false /\ isinstance_float PNone = false
      /\ callable PNone = false
      /\ (decorate 0%nat 0%nat "a" "a" false st).1 = Ok (Some 7%nat)).
Proof.
  split.
  - intros r. split; [|split]; by vm_compute.
  - intros st. repeat split; by vm_compute.
Qed.

Lemma threads_directive_witness :
  (let st := store_threads default_args (PFloat float_3_9) in
   exists fn st',
     decorate 0%nat 0%nat "a" "a" false st = (Ok fn, st')
     /\ rule_resources (the_rule st' 0%nat) !! "_cores" = Some (PInt 3)
     /\ ri_threads (the_ruleinfo st' 0%nat) = PInt 3)
  /\ (let st := store_threads default_args (PStr "x") in
      exists st',
        decorate 0%nat 0%nat "a" "a" false st
        = (Raise (RuleException "Threads value has to be an integer, float, or a callable."),
           st')).
Proof.
  split.
  - intros st.
    destruct (decorate 0%nat 0%nat "a" "a" false st) as [res st'] eqn:E.
    assert (res = Ok (Some 7%nat)) as ->
      by (apply (f_equal fst) in E; vm_compute in E; congruence).
    exists (Some 7%nat), st'. split; [reflexivity|].
    apply (proj1 (proj2 (threads_directive 0%nat 0%nat "a" "a" false st))
             float_3_9 3 (Some 7%nat) st').
    + reflexivity.
    + reflexivity.
    + vm_compute. auto.
    + exact E.
  - intros st.
    apply (proj2 (proj2 (threads_directive 0%nat 0%nat "a" "a" false st)) (PStr "x")).
    + reflexivity.
    + reflexivity.
    + discriminate.
    + reflexivity.
    + reflexivity.
    + reflexivity.
Defined.

(** C3, as the spec has it, does not hold: a name that a nested run binds
    is still bound in the namespace of the parent after the block, so the
    namespace is not the one from before. *)
Lemma nested_binding_remains :
  let st := store_with_subworkflow in
  let g := mod_globals (modifier_top (wf st)) in
  let r := execute_subworkflows_block leaking_run (collaborators []) plain_run st in
  r.1 = Ok None
  /\ the_namespace st g !! "leak" = None
  /\ the_namespace r.2 g !! "leak" = Some (PInt 1)
  /\ the_namespace r.2 g <> the_namespace st g.
Proof.
  intros st g r.
  assert (the_namespace st g !! "leak" = None) as H0 by (vm_compute; reflexivity).
  assert (the_namespace r.2 g !! "leak" = Some (PInt 1)) as H1 by (vm_compute; reflexivity).
  split; [vm_compute; reflexivity|]. split; [exact H0|]. split; [exact H1|].
  intros E. apply (f_equal (fun ns => ns !! "leak")) in E.
  rewrite H0 in E. rewrite H1 in E. discriminate E.
Qed.

Lemma globals_rescued_witness :
  let st := store_with_subworkflow in
  exists st',
    execute_subworkflows_block leaking_run (collaborators []) plain_run st = (Ok None, st')
    /\ the_namespace st' (mod_globals (modifier_top (wf st))) !! "samples"
       = the_namespace st (mod_globals (modifier_top (wf st))) !! "samples".
Proof.
  intros st.
  destruct (execute_subworkflows_block leaking_run (collaborators []) plain_run st)
    as [res st'] eqn:E.
  assert (res = Ok None) as ->
    by (apply (f_equal fst) in E; vm_compute in E; congruence).
  exists st'. split; [reflexivity|].
  destruct (the_namespace st (mod_globals (modifier_top (wf st))) !! "samples")
    as [v|] eqn:Hv; [|by vm_compute in Hv].
  exact (globals_rescued leaking_run (collaborators []) plain_run st st' "samples" v E Hv).
Defined.

(** C8, as the spec has it, does not hold: asked to clean up the shadow
    directories, a run in immediate-submit mode with a checkpoint job
    returns success. *)
Lemma cleanup_shadow_succeeds :
  let a := plain_run <| cleanup_shadow := true |> in
  _immediate_submit (wf store_immediate_submit) = true
  /\ checkpoint_jobs (collaborators ["c"]) <> []
  /\ (execute leaking_run (collaborators ["c"]) a store_immediate_submit).1 = Ok true.
Proof.
  intros a. split; [reflexivity|]. split; [discriminate|]. vm_compute. reflexivity.
Qed.

Lemma immediate_submit_rejects_checkpoints_witness :
  let st := store_immediate_submit in
  let r := execute leaking_run (collaborators ["c"]) plain_run st in
  scheduler (wf r.2) = scheduler (wf st) /\ r.1 <> Ok true.
Proof.
  intros st r.
  assert (_immediate_submit (wf st) = true) as Hi by reflexivity.
  assert (checkpoint_jobs (collaborators ["c"]) <> []) as Hc by discriminate.
  destruct (immediate_submit_rejects_checkpoints leaking_run (collaborators ["c"])
              plain_run st Hi Hc) as [[Hs _] Hfail].
  split; [exact Hs|].
  apply Hfail; reflexivity.
Defined.

(** C5, as the spec has it, does not hold.  In a scope that skips the new
    name, [use rule a, x as b] does nothing at all: no error.  And the copy
    of the directives is shallow: source and clone refer to the same
    dictionary of keyword arguments, so that an item assignment through the
    source shows in the clone. *)
Lemma use_rule_skipped_or_shared :
  userule ["a"; "x"] None (Some "b") PNone None store_skipping = (Ok tt, store_skipping)
  /\ (let st' := (userule ["a"] None (Some "b") PNone None store_with_rule_in).2 in
      rule_ruleinfo (the_rule st' 0%nat) = Some 0%nat
      /\ rule_ruleinfo (the_rule st' 1%nat) = Some 1%nat
      /\ kwpaths <$> ri_input (the_ruleinfo st' 0%nat) = Some 1%nat
      /\ kwpaths <$> ri_input (the_ruleinfo st' 1%nat) = Some 1%nat
      /\ od_get (the_dict st' 1%nat) "ref" = Some (PStr "ref.fa")
      /\ od_get (the_dict (set_dict_item 1%nat "ref" (PStr "other.fa") st').2 1%nat) "ref"
         = Some (PStr "other.fa")).
Proof.
  split; [vm_compute; reflexivity|].
  intros st'. repeat split; vm_compute; reflexivity.
Qed.

Lemma use_rule_local_witness :
  let st := store_with_rule_in in
  userule ["a"; "x"] None (Some "b") PNone None st = (Raise use_rule_error, st)
  /\ exists st',
       userule ["a"] None (Some "b") PNone None st = (Ok tt, st')
       /\ rule_ruleinfo (the_rule st' 1%nat) = Some 1%nat
       /\ ruleinfo_objs st' !! 0%nat = ruleinfo_objs st !! 0%nat
       /\ other_directives (the_ruleinfo st' 1%nat) = other_directives (the_ruleinfo st 0%nat).
Proof.
  intros st.
  pose proof (use_rule_local st ["a"; "x"] (Some "b") PNone None eq_refl) as [Hmany _].
  split; [apply Hmany; simpl; lia|].
  destruct (userule ["a"] None (Some "b") PNone None st) as [res st'] eqn:E.
  assert (res = Ok tt) as -> by (apply (f_equal fst) in E; vm_compute in E; congruence).
  pose proof (use_rule_local st ["a"] (Some "b") PNone None eq_refl) as [_ Hone].
  exists st'. split; [reflexivity|].
  destruct (Hone "a" 0%nat 0%nat st' eq_refl) as (_ & _ & _ & Hset & Hdir & Hsrc & _).
  - reflexivity.
  - reflexivity.
  - vm_compute. eauto.
  - intros o [= ].
  - exact E.
  - split; [exact Hset|]. split; [exact Hsrc|]. exact Hdir.
Defined.

(** * Further properties of the controller *)

(** ** Finalising a rule: directives that are checked *)

#[local] Arguments py_in : simpl never.

(** X1: shadow.  A rule that is finalised with a truthy [shadow] directive
    has a directive that [==] judges equal to one of the values allowed (as
    it does [1] and [1.0], which equal [True]), and its shadow depth is the
    directive itself, only the object [True] being written as ["full"]; a
    rule finalised with no or a falsy [shadow] directive has the shadow depth
    it had. *)
Theorem finalised_shadow_depth (rule ruleinfo : addr) (name orig_name : string)
    (checkpoint : bool) (st st' : Store) (f : option addr) :
  decorate rule ruleinfo name orig_name checkpoint st = (Ok f, st') ->
  let shadow := ri_shadow_depth (accumulated st ruleinfo) in
  if truthy shadow then
    py_in shadow shadow_values = true
    /\ rule_shadow_depth (the_rule st' rule) = (if is_True shadow then PStr "full" else shadow)
  else rule_shadow_depth (the_rule st' rule) = rule_shadow_depth (the_rule st rule).
Proof.
  intros E.
  destruct (decorate_block rule ruleinfo orig_name checkpoint
              (fun st => (view_directives ruleinfo st, rule_shadow_depth (the_rule st rule)))
              (fun st => rule_shadow_depth (the_rule st rule)) 5 name
              (fun _ w v =>
                 if truthy (ri_shadow_depth w.1) then
                   py_in (ri_shadow_depth w.1) shadow_values = true
                   /\ v = (if is_True (ri_shadow_depth w.1) then PStr "full"
                           else ri_shadow_depth w.1)
                 else v = w.2)) with st f st' as (st1 & Hri & _ & Hrules & _ & HR).
  - frame.
  - frame.
  - block_at.
    intros s a s'. unfold decorate_shadow, shadow_values. unfold_M.
    unfold view_directives. simpl.
    destruct (truthy (ri_shadow_depth (the_ruleinfo s ruleinfo))); [|by intros [= _ <-]].
    simpl.
    match goal with |- context [py_in ?x ?l] => destruct (py_in x l) end; simpl; [|done].
    destruct (is_True (ri_shadow_depth (the_ruleinfo s ruleinfo))); intros [= _ <-];
      (split; [done|]); by heap_lookups.
  - done.
  - simpl in HR. unfold view_directives in HR. simpl in HR. rewrite Hri in HR.
    unfold the_rule in *. by rewrite Hrules in HR.
Qed.

(** X2: resources.  A rule is only finalised if its [resources] directive
    has no positional arguments and every named resource is an integer, a
    string or callable. *)
Theorem finalised_resources_valid (rule ruleinfo : addr) (name orig_name : string)
    (checkpoint : bool) (st st' : Store) (f : option addr) (args : list pyval) (kw : addr) :
  decorate rule ruleinfo name orig_name checkpoint st = (Ok f, st') ->
  ri_resources (accumulated st ruleinfo) = Some (args, kw) ->
  args = []
  /\ forallb (fun v => isinstance_int v || isinstance_str v || callable v)
       (od_values (the_dict st kw)) = true.
Proof.
  intros E.
  destruct (decorate_block rule ruleinfo orig_name checkpoint
              (fun st => (view_directives ruleinfo st, dict_objs st))
              (fun _ => tt) 6 name
              (fun _ w _ =>
                 forall args kw, ri_resources w.1 = Some (args, kw) ->
                   args = []
                   /\ forallb (fun v => isinstance_int v || isinstance_str v || callable v)
                        (od_values (default [] (w.2 !! kw))) = true))
    with st f st' as (st1 & Hri & _ & _ & Hdict & HR).
  - frame.
  - frame.
  - block_at.
    intros s a s'. unfold decorate_resources. unfold_M.
    unfold view_directives. simpl.
    destruct (ri_resources (the_ruleinfo s ruleinfo)) as [[args0 kw0]|]; [|done].
    destruct args0; [|done]. cbv beta iota. unfold the_dict.
    destruct (forallb _ _) eqn:Hall; [|done].
    intros _ ? ? [= <- <-]. done.
  - done.
  - simpl in HR. unfold view_directives in HR. simpl in HR. rewrite Hri, Hdict in HR.
    apply HR.
Qed.

(** X4: priority.  A rule finalised with a truthy [priority] directive has
    a numeric directive, and that is its priority; otherwise its priority is
    the one it had. *)
Theorem finalised_priority (rule ruleinfo : addr) (name orig_name : string)
    (checkpoint : bool) (st st' : Store) (f : option addr) :
  decorate rule ruleinfo name orig_name checkpoint st = (Ok f, st') ->
  let priority := ri_priority (accumulated st ruleinfo) in
  if truthy priority then
    isinstance_int priority || isinstance_float priority = true
    /\ rule_priority (the_rule st' rule) = priority
  else rule_priority (the_rule st' rule) = rule_priority (the_rule st rule).
Proof.
  intros E.
  destruct (decorate_block rule ruleinfo orig_name checkpoint
              (fun st => (view_directives ruleinfo st, rule_priority (the_rule st rule)))
              (fun st => rule_priority (the_rule st rule)) 8 name
              (fun _ w v =>
                 if truthy (ri_priority w.1) then
                   isinstance_int (ri_priority w.1) || isinstance_float (ri_priority w.1) = true
                   /\ v = ri_priority w.1
                 else v = w.2)) with st f st' as (st1 & Hri & _ & Hrules & _ & HR).
  - frame.
  - frame.
  - block_at.
    intros s a s'. unfold decorate_priority. unfold_M.
    unfold view_directives. simpl.
    destruct (truthy (ri_priority (the_ruleinfo s ruleinfo))); [|by intros [= _ <-]].
    simpl.
    destruct (isinstance_int (ri_priority (the_ruleinfo s ruleinfo)));
      destruct (isinstance_float (ri_priority (the_ruleinfo s ruleinfo))); simpl; try done;
      intros [= _ <-]; (split; [done|]); by heap_lookups.
  - done.
  - simpl in HR. unfold view_directives in HR. simpl in HR. rewrite Hri in HR.
    unfold the_rule in *. by rewrite Hrules in HR.
Qed.

(** X5: retries.  A rule is only finalised if its [retries] directive, when
    truthy, is an integer that is not negative; the restart times of the
    finalised rule are the directive, or those of the controller if the
    directive is [None]. *)
Theorem finalised_restart_times (rule ruleinfo : addr) (name orig_name : string)
    (checkpoint : bool) (st st' : Store) (f : option addr) :
  decorate rule ruleinfo name orig_name checkpoint st = (Ok f, st') ->
  let retries := ri_retries (accumulated st ruleinfo) in
  (truthy retries = true ->
   isinstance_int retries = true /\ forall z, retries = PInt z -> 0 <= z)
  /\ rule_restart_times (the_rule st' rule)
     = (if is_None retries then restart_times (wf st) else retries).
Proof.
  intros E.
  destruct (decorate_block rule ruleinfo orig_name checkpoint
              (fun st => (view_directives ruleinfo st, restart_times (wf st)))
              (fun st => rule_restart_times (the_rule st rule)) 9 name
              (fun _ w v =>
                 (truthy (ri_retries w.1) = true ->
                  isinstance_int (ri_retries w.1) = true
                  /\ forall z, ri_retries w.1 = PInt z -> 0 <= z)
                 /\ v = (if is_None (ri_retries w.1) then w.2 else ri_retries w.1)))
    with st f st' as (st1 & Hri & Hwf & _ & _ & HR).
  - frame.
  - frame.
  - block_at.
    intros s a s'. unfold decorate_retries. unfold_M.
    unfold view_directives. simpl.
    destruct (truthy (ri_retries (the_ruleinfo s ruleinfo))); simpl.
    + destruct (isinstance_int (ri_retries (the_ruleinfo s ruleinfo))); simpl; [|done].
      destruct (ri_retries (the_ruleinfo s ruleinfo)) eqn:Hr; simpl;
        try (intros [= _ <-]; (split; [by intros _|]); by heap_lookups).
      destruct (z <? 0) eqn:Hz; simpl; [done|].
      intros [= _ <-]. split; [|by heap_lookups].
      intros _. split; [done|]. intros ? [= <-]. by apply Z.ltb_ge.
    + intros [= _ <-]. split; [done|]. by heap_lookups.
  - done.
  - simpl in HR. unfold view_directives in HR. simpl in HR. by rewrite Hri, Hwf in HR.
Qed.

(** X6: group.  In a local run, finalising a rule leaves its group as it
    is, whatever the [group] directive and the groups given on the command
    line are; otherwise the group is the truthy one given on the command
    line for the name of the rule, else that of the directive, and [None]
    changes nothing. *)
Theorem finalised_group (rule ruleinfo : addr) (name orig_name : string)
    (checkpoint : bool) (st st' : Store) (f : option addr) :
  decorate rule ruleinfo name orig_name checkpoint st = (Ok f, st') ->
  let acc := accumulated st ruleinfo in
  let group := py_or (default PNone (overwrite_groups (wf st) !! final_name acc name))
                 (ri_group acc) in
  rule_group (the_rule st' rule)
  = (if run_local (wf st) || is_None group then rule_group (the_rule st rule) else group).
Proof.
  intros E.
  destruct (decorate_block rule ruleinfo orig_name checkpoint
              (fun st => (view_directives ruleinfo st, run_local (wf st),
                          overwrite_groups (wf st), rule_group (the_rule st rule)))
              (fun st => rule_group (the_rule st rule)) 14 name
              (fun n w v =>
                 let group := py_or (default PNone (w.1.2 !! n)) (ri_group w.1.1.1) in
                 v = (if w.1.1.2 || is_None group then w.2 else group)))
    with st f st' as (st1 & Hri & Hwf & Hrules & _ & HR).
  - frame.
  - frame.
  - block_at.
    intros s a s'. unfold decorate_group. unfold_M.
    unfold view_directives. simpl.
    destruct (run_local (wf s)); simpl; [by intros [= _ <-]|].
    destruct (is_None _); simpl; intros [= _ <-]; [done|by heap_lookups].
  - done.
  - simpl in HR. unfold view_directives in HR. simpl in HR. rewrite Hri, Hwf in HR.
    unfold the_rule in *. by rewrite Hrules in HR.
Qed.

(** X7: what needs a script.  A rule is only finalised with environment
    modules, a conda environment or a container image of its own if it has a
    [script], [wrapper], [shell] or [notebook] directive. *)
Theorem finalised_deployment_needs_script (rule ruleinfo : addr) (name orig_name : string)
    (checkpoint : bool) (st st' : Store) (f : option addr) :
  decorate rule ruleinfo name orig_name checkpoint st = (Ok f, st') ->
  let acc := accumulated st ruleinfo in
  truthy (ri_env_modules acc) || truthy (ri_conda_env acc) || truthy (ri_container_img acc)
  = true ->
  invalid_rule acc = false.
Proof.
  intros E acc.
  assert (forall i, invalid_rule (other_directives i) = invalid_rule i) as Hinv by done.
  destruct (decorate_block rule ruleinfo orig_name checkpoint
              (view_directives ruleinfo) (fun _ => tt) 16 name
              (fun _ w _ => truthy (ri_env_modules w) = true -> invalid_rule w = false))
    with st f st' as (st1 & Hri1 & _ & _ & _ & H1); [frame|frame| |done|].
  { block_at. intros s a s'. unfold decorate_env_modules. unfold_M.
    unfold view_directives. rewrite Hinv.
    change (ri_env_modules (other_directives (the_ruleinfo s ruleinfo)))
      with (ri_env_modules (the_ruleinfo s ruleinfo)).
    destruct (truthy (ri_env_modules (the_ruleinfo s ruleinfo))); simpl; [|done].
    by destruct (invalid_rule (the_ruleinfo s ruleinfo)). }
  destruct (decorate_block rule ruleinfo orig_name checkpoint
              (fun st => (view_directives ruleinfo st, ri_conda_env (the_ruleinfo st ruleinfo)))
              (fun _ => tt) 17 name
              (fun _ w _ => truthy w.2 = true -> invalid_rule w.1 = false))
    with st f st' as (st2 & Hri2 & _ & _ & _ & H2); [frame|frame| |done|].
  { block_at. intros s a s'. unfold decorate_conda_env. unfold_M.
    unfold view_directives. simpl fst. simpl snd. rewrite Hinv.
    destruct (truthy (ri_conda_env (the_ruleinfo s ruleinfo))); simpl; [|done].
    by destruct (invalid_rule (the_ruleinfo s ruleinfo)). }
  destruct (decorate_block rule ruleinfo orig_name checkpoint
              (view_directives ruleinfo) (fun _ => tt) 18 name
              (fun _ w _ => truthy (ri_container_img w) = true -> invalid_rule w = false))
    with st f st' as (st3 & Hri3 & _ & _ & _ & H3); [frame|frame| |done|].
  { block_at. intros s a s'. unfold decorate_container. unfold_M.
    unfold view_directives. rewrite Hinv.
    change (ri_container_img (other_directives (the_ruleinfo s ruleinfo)))
      with (ri_container_img (the_ruleinfo s ruleinfo)).
    destruct (truthy (ri_container_img (the_ruleinfo s ruleinfo))); simpl; [|done].
    by destruct (invalid_rule (the_ruleinfo s ruleinfo)). }
  unfold view_directives in H1, H3. simpl in H2. unfold view_directives in H2.
  rewrite Hinv, Hri1 in H1. rewrite Hinv, Hri2 in H2. rewrite Hinv, Hri3 in H3.
  change (ri_env_modules (other_directives (accumulated st ruleinfo)))
    with (ri_env_modules acc) in H1.
  change (ri_container_img (other_directives (accumulated st ruleinfo)))
    with (ri_container_img acc) in H3.
  fold acc in H1, H2, H3.
  destruct (truthy (ri_env_modules acc)); [by auto|].
  destruct (truthy (ri_conda_env acc)); [by auto|].
  destruct (truthy (ri_container_img acc)); [by auto|done].
Qed.

Lemma decorate_container_effect (rule ruleinfo : addr) (name orig_name : string)
    (checkpoint : bool) (st st' : Store) (f : option addr) :
  decorate rule ruleinfo name orig_name checkpoint st = (Ok f, st') ->
  let acc := accumulated st ruleinfo in
  let own r := (rule_container_img r, rule_is_containerized r) in
  own (the_rule st' rule)
  = (if truthy (ri_container_img acc) then (ri_container_img acc, ri_is_containerized acc)
     else if truthy (global_container_img (wf st)) && negb (invalid_rule acc)
             && negb (py_eq (ri_container_img acc) (PBool false))
          then (global_container_img (wf st), global_is_containerized (wf st))
          else own (the_rule st rule)).
Proof.
  intros E.
  assert (forall i, invalid_rule (other_directives i) = invalid_rule i) as Hinv by done.
  destruct (decorate_block rule ruleinfo orig_name checkpoint
              (fun st => (view_directives ruleinfo st, global_container_img (wf st),
                          global_is_containerized (wf st),
                          (rule_container_img (the_rule st rule),
                           rule_is_containerized (the_rule st rule))))
              (fun st => (rule_container_img (the_rule st rule),
                          rule_is_containerized (the_rule st rule))) 18 name
              (fun _ w v =>
                 v = (if truthy (ri_container_img w.1.1.1)
                      then (ri_container_img w.1.1.1, ri_is_containerized w.1.1.1)
                      else if truthy w.1.1.2 && negb (invalid_rule w.1.1.1)
                              && negb (py_eq (ri_container_img w.1.1.1) (PBool false))
                           then (w.1.1.2, w.1.2)
                           else w.2)))
    with st f st' as (st1 & Hri & Hwf & Hrules & _ & HR).
  - frame.
  - frame.
  - block_at.
    intros s a s'. unfold decorate_container. unfold_M.
    unfold view_directives. cbn [fst snd]. rewrite Hinv.
    change (ri_container_img (other_directives (the_ruleinfo s ruleinfo)))
      with (ri_container_img (the_ruleinfo s ruleinfo)).
    change (ri_is_containerized (other_directives (the_ruleinfo s ruleinfo)))
      with (ri_is_containerized (the_ruleinfo s ruleinfo)).
    destruct (truthy (ri_container_img (the_ruleinfo s ruleinfo))).
    + destruct (invalid_rule (the_ruleinfo s ruleinfo)); [done|].
      intros [= _ <-]. by heap_lookups.
    + destruct (truthy (global_container_img (wf s))); [|by intros [= _ <-]].
      destruct (invalid_rule (the_ruleinfo s ruleinfo)); [by intros [= _ <-]|].
      destruct (py_eq _ _); [by intros [= _ <-]|].
      intros [= _ <-]. by heap_lookups.
  - done.
  - cbn [fst snd] in HR. unfold view_directives in HR. rewrite Hinv, Hri, Hwf in HR.
    unfold the_rule in *. by rewrite Hrules in HR.
Qed.

(** X8: container.  The container image of a finalised rule: a truthy
    directive of its own wins; without one, the image given for the whole
    workflow is taken, unless the rule has none of [script], [wrapper],
    [shell] and [notebook], or its directive equals [False] (which is what
    [container: None] stores); in every other case the rule keeps what it
    had. *)
Theorem finalised_container (rule ruleinfo : addr) (name orig_name : string)
    (checkpoint : bool) (st st' : Store) (f : option addr) :
  decorate rule ruleinfo name orig_name checkpoint st = (Ok f, st') ->
  let acc := accumulated st ruleinfo in
  let own r := (rule_container_img r, rule_is_containerized r) in
  own (the_rule st' rule)
  = (if truthy (ri_container_img acc) then (ri_container_img acc, ri_is_containerized acc)
     else if truthy (global_container_img (wf st)) && negb (invalid_rule acc)
             && negb (py_eq (ri_container_img acc) (PBool false))
          then (global_container_img (wf st), global_is_containerized (wf st))
          else own (the_rule st rule)).
Proof. apply decorate_container_effect. Qed.

Lemma decorate_default_target_effect (rule ruleinfo : addr) (name orig_name : string)
    (checkpoint : bool) (st st' : Store) (f : option addr) :
  decorate rule ruleinfo name orig_name checkpoint st = (Ok f, st') ->
  let directive := ri_default_target (accumulated st ruleinfo) in
  if is_True directive
  then default_target (wf st') = Some (rule_name (the_rule st' rule))
  else is_False directive = true /\ default_target (wf st') = default_target (wf st).
Proof.
  intros E.
  destruct (decorate_block rule ruleinfo orig_name checkpoint
              (fun st => (view_directives ruleinfo st, default_target (wf st)))
              (fun st => (default_target (wf st), rule_name (the_rule st rule))) 23 name
              (fun _ w v =>
                 if is_True (ri_default_target w.1) then v.1 = Some v.2
                 else is_False (ri_default_target w.1) = true /\ v.1 = w.2))
    with st f st' as (st1 & Hri & Hwf & _ & _ & HR).
  - frame.
  - frame.
  - block_at.
    intros s a s'. unfold decorate_default_target. unfold_M.
    unfold view_directives. cbn [fst snd].
    change (ri_default_target (other_directives (the_ruleinfo s ruleinfo)))
      with (ri_default_target (the_ruleinfo s ruleinfo)).
    destruct (is_True (ri_default_target (the_ruleinfo s ruleinfo))); [by intros [= _ <-]|].
    destruct (is_False (ri_default_target (the_ruleinfo s ruleinfo))); simpl; [|done].
    by intros [= _ <-].
  - done.
  - cbn [fst snd] in HR. unfold view_directives in HR. by rewrite Hri, Hwf in HR.
Qed.

(** X12: default target.  A rule is only finalised if its [default_target]
    directive is [True] or [False]; with [True] the finalised rule, under
    the name it has in the end, is the default target of the workflow, with
    [False] the default target stays the one it was. *)
Theorem finalised_default_target (rule ruleinfo : addr) (name orig_name : string)
    (checkpoint : bool) (st st' : Store) (f : option addr) :
  decorate rule ruleinfo name orig_name checkpoint st = (Ok f, st') ->
  let directive := ri_default_target (accumulated st ruleinfo) in
  if is_True directive
  then default_target (wf st') = Some (rule_name (the_rule st' rule))
  else is_False directive = true /\ default_target (wf st') = default_target (wf st).
Proof. apply decorate_default_target_effect. Qed.

#[local] Hint Unfold view_local : views.

Lemma more_local_refl v : more_local v v.
Proof. done. Qed.

Lemma more_local_trans u v w : more_local u v -> more_local v w -> more_local u w.
Proof. intros [??] [??]. split; [set_solver|congruence]. Qed.

Lemma grows_localrule (rule ruleinfo : addr) :
  grows (view_local rule) more_local (decorate_localrule rule ruleinfo).
Proof.
  intros s. unfold decorate_localrule, view_local, more_local. unfold_M.
  destruct (is_True _); simpl; [|done]. split; [set_solver|done].
Qed.

(** X13: local rules.  A rule finalised with [localrule: True] or with a
    truthy [handover] directive is, under the name it has in the end, one of
    the local rules of the workflow. *)
Theorem finalised_local_rule (rule ruleinfo : addr) (name orig_name : string)
    (checkpoint : bool) (st st' : Store) (f : option addr) :
  decorate rule ruleinfo name orig_name checkpoint st = (Ok f, st') ->
  let acc := accumulated st ruleinfo in
  is_True (ri_localrule acc) || truthy (ri_handover acc) = true ->
  rule_name (the_rule st' rule) ∈ _localrules (wf st').
Proof.
  intros E acc.
  destruct (decorate_block rule ruleinfo orig_name checkpoint
              (view_directives ruleinfo) (view_local rule) 24 name
              (fun _ w v => is_True (ri_localrule w) = true -> v.2 ∈ v.1))
    with st f st' as (st1 & Hri1 & _ & _ & _ & H1); [frame|frame| |done|].
  { block_at. intros s a s'. unfold decorate_localrule, view_local. unfold_M.
    unfold view_directives.
    change (ri_localrule (other_directives (the_ruleinfo s ruleinfo)))
      with (ri_localrule (the_ruleinfo s ruleinfo)).
    destruct (is_True _); [|done]. intros [= _ <-] _. simpl. set_solver. }
  destruct (decorate_block_le rule ruleinfo orig_name checkpoint
              (view_directives ruleinfo) (view_local rule) more_local
              more_local_refl more_local_trans 20 name
              (fun _ w v => truthy (ri_handover w) = true -> v.2 ∈ v.1))
    with st f st' as (st2 & Hri2 & _ & _ & _ & H2); [|frame|frame| |done|].
  { intros _ w v v' H [Hsub Heq] Hw. rewrite <- Heq. apply Hsub. by apply H. }
  { intros ?; eexists; split; [reflexivity|]; split; [|split].
    - cbv [decorate_blocks blocks_before_threads blocks_before_cache blocks_after_cache
           app take drop firstn skipn].
      repeat first [apply Forall_nil_2 | apply Forall_cons_2; [frame|]].
    - cbv [decorate_blocks blocks_before_threads blocks_before_cache blocks_after_cache
           app take drop firstn skipn].
      repeat first
        [ apply Forall_nil_2
        | apply Forall_cons_2;
          [first [ apply grows_localrule
                 | apply (grows_of_keeps _ _ more_local_refl); solve [frame] ]|] ].
    - intros s a s'. unfold decorate_handover, view_local. unfold_M.
      unfold view_directives.
      change (ri_handover (other_directives (the_ruleinfo s ruleinfo)))
        with (ri_handover (the_ruleinfo s ruleinfo)).
      destruct (truthy (ri_handover (the_ruleinfo s ruleinfo))); [|done].
      destruct (ri_resources (the_ruleinfo s ruleinfo)); simpl;
        intros [= _ <-] _; simpl; unfold the_rule; simpl;
        rewrite ?lookup_total_insert_eq; simpl; set_solver. }
  unfold view_directives, view_local in H1, H2. cbn [fst snd] in H1, H2.
  rewrite Hri1 in H1. rewrite Hri2 in H2.
  intros [H|H]%orb_true_iff; [by apply H1|by apply H2].
Qed.

(** X11: hand-over.  A rule finalised with a truthy [handover] directive is
    marked as a hand-over rule, and if it has no [resources] directive it
    has every resource of the workflow that is not [None], with the value
    the workflow has for it. *)
Theorem finalised_handover (rule ruleinfo : addr) (name orig_name : string)
    (checkpoint : bool) (st st' : Store) (f : option addr) :
  decorate rule ruleinfo name orig_name checkpoint st = (Ok f, st') ->
  let acc := accumulated st ruleinfo in
  truthy (ri_handover acc) = true ->
  rule_is_handover (the_rule st' rule) = true
  /\ (ri_resources acc = None ->
      forall k v, global_resources (wf st) !! k = Some v -> is_None v = false ->
        rule_resources (the_rule st' rule) !! k = Some v).
Proof.
  intros E acc.
  destruct (decorate_block rule ruleinfo orig_name checkpoint
              (fun st => (view_directives ruleinfo st, global_resources (wf st)))
              (fun st => (rule_is_handover (the_rule st rule),
                          rule_resources (the_rule st rule))) 20 name
              (fun _ w v =>
                 truthy (ri_handover w.1) = true ->
                 v.1 = true
                 /\ (ri_resources w.1 = None ->
                     forall k x, w.2 !! k = Some x -> is_None x = false ->
                       v.2 !! k = Some x)))
    with st f st' as (st1 & Hri & Hwf & _ & _ & HR); [frame|frame| |done|].
  { block_at. intros s a s'. unfold decorate_handover. unfold_M.
    unfold view_directives. cbn [fst snd].
    change (ri_handover (other_directives (the_ruleinfo s ruleinfo)))
      with (ri_handover (the_ruleinfo s ruleinfo)).
    change (ri_resources (other_directives (the_ruleinfo s ruleinfo)))
      with (ri_resources (the_ruleinfo s ruleinfo)).
    destruct (truthy (ri_handover (the_ruleinfo s ruleinfo))); [|done].
    destruct (ri_resources (the_ruleinfo s ruleinfo)); simpl;
      intros [= _ <-] _; unfold the_rule; simpl; rewrite !lookup_total_insert_eq; simpl;
      (split; [done|]); [done|].
    intros _ k x Hk Hx. apply lookup_union_Some_l, map_lookup_filter_Some. by split. }
  cbn [fst snd] in HR. unfold view_directives in HR. rewrite Hri, Hwf in HR. exact HR.
Qed.

Lemma map_update_union (m : gmap string pyval) (e : odict pyval) :
  map_update m e = map_update ∅ e ∪ m.
Proof.
  unfold map_update. revert m. induction e as [|[k v] e IH]; intros m; simpl.
  - by rewrite (left_id_L ∅ (∪)).
  - rewrite (IH (<[k:=v]> m)), (IH (<[k:=v]> ∅)).
    rewrite insert_empty, <- (assoc_L (∪)). by rewrite <- insert_union_singleton_l.
Qed.

#[local] Hint Unfold view_resources : views.

Lemma same_resources_refl v : same_resources v v.
Proof. done. Qed.

Lemma same_resources_trans u v w :
  same_resources u v -> same_resources v w -> same_resources u w.
Proof.
  intros [H1 H2] [H3 H4]. split; [congruence|].
  intros H. rewrite H2 by done. apply H4. by rewrite <- H1.
Qed.

Lemma grows_handover (rule ruleinfo : addr) :
  grows (view_resources rule ruleinfo) same_resources (decorate_handover rule ruleinfo).
Proof.
  intros s. unfold decorate_handover, view_resources, same_resources, no_plain_handover.
  unfold_M. unfold view_directives.
  change (ri_handover (other_directives (the_ruleinfo s ruleinfo)))
    with (ri_handover (the_ruleinfo s ruleinfo)).
  change (ri_resources (other_directives (the_ruleinfo s ruleinfo)))
    with (ri_resources (the_ruleinfo s ruleinfo)).
  destruct (truthy (ri_handover (the_ruleinfo s ruleinfo))) eqn:Hh; [|done].
  destruct (ri_resources (the_ruleinfo s ruleinfo)) eqn:Hr; simpl.
  - split; [reflexivity|]. intros _. unfold the_rule. simpl.
    by rewrite !lookup_total_insert_eq.
  - split; [reflexivity|]. unfold the_ruleinfo in *. intros [H|[x H]]; congruence.
Qed.

(** X3: resources given on the command line.  Unless a hand-over gives
    the rule the resources of the workflow, a finalised rule has every
    resource that the command line sets for its name, with the value given
    there, whatever its directives. *)
Theorem finalised_overwrite_resources (rule ruleinfo : addr) (name orig_name : string)
    (checkpoint : bool) (st st' : Store) (f : option addr) (res : odict pyval) :
  decorate rule ruleinfo name orig_name checkpoint st = (Ok f, st') ->
  let acc := accumulated st ruleinfo in
  overwrite_resources (wf st) !! final_name acc name = Some res ->
  no_plain_handover acc ->
  forall k v, map_update ∅ res !! k = Some v ->
    rule_resources (the_rule st' rule) !! k = Some v.
Proof.
  intros E acc.
  destruct (decorate_block_le rule ruleinfo orig_name checkpoint
              (fun st => (view_directives ruleinfo st, overwrite_resources (wf st)))
              (view_resources rule ruleinfo) same_resources
              same_resources_refl same_resources_trans 7 name
              (fun n w v =>
                 v.1 = w.1 /\
                 forall res, w.2 !! n = Some res -> no_plain_handover w.1 ->
                   forall k x, map_update ∅ res !! k = Some x -> v.2 !! k = Some x))
    with st f st' as (st1 & Hri & Hwf & _ & _ & HR); [|frame|frame| |done|].
  { intros n w v v' [H1 H2] [H3 H4]. split; [congruence|].
    intros res0 Hres Hno k x Hk. rewrite <- H4 by (by rewrite H1). by eapply H2. }
  { intros ?; eexists; split; [reflexivity|]; split; [|split].
    - cbv [decorate_blocks blocks_before_threads blocks_before_cache blocks_after_cache
           app take drop firstn skipn].
      repeat first [apply Forall_nil_2 | apply Forall_cons_2; [frame|]].
    - cbv [decorate_blocks blocks_before_threads blocks_before_cache blocks_after_cache
           app take drop firstn skipn].
      repeat first
        [ apply Forall_nil_2
        | apply Forall_cons_2;
          [first [ apply grows_handover
                 | apply (grows_of_keeps _ _ same_resources_refl); solve [frame] ]|] ].
    - intros s a s'. unfold decorate_overwrite_resources, view_resources. unfold_M.
      cbn [fst snd].
      destruct (overwrite_resources (wf s) !! n) as [res0|] eqn:Hn.
      + intros [= _ <-]. split; [done|]. intros ? [= <-] _ k x Hk.
        unfold the_rule. simpl. rewrite lookup_total_insert_eq. simpl.
        rewrite map_update_union. by apply lookup_union_Some_l.
      + intros [= _ <-]. split; [done|]. by intros ? [= ]. }
  cbn [fst snd] in HR. unfold view_resources, view_directives in HR. cbn [fst snd] in HR.
  rewrite Hwf in HR. destruct HR as [_ HR].
  intros Hres Hno. apply (HR res); [done|].
  rewrite Hri. exact Hno.
Qed.

(** ** Container images: the directive of a rule and that of the workflow *)

(** X9: opting out of the global image.  A rule whose container directive
    was given as [None], in a scope that overrides no directive, is finalised
    without a container image of its own being set: it keeps what the rule
    object had, whatever image was declared for the whole workflow. *)
Theorem container_none_opts_out (rule ruleinfo : addr) (name orig_name : string)
    (checkpoint : bool) (st0 st st' : Store) (f : option addr) (r : addr) :
  mod_ruleinfo_overwrite (modifier_top (wf st0)) = None ->
  container PNone ruleinfo st0 = (Ok r, st) ->
  decorate rule ruleinfo name orig_name checkpoint st = (Ok f, st') ->
  r = ruleinfo
  /\ rule_container_img (the_rule st' rule) = rule_container_img (the_rule st0 rule)
  /\ rule_is_containerized (the_rule st' rule) = rule_is_containerized (the_rule st0 rule).
Proof.
  intros Hplain Hset E. pose proof (decorate_container_effect _ _ _ _ _ _ _ _ E) as H.
  revert Hset H. unfold container, set_directive. unfold_M. intros [= <- <-] H.
  split; [done|].
  unfold accumulated in H. simpl in H. rewrite Hplain in H.
  unfold the_ruleinfo in H. simpl in H. rewrite lookup_total_insert_eq in H. simpl in H.
  rewrite andb_false_r in H. by injection H as Hi Hc.
Qed.

(** X10: the image of the workflow.  After [container: img] or
    [containerized: img] at the top of the workflow with a truthy [img], a
    rule that has a [script], [wrapper], [shell] or [notebook] and no
    container directive of its own is finalised with that image, and counts
    as containerised exactly in the second case. *)
Theorem global_container_applies (rule ruleinfo : addr) (name orig_name : string)
    (checkpoint : bool) (st0 st st' : Store) (f : option addr) (img : pyval)
    (containerised : bool) :
  (if containerised then global_containerized img else global_container img) st0
  = (Ok tt, st) ->
  truthy img = true ->
  ri_container_img (accumulated st0 ruleinfo) = PNone ->
  invalid_rule (accumulated st0 ruleinfo) = false ->
  decorate rule ruleinfo name orig_name checkpoint st = (Ok f, st') ->
  rule_container_img (the_rule st' rule) = img
  /\ rule_is_containerized (the_rule st' rule) = containerised.
Proof.
  intros Hset Himg Hnone Hvalid E.
  pose proof (decorate_container_effect _ _ _ _ _ _ _ _ E) as H.
  assert (accumulated st ruleinfo = accumulated st0 ruleinfo
          /\ global_container_img (wf st) = img
          /\ global_is_containerized (wf st) = containerised) as (Hacc & Hg & Hc).
  { revert Hset. unfold global_containerized, global_container. unfold_M.
    by destruct containerised; intros [= <-]. }
  simpl in H. rewrite Hacc, Hg, Hc, Hnone, Hvalid, Himg in H. simpl in H.
  by injection H as Hi Hc'.
Qed.

(** ** Finalising a rule: how the rule is published *)

Lemma decorate_returns_func (rule ruleinfo : addr) (name orig_name : string)
    (checkpoint : bool) (st st' : Store) (f : option addr) :
  decorate rule ruleinfo name orig_name checkpoint st = (Ok f, st') ->
  f = ri_func (accumulated st ruleinfo).
Proof.
  intros E.
  pose proof (decorate_directives rule ruleinfo name orig_name checkpoint st) as Hd.
  rewrite E in Hd. simpl in Hd.
  apply (f_equal ri_func) in Hd. unfold view_directives in Hd. simpl in Hd.
  rewrite <- Hd. revert E. unfold decorate. clear Hd.
  unfold bind at 1.
  destruct (apply_modifier ruleinfo st) as [[[]|e] s1]; [|done].
  unfold bind at 1.
  destruct (decorate_wildcard_constraints rule ruleinfo s1) as [[[]|e] s2]; [|done].
  unfold bind at 1.
  destruct (decorate_name rule ruleinfo name s2) as [[n|e] s3]; [|done].
  unfold bind at 1.
  destruct (run_all _ s3) as [[[]|e] s4]; [|done].
  unfold_M. by intros [= <- <-].
Qed.

#[local] Hint Unfold view_function view_proxy : views.

(** X28: the function of a rule.  A rule is only finalised if its directives
    hold a function.  [decorate] returns that function; afterwards the
    function is named [__] followed by the final name of the rule, and
    that name is bound to the function in the namespace of the scope. *)
Theorem finalised_function (rule ruleinfo : addr) (name orig_name : string)
    (checkpoint : bool) (st st' : Store) (f : option addr) :
  decorate rule ruleinfo name orig_name checkpoint st = (Ok f, st') ->
  let fname := "__" ++ rule_name (the_rule st' rule) in
  exists fn,
    f = Some fn
    /\ ri_func (accumulated st ruleinfo) = Some fn
    /\ func_names st' !! fn = Some fname
    /\ the_namespace st' (mod_globals (modifier_top (wf st))) !! fname = Some (PFunc fn).
Proof.
  intros E.
  destruct (decorate_block rule ruleinfo orig_name checkpoint
              (fun st => (view_directives ruleinfo st, modifier_top (wf st)))
              (view_function rule) 25 name
              (fun _ w v =>
                 exists fn, ri_func w.1 = Some fn
                   /\ v.1.1 !! fn = Some ("__" ++ v.2)
                   /\ default ∅ (v.1.2 !! mod_globals w.2) !! ("__" ++ v.2) = Some (PFunc fn)))
    with st f st' as (st1 & Hri & Hwf & _ & _ & fn & Hfn & Hname & Hbound).
  - frame.
  - frame.
  - block_at.
    intros s a s'. unfold decorate_func. unfold_M.
    unfold view_directives. cbn [fst snd].
    change (ri_func (other_directives (the_ruleinfo s ruleinfo)))
      with (ri_func (the_ruleinfo s ruleinfo)).
    destruct (ri_func (the_ruleinfo s ruleinfo)) as [fn|]; [|done].
    intros [= _ <-]. exists fn. unfold view_function, the_rule. simpl.
    rewrite !lookup_insert_eq. simpl. by rewrite lookup_insert_eq.
  - done.
  - cbn [fst snd] in Hfn, Hname, Hbound. unfold view_directives in Hfn.
    rewrite Hri in Hfn. rewrite Hwf in Hbound.
    change (ri_func (other_directives (accumulated st ruleinfo)))
      with (ri_func (accumulated st ruleinfo)) in Hfn.
    exists fn. rewrite (decorate_returns_func _ _ _ _ _ _ _ _ E). done.
Qed.

(** X29: the rule as an attribute of [rules].  After a rule is finalised,
    [rules] has it as the attribute of its final name and as the attribute of
    the name it was defined with, and the rule object refers to the
    directives it was finalised with. *)
Theorem finalised_rule_proxy (rule ruleinfo : addr) (name orig_name : string)
    (checkpoint : bool) (st st' : Store) (f : option addr) :
  decorate rule ruleinfo name orig_name checkpoint st = (Ok f, st') ->
  rules_proxy st' !! rule_name (the_rule st' rule) = Some rule
  /\ rules_proxy st' !! orig_name = Some rule
  /\ rule_ruleinfo (the_rule st' rule) = Some ruleinfo.
Proof.
  intros E.
  destruct (decorate_block rule ruleinfo orig_name checkpoint
              (fun _ => tt) (view_proxy rule) 26 name
              (fun _ _ v => v.1 !! v.2 = Some rule /\ v.1 !! orig_name = Some rule))
    with st f st' as (st1 & _ & _ & _ & _ & Hfinal & Horig).
  - frame.
  - frame.
  - block_at.
    intros s a s'. unfold decorate_rule_proxy. unfold_M. intros [= _ <-].
    unfold view_proxy, the_rule. simpl. rewrite lookup_insert_eq. split; [done|].
    destruct (decide (rule_name (rule_objs s !!! rule) = orig_name)) as [->|Hne].
    + by rewrite lookup_insert_eq.
    + by rewrite lookup_insert_ne, lookup_insert_eq.
  - done.
  - split; [exact Hfinal|]. split; [exact Horig|].
    exact (decorate_sets_ruleinfo _ _ _ _ _ _ _ _ E).
Qed.

(** ** The registry: lookups and what [add_rule] keeps *)

Lemma od_keys_set_new {V} (d : odict V) k v :
  od_mem d k = false -> od_keys (od_set d k v) = (od_keys d ++ [k])%list.
Proof.
  unfold od_mem, od_keys. induction d as [|[k0 v0] d IH]; simpl; [done|].
  destruct (String.eqb k k0); simpl; [done|]. intros H. by rewrite IH.
Qed.

Lemma od_mem_keys {V} (d : odict V) k : od_mem d k = true <-> k ∈ od_keys d.
Proof.
  unfold od_mem, od_keys. induction d as [|[k0 v0] d IH]; simpl.
  - split; [done|]. by intros ?%elem_of_nil.
  - destruct (String.eqb_spec k k0) as [->|Hne].
    + split; [intros _; apply list_elem_of_here|done].
    + rewrite IH. split; [apply list_elem_of_further|].
      intros [?|?]%elem_of_cons; done.
Qed.

Lemma od_length_set_mem {V} (d : odict V) k v :
  od_mem d k = true -> length (od_set d k v) = length d.
Proof.
  intros H. rewrite <- (length_map fst (od_set d k v)), <- (length_map fst d).
  change (map fst (od_set d k v)) with (od_keys (od_set d k v)).
  by rewrite od_keys_set_mem.
Qed.

(** What [add_rule] does to the controller when it succeeds. *)
Lemma add_rule_effect (name : string) (lineno snakefile : pyval)
    (checkpoint allow_overwrite : bool) (st st' : Store) (n : string) :
  add_rule name lineno snakefile checkpoint allow_overwrite st = (Ok n, st') ->
  n = name
  /\ _rules (wf st') = od_set (_rules (wf st)) name (fresh (dom (rule_objs st)))
  /\ rule_objs st' = <[fresh (dom (rule_objs st)) := new_Rule name lineno snakefile]>
                       (rule_objs st)
  /\ rule_count (wf st')
     = (if is_rule (wf st) name then rule_count (wf st) else S (rule_count (wf st)))
  /\ default_target (wf st')
     = match default_target (wf st) with
       | Some d => if String.eqb d EmptyString then Some name else Some d
       | None => Some name
       end
  /\ (allow_overwrite = true \/ is_rule (wf st) name = false)
  /\ modifier_top (wf st') = modifier_top (wf st).
Proof.
  unfold add_rule, alloc_rule. unfold_M.
  destruct allow_overwrite, (is_rule (wf st) name) eqn:Hin; simpl; try done.
  all: destruct (default_target (wf st)) as [[|c d]|] eqn:Hd; simpl.
  all: intros [= <- <-]; simpl; rewrite ?Hd; auto 10.
Qed.

(** X16: insert and look up.  Whenever [add_rule] succeeds, the name it
    returns is the one given, and [get_rule] on that name then returns,
    without changing anything, a rule object that did not exist before and
    that is the rule made from the arguments of the call. *)
Theorem get_rule_after_add_rule (name : string) (lineno snakefile : pyval)
    (checkpoint allow_overwrite : bool) (st st' : Store) (n : string) :
  add_rule name lineno snakefile checkpoint allow_overwrite st = (Ok n, st') ->
  n = name
  /\ exists r,
       get_rule name st' = (Ok r, st')
       /\ rule_objs st !! r = None
       /\ the_rule st' r = new_Rule name lineno snakefile.
Proof.
  intros (-> & Hrules & Hobjs & _)%add_rule_effect. split; [done|].
  exists (fresh (dom (rule_objs st))). split; [|split].
  - unfold get_rule. unfold_M. rewrite Hrules.
    pose proof (od_get_set (_rules (wf st)) name (fresh (dom (rule_objs st))) name) as Hget.
    rewrite String.eqb_refl in Hget. rewrite Hget.
    by destruct (od_set (_rules (wf st)) name (fresh (dom (rule_objs st)))).
  - apply fresh_rule_addr.
  - unfold the_rule. rewrite Hobjs. by rewrite lookup_total_insert_eq.
Qed.

(** Looking up what is not there: [get_rule] never changes the store.
    On an empty registry it raises [NoRulesException], whatever the name; on
    a registry with rules it raises [UnknownRuleException] with the name
    exactly if [is_rule] is false for it, and otherwise returns the rule
    registered under the name. *)
Lemma get_rule_outcome (name : string) (st : Store) :
  (_rules (wf st) = [] -> get_rule name st = (Raise NoRulesException, st))
  /\ (_rules (wf st) <> [] -> is_rule (wf st) name = false ->
      get_rule name st = (Raise (UnknownRuleException name), st))
  /\ (is_rule (wf st) name = true ->
      exists r, od_get (_rules (wf st)) name = Some r /\ get_rule name st = (Ok r, st))
  /\ (forall res st', get_rule name st = (res, st') -> st' = st).
Proof.
  unfold get_rule, is_rule, od_mem. unfold_M.
  split; [by intros ->|]. split; [|split].
  - intros Hne Hin. destruct (_rules (wf st)) as [|p d]; [done|].
    by destruct (od_get (p :: d) name).
  - intros Hin. destruct (_rules (wf st)) as [|p d]; [done|].
    destruct (od_get (p :: d) name) as [r|]; [|done]. by exists r.
  - intros res st'. destruct (_rules (wf st)) as [|p d]; [by intros [= _ <-]|].
    destruct (od_get (p :: d) name); by intros [= _ <-].
Qed.

(** X17: the count of rules.  In a registry in which every name occurs once
    and which is as long as the count of rules says, [add_rule] keeps both,
    whether it adds a name or overwrites one; the registry of a new
    controller is such a registry. *)
Theorem add_rule_counts (name : string) (lineno snakefile : pyval)
    (checkpoint allow_overwrite : bool) (st st' : Store) (n : string) :
  registry_counted (wf st) ->
  add_rule name lineno snakefile checkpoint allow_overwrite st = (Ok n, st') ->
  registry_counted (wf st')
  /\ forall i, registry_counted (new_Workflow i).
Proof.
  intros [Hnodup Hcount] (-> & Hrules & _ & Hc & _)%add_rule_effect.
  split; [|intros i; split; [constructor|done]].
  unfold registry_counted. rewrite Hrules, Hc. unfold is_rule.
  destruct (od_mem (_rules (wf st)) name) eqn:Hin.
  - rewrite od_keys_set_mem, od_length_set_mem by done. done.
  - rewrite od_keys_set_new, od_length_set_new by done. split; [|by rewrite Hcount].
    apply NoDup_app. split; [done|]. split; [|apply NoDup_singleton].
    intros k Hk ->%list_elem_of_singleton.
    apply od_mem_keys in Hk. congruence.
Qed.

Lemma od_get_del_ne {V} (d : odict V) k k' :
  k' <> k -> od_get (od_del d k) k' = od_get d k'.
Proof.
  intros Hne. induction d as [|[k0 v0] d IH]; simpl; [done|].
  destruct (String.eqb_spec k k0) as [->|Hk]; simpl.
  - by destruct (String.eqb_spec k' k0).
  - by rewrite IH.
Qed.

Lemma od_get_None_keys {V} (d : odict V) k : k ∉ od_keys d -> od_get d k = None.
Proof.
  intros Hk. destruct (od_get d k) eqn:E; [|done].
  exfalso. apply Hk, od_mem_keys. unfold od_mem. by rewrite E.
Qed.

Lemma od_get_del_eq {V} (d : odict V) k :
  NoDup (od_keys d) -> od_get (od_del d k) k = None.
Proof.
  unfold od_keys. induction d as [|[k0 v0] d IH]; simpl; [done|].
  intros [Hk0 Hd]%NoDup_cons.
  destruct (String.eqb_spec k k0) as [->|Hk]; simpl.
  - by apply od_get_None_keys.
  - destruct (String.eqb_spec k k0); [done|]. by apply IH.
Qed.

Lemma od_length_del {V} (d : odict V) k :
  od_mem d k = true -> S (length (od_del d k)) = length d.
Proof.
  unfold od_mem. induction d as [|[k0 v0] d IH]; simpl; [done|].
  destruct (String.eqb k k0); simpl; [done|]. intros H. by rewrite IH.
Qed.

(** What a successful [decorate] makes of the registry. *)
Lemma decorate_registry (rule ruleinfo : addr) (name orig_name : string)
    (checkpoint : bool) (st st' : Store) (f : option addr) :
  decorate rule ruleinfo name orig_name checkpoint st = (Ok f, st') ->
  match ri_name (accumulated st ruleinfo) with
  | Some new =>
      if negb (String.eqb new EmptyString) then
        is_rule (wf st) name = true
        /\ _rules (wf st') = od_set (od_del (_rules (wf st)) name) new rule
      else _rules (wf st') = _rules (wf st)
  | None => _rules (wf st') = _rules (wf st)
  end.
Proof.
  destruct (apply_modifier_effect ruleinfo st) as (st1 & E1 & Hri & _ & _ & _ & Hwf).
  unfold decorate. unfold bind at 1. rewrite E1. rewrite <- Hri, <- Hwf.
  clear E1 Hri Hwf st. unfold bind at 1. unfold is_rule.
  pose proof (keeps_registry_wildcard_constraints rule ruleinfo st1) as H2.
  destruct (decorate_wildcard_constraints rule ruleinfo st1) as [[[]|e] st2]; [|done].
  simpl in H2. unfold view_registry_name, view_registry in H2.
  pose proof (f_equal (fun v => v.1.1) H2) as Hrules2.
  pose proof (f_equal snd H2) as Hname2. simpl in Hrules2, Hname2.
  rewrite <- Hrules2, <- Hname2. clear H2 Hrules2 Hname2 st1.
  unfold bind at 1.
  assert (forall n st3,
            decorate_name rule ruleinfo name st2 = (Ok n, st3) ->
            match ri_name (the_ruleinfo st2 ruleinfo) with
            | Some new =>
                if negb (String.eqb new EmptyString) then
                  od_mem (_rules (wf st2)) name = true
                  /\ _rules (wf st3) = od_set (od_del (_rules (wf st2)) name) new rule
                else _rules (wf st3) = _rules (wf st2)
            | None => _rules (wf st3) = _rules (wf st2)
            end) as Hname.
  { intros n st3. unfold decorate_name. unfold_M.
    destruct (ri_name (the_ruleinfo st2 ruleinfo)) as [new|]; [|by intros [= _ <-]].
    destruct (negb (String.eqb new EmptyString)); [|by intros [= _ <-]].
    cbv beta iota.
    match goal with
    | |- context [is_rule ?w name] =>
        change (is_rule w name) with (od_mem (_rules (wf st2)) name);
        destruct (od_mem (_rules (wf st2)) name); [|by intros [= ]]
    end.
    by intros [= _ <-]. }
  destruct (decorate_name rule ruleinfo name st2) as [[n|e] st3]; [|done].
  specialize (Hname n st3 eq_refl). unfold bind at 1.
  pose proof (keeps_run_all view_registry _
                (keeps_registry_blocks rule ruleinfo n orig_name checkpoint) st3) as H4.
  destruct (run_all (decorate_blocks rule ruleinfo n orig_name checkpoint) st3)
    as [[[]|e] st4]; [|done].
  simpl in H4. unfold view_registry in H4. pose proof (f_equal fst H4) as Hrules4.
  simpl in Hrules4. unfold_M. intros [= _ <-]. rewrite Hrules4. exact Hname.
Qed.

(** X14: the name directive.  A rule finalised with a [name] directive that
    is not empty was registered under the name that [Workflow.rule] gave it,
    and is now registered under the new name: the registry is the old one
    with the old entry deleted and the rule set under the new name.  In a
    registry that holds every name once, the old name, if it differs, is no
    longer the name of a rule. *)
Theorem name_directive_renames (rule ruleinfo : addr) (name orig_name : string)
    (checkpoint : bool) (st st' : Store) (f : option addr) (new : string) :
  decorate rule ruleinfo name orig_name checkpoint st = (Ok f, st') ->
  ri_name (accumulated st ruleinfo) = Some new ->
  new <> EmptyString ->
  is_rule (wf st) name = true
  /\ _rules (wf st') = od_set (od_del (_rules (wf st)) name) new rule
  /\ od_get (_rules (wf st')) new = Some rule
  /\ (NoDup (od_keys (_rules (wf st))) -> new <> name -> is_rule (wf st') name = false).
Proof.
  intros E Hnew Hne. pose proof (decorate_registry _ _ _ _ _ _ _ _ E) as H.
  rewrite Hnew in H. destruct (String.eqb_spec new EmptyString); [done|].
  destruct H as [Hin Hrules]. split; [done|]. split; [done|]. rewrite Hrules.
  split; [by rewrite od_get_set, String.eqb_refl|].
  intros Hnodup Hdiff. unfold is_rule, od_mem. rewrite Hrules, od_get_set.
  destruct (String.eqb_spec name new); [done|]. by rewrite od_get_del_eq.
Qed.

(** X15: renaming onto a rule.  The [name] directive is not checked against
    the registry: when a rule is finalised with the name of another rule
    that is registered, no error is raised for that; the other rule is no
    longer registered, and the registry is shorter by one. *)
Theorem name_directive_replaces (rule ruleinfo : addr) (name orig_name : string)
    (checkpoint : bool) (st st' : Store) (f : option addr) (new : string) (other : addr) :
  decorate rule ruleinfo name orig_name checkpoint st = (Ok f, st') ->
  ri_name (accumulated st ruleinfo) = Some new ->
  new <> EmptyString -> new <> name ->
  od_get (_rules (wf st)) new = Some other ->
  od_get (_rules (wf st')) new = Some rule
  /\ S (length (_rules (wf st'))) = length (_rules (wf st)).
Proof.
  intros E Hnew Hne Hdiff Hother. pose proof (decorate_registry _ _ _ _ _ _ _ _ E) as H.
  rewrite Hnew in H. destruct (String.eqb_spec new EmptyString); [done|].
  destruct H as [Hin Hrules]. rewrite Hrules.
  split; [by rewrite od_get_set, String.eqb_refl|].
  rewrite od_length_set_mem, od_length_del; [done|done|].
  unfold od_mem. by rewrite od_get_del_ne, Hother.
Qed.

(** ** The default target *)

(** What [Workflow.rule] makes of the controller in a scope that leaves
    rules alone. *)
Lemma rule_default_target (name : option string) (lineno snakefile : pyval)
    (checkpoint : bool) (st st' : Store) (d : decorator) :
  plain_scope st ->
  rule name lineno snakefile checkpoint st = (Ok d, st') ->
  let n := default (py_str_nat (length (_rules (wf st)) + 1)) name in
  registered_name d = Some n
  /\ modifier_top (wf st') = modifier_top (wf st)
  /\ default_target (wf st')
     = match default_target (wf st) with
       | Some d0 => if String.eqb d0 EmptyString then Some n else Some d0
       | None => Some n
       end.
Proof.
  intros (Hskip & Hren & _ & Hover) E n. revert E.
  assert (rule name lineno snakefile checkpoint st
          = bind (add_rule n lineno snakefile checkpoint false)
              (fun name =>
                 r <- get_rule name ;;
                 set_rule r (fun x => x <| rule_is_checkpoint := checkpoint |>) ;;
                 set_rule r (fun x => x <| rule_module_globals
                                            := Some (mod_globals (modifier_top (wf st))) |>) ;;
                 ret (Decorate r name n checkpoint)) st) as ->.
  { unfold rule. unfold get_wf, get_modifier, gets. unfold bind at 1 2.
    unfold skip_rule, modify_rulename. rewrite Hskip, Hren, Hover.
    subst n. by destruct name. }
  unfold bind at 1.
  destruct (add_rule n lineno snakefile checkpoint false st) as [[n1|e] st1] eqn:Ea; [|done].
  apply add_rule_effect in Ea as (-> & _ & _ & _ & Hd & _ & Hm). intros E.
  assert (keeps (fun st => wf st)
            (r <- get_rule n ;;
             set_rule r (fun x => x <| rule_is_checkpoint := checkpoint |>) ;;
             set_rule r (fun x => x <| rule_module_globals
                                        := Some (mod_globals (modifier_top (wf st))) |>) ;;
             ret (Decorate r n n checkpoint))) as Hk by frame.
  pose proof (keeps_result _ _ _ _ _ Hk E) as Hwf. rewrite Hwf, Hd, Hm.
  split; [|done]. revert E. unfold get_rule. unfold_M.
  repeat case_match; by intros [= <- _].
Qed.

(** Rule definitions without [name] and [default_target] directives keep a
    default target that is set. *)
Lemma register_all_keeps_default_target (regs : list (option string * RuleInfo)) :
  Forall (fun reg => ri_name reg.2 = None /\ ri_default_target reg.2 = PBool false) regs ->
  forall (st st' : Store) (names : list (option string)) (d0 : string),
    plain_scope st ->
    default_target (wf st) = Some d0 -> d0 <> EmptyString ->
    register_all regs st = (Ok names, st') ->
    default_target (wf st') = Some d0.
Proof.
  induction 1 as [|[name0 directives] regs [Hname Hdt] _ IH];
    intros st st' names d0 Hplain Hd Hne; simpl; [by intros [= _ <-]|].
  simpl in Hname, Hdt. unfold bind at 1.
  destruct (rule name0 PNone PNone false st) as [[d|e] st1] eqn:Er; [|done].
  destruct (rule_default_target _ _ _ _ _ _ _ Hplain Er) as (Hreg & Hm1 & Hd1).
  rewrite Hd in Hd1. destruct (String.eqb_spec d0 EmptyString); [done|].
  unfold bind at 1.
  destruct (alloc_ruleinfo_effect directives st1) as (a & st2 & -> & Hri & Hwf2).
  unfold bind at 1. unfold apply_decorator.
  destruct d as [|r rn o c]; [done|].
  destruct Hplain as (Hskip & Hren & Hover & Hallow).
  destruct (decorate r a rn o c st2) as [[f|e] st3] eqn:Ed; [|done].
  pose proof (decorate_default_target_effect _ _ _ _ _ _ _ _ Ed) as Hdt3.
  pose proof (decorate_keeps_registry r a rn o c st2) as Hkeep.
  rewrite Hwf2, Hm1, Hri in Hkeep. specialize (Hkeep Hover Hname).
  rewrite Ed in Hkeep. simpl in Hkeep. unfold view_registry in Hkeep.
  pose proof (f_equal snd Hkeep) as Hm3. simpl in Hm3. rewrite Hwf2, Hm1 in Hm3.
  unfold accumulated in Hdt3. rewrite Hwf2, Hm1, Hover, Hri, Hdt in Hdt3.
  simpl in Hdt3. destruct Hdt3 as [_ Hdt3]. rewrite ?Hwf2, Hd1 in Hdt3.
  unfold bind at 1.
  destruct (register_all regs st3) as [[names'|e] st4] eqn:Erest; [|done].
  intros [= _ <-].
  apply (IH st3 st4 names' d0); try done.
  unfold plain_scope. by rewrite Hm3.
Qed.

(** X18: the first rule is the default target.  When rule definitions
    without [name] and [default_target] directives run through on a
    controller that has no default target, in a scope that leaves rules
    alone, the default target is afterwards the name of the first rule
    defined, provided that name is not the empty string. *)
Theorem first_rule_is_default_target (regs : list (option string * RuleInfo))
    (st st' : Store) (names rest : list (option string)) (first : string) :
  plain_scope st ->
  default_target (wf st) = None ->
  Forall (fun reg => ri_name reg.2 = None /\ ri_default_target reg.2 = PBool false) regs ->
  register_all regs st = (Ok names, st') ->
  names = Some first :: rest ->
  first <> EmptyString ->
  default_target (wf st') = Some first.
Proof.
  intros Hplain Hd Hregs E -> Hne. revert E.
  destruct Hregs as [|[name0 directives] regs [Hname Hdt] Hregs]; simpl; [done|].
  simpl in Hname, Hdt. unfold bind at 1.
  destruct (rule name0 PNone PNone false st) as [[d|e] st1] eqn:Er; [|done].
  destruct (rule_default_target _ _ _ _ _ _ _ Hplain Er) as (Hreg & Hm1 & Hd1).
  rewrite Hd in Hd1. unfold bind at 1.
  destruct (alloc_ruleinfo_effect directives st1) as (a & st2 & -> & Hri & Hwf2).
  unfold bind at 1. unfold apply_decorator.
  destruct d as [|r rn o c]; [done|].
  destruct Hplain as (Hskip & Hren & Hover & Hallow).
  destruct (decorate r a rn o c st2) as [[f|e] st3] eqn:Ed; [|done].
  pose proof (decorate_default_target_effect _ _ _ _ _ _ _ _ Ed) as Hdt3.
  pose proof (decorate_keeps_registry r a rn o c st2) as Hkeep.
  rewrite Hwf2, Hm1, Hri in Hkeep. specialize (Hkeep Hover Hname).
  rewrite Ed in Hkeep. simpl in Hkeep. unfold view_registry in Hkeep.
  pose proof (f_equal snd Hkeep) as Hm3. simpl in Hm3. rewrite Hwf2, Hm1 in Hm3.
  unfold accumulated in Hdt3. rewrite Hwf2, Hm1, Hover, Hri, Hdt in Hdt3.
  simpl in Hdt3. destruct Hdt3 as [_ Hdt3]. rewrite ?Hwf2, Hd1 in Hdt3.
  unfold bind at 1.
  destruct (register_all regs st3) as [[names'|e] st4] eqn:Erest; [|done].
  intros [= Hfirst <- <-]. simpl in Hreg. injection Hreg as Hreg.
  rewrite <- Hreg, Hfirst in Hdt3.
  apply (register_all_keeps_default_target regs Hregs st3 st4 names' first); try done.
  unfold plain_scope. by rewrite Hm3.
Qed.

(** ** Environment variables: the pattern and repeated registration *)

Lemma word_then_end_cons (c : ascii) (rest : string) :
  word_then_end (String c rest) = is_word_char c && word_tail rest.
Proof. reflexivity. Qed.

Lemma word_tail_of_end (s : string) : word_then_end s = true -> word_tail s = true.
Proof.
  intros H. destruct s as [|c s]; [done|]. unfold word_tail.
  destruct c as [[] [] [] [] [] [] [] []]; try exact H. by destruct s.
Qed.

Lemma word_tail_inv (s : string) :
  word_tail s = true -> s = EmptyString \/ s = newline \/ word_then_end s = true.
Proof.
  intros H. destruct s as [|c s]; [by left|]. right. unfold word_tail in H.
  destruct c as [[] [] [] [] [] [] [] []]; try (by right).
  destruct s; [by left|by right].
Qed.

(** X19: the pattern of names.  The names [register_envvars] accepts are
    the strings of one or more ASCII letters, digits and underscores, and
    those strings followed by one newline, which the [$] of the pattern lets
    pass. *)
Theorem envvar_name_pattern (s : string) :
  re_match_word s = true
  <-> exists w, w <> EmptyString /\ all_word_chars w = true /\ (s = w \/ s = w ++ newline).
Proof.
  unfold re_match_word. induction s as [|c s IH].
  - split; [done|]. intros (w & Hw & _ & [<-|E]); [done|]. by destruct w.
  - rewrite word_then_end_cons, andb_true_iff. split.
    + intros [Hc Hrest]. apply word_tail_inv in Hrest as [->|[->|Hw]].
      * exists (String c EmptyString). simpl. rewrite Hc. auto.
      * exists (String c EmptyString). simpl. rewrite Hc. auto.
      * apply IH in Hw as (w & Hw & Hall & Hs).
        exists (String c w). simpl. rewrite Hc, Hall.
        split; [done|]. split; [done|]. destruct Hs as [->| ->]; auto.
    + intros (w & Hw & Hall & Hs). destruct w as [|c0 w]; [done|].
      simpl in Hall. apply andb_true_iff in Hall as [Hc0 Hall].
      assert (c = c0) as -> by (destruct Hs as [Hs|Hs]; by injection Hs).
      split; [done|].
      assert (s = w \/ s = w ++ newline) as Hs'
        by (destruct Hs as [Hs|Hs]; injection Hs; auto).
      destruct w as [|c1 w].
      * destruct Hs' as [->| ->]; done.
      * apply word_tail_of_end, IH. exists (String c1 w). auto.
Qed.

Lemma set_envvars_twice (st : Store) (X Y : gset string) :
  st <| wf ::= fun w => w <| _envvars ::= fun s => s ∪ X |> |>
     <| wf ::= fun w => w <| _envvars ::= fun s => s ∪ Y |> |>
  = st <| wf ::= fun w => w <| _envvars ::= fun s => s ∪ (X ∪ Y) |> |>.
Proof.
  unfold set. cbn. by rewrite (assoc_L (∪)).
Qed.

Lemma set_envvars_check (st : Store) (f : gset string -> gset string) :
  check_envvars (wf (st <| wf ::= fun w => w <| _envvars ::= f |> |>)) = check_envvars (wf st)
  /\ ext (st <| wf ::= fun w => w <| _envvars ::= f |> |>) = ext st.
Proof. done. Qed.

Lemma register_envvars_ok (envvars : list string) (st st' : Store) :
  register_envvars envvars st = (Ok tt, st')
  <-> Forall (fun v => re_match_word v = true) envvars
      /\ (check_envvars (wf st) = false \/ Forall (fun v => v ∈ os_environ (ext st)) envvars)
      /\ st' = st <| wf ::= fun w => w <| _envvars ::= fun s => s ∪ list_to_set envvars |> |>.
Proof.
  unfold register_envvars.
  destruct (filter (fun v => re_match_word v = false) envvars) as [|bad bads] eqn:Hbad.
  - assert (Forall (fun v => re_match_word v = true) envvars) as Hvalid.
    { apply Forall_forall. intros v Hv.
      destruct (re_match_word v) eqn:E; [done|].
      assert (v ∈ filter (fun v => re_match_word v = false) envvars) as Hin
        by (apply list_elem_of_filter; done).
      rewrite Hbad in Hin. by apply elem_of_nil in Hin. }
    unfold_M.
    destruct (filter (fun v => v ∉ os_environ (ext st)) envvars) as [|u us] eqn:Hundef.
    + assert (Forall (fun v => v ∈ os_environ (ext st)) envvars) as Hdef.
      { apply Forall_forall. intros v Hv.
        destruct (decide (v ∈ os_environ (ext st))) as [|Hn]; [done|].
        assert (v ∈ filter (fun v => v ∉ os_environ (ext st)) envvars) as Hin
          by (apply list_elem_of_filter; done).
        rewrite Hundef in Hin. by apply elem_of_nil in Hin. }
      rewrite andb_false_r. split.
      * intros [= <-]. auto.
      * intros (_ & _ & ->). done.
    + assert (~ Forall (fun v => v ∈ os_environ (ext st)) envvars) as Hdef.
      { intros HF. assert (u ∈ filter (fun v => v ∉ os_environ (ext st)) envvars) as Hin
          by (rewrite Hundef; apply list_elem_of_here).
        apply list_elem_of_filter in Hin as [Hn Hin].
        rewrite Forall_forall in HF. by apply Hn, HF. }
      rewrite andb_true_r. destruct (check_envvars (wf st)) eqn:Hc.
      * split; [done|]. intros (_ & [|] & _); done.
      * split.
        -- intros [= <-]. auto.
        -- intros (_ & _ & ->). done.
  - split; [done|]. intros [HF _]. exfalso.
    assert (bad ∈ filter (fun v => re_match_word v = false) envvars) as Hin
      by (rewrite Hbad; apply list_elem_of_here).
    apply list_elem_of_filter in Hin as [Hn Hin].
    rewrite Forall_forall in HF. specialize (HF _ Hin). congruence.
Qed.

(** X20: registration composes.  Registering the names [xs ++ ys] in one
    call succeeds exactly when registering [xs] and then [ys] does, and
    both ways end in the same store. *)
Theorem register_envvars_app (xs ys : list string) (st st' : Store) :
  register_envvars (xs ++ ys) st = (Ok tt, st')
  <-> exists st1, register_envvars xs st = (Ok tt, st1)
                  /\ register_envvars ys st1 = (Ok tt, st').
Proof.
  split.
  - intros H. apply register_envvars_ok in H as (Hv & Hd & ->).
    apply Forall_app in Hv as [Hvx Hvy].
    eexists. split.
    + apply register_envvars_ok. split; [done|]. split; [|reflexivity].
      destruct Hd as [|Hd]; [by left|right]. by apply Forall_app in Hd as [? _].
    + apply register_envvars_ok. split; [done|].
      destruct (set_envvars_check st (fun s => s ∪ list_to_set xs)) as [-> ->]. split.
      * destruct Hd as [|Hd]; [by left|right]. by apply Forall_app in Hd as [_ ?].
      * by rewrite set_envvars_twice, list_to_set_app_L.
  - intros (st1 & H1 & H2).
    apply register_envvars_ok in H1 as (Hvx & Hdx & ->).
    apply register_envvars_ok in H2 as (Hvy & Hdy & ->).
    destruct (set_envvars_check st (fun s => s ∪ list_to_set xs)) as [Ec Ee].
    rewrite Ec, Ee in Hdy.
    apply register_envvars_ok. split; [by apply Forall_app|]. split.
    + destruct Hdx as [|Hdx]; [by left|]. destruct Hdy as [Hdy|Hdy]; [by left|].
      right. by apply Forall_app.
    + by rewrite set_envvars_twice, list_to_set_app_L.
Qed.

(** X21: registration is idempotent.  After a successful call, the same
    call succeeds again and changes nothing. *)
Theorem register_envvars_twice (xs : list string) (st st' : Store) :
  register_envvars xs st = (Ok tt, st') ->
  register_envvars xs st' = (Ok tt, st').
Proof.
  intros H. apply register_envvars_ok in H as (Hv & Hd & ->).
  apply register_envvars_ok. split; [done|].
  destruct (set_envvars_check st (fun s => s ∪ list_to_set xs)) as [-> ->].
  split; [done|]. rewrite set_envvars_twice. by rewrite (idemp_L (∪)).
Qed.

(** ** Scopes: what [use rule] leaves behind *)

#[local] Hint Unfold view_scopes : views.

Lemma keeps_scopes_decorate (rule ruleinfo : addr) (name orig_name : string)
    (checkpoint : bool) :
  keeps view_scopes (decorate rule ruleinfo name orig_name checkpoint).
Proof.
  unfold decorate.
  apply keeps_bind; [frame|intros _].
  apply keeps_bind; [frame|intros _].
  apply keeps_bind; [frame|intros n].
  apply keeps_bind; [|frame].
  apply keeps_run_all.
  cbv [decorate_blocks blocks_before_threads blocks_before_cache blocks_after_cache app].
  repeat first [apply Forall_nil_2 | apply Forall_cons_2; [frame|]].
Qed.

Lemma keeps_scopes_rule (name : option string) (lineno snakefile : pyval)
    (checkpoint : bool) :
  keeps view_scopes (rule name lineno snakefile checkpoint).
Proof. frame. by intros st. Qed.

Lemma pop_modifier_below (w : Workflow) (top : WorkflowModifier)
    (below : list WorkflowModifier) :
  modifier_below w = top :: below ->
  (modifier_top (pop_modifier w), modifier_below (pop_modifier w)) = (top, below).
Proof. unfold pop_modifier. by intros ->. Qed.

(** X22: scopes are restored.  Whether a [use rule] statement that inherits
    from a rule of the same file returns or raises, the active scope and the
    scopes it suspended are afterwards those from before the statement:
    registering and finalising the new rule never touches them, so leaving the
    scope of the statement restores them.  (What a module does when rules are
    inherited from it is not part of this file.) *)
Theorem use_rule_restores_scopes (rules : list string) (name_modifier : option string)
    (lineno : pyval) (maybe_ruleinfo : option addr) :
  keeps view_scopes (userule rules None name_modifier lineno maybe_ruleinfo).
Proof.
  unfold userule. apply keeps_bind; [frame|intros w].
  apply keeps_bind; [frame|intros m].
  destruct (skip_rule m name_modifier); [frame|].
  destruct (1 <? length rules)%nat; [frame|].
  destruct rules as [|rules_0 _]; [frame|].
  destruct (od_get _ _) as [orig_rule|]; [|frame].
  intros st. unfold with_modifier, set_wf, modify, finally. unfold bind at 1.
  match goal with
  | |- context [bind ?m ?k] =>
      assert (keeps view_scopes (bind m k)) as Hbody
  end.
  { apply keeps_bind; [frame|intros r].
    apply keeps_bind; [frame; by intros ?|intros orig_ruleinfo].
    apply keeps_bind; [frame|intros w'].
    destruct (last _); [|frame].
    apply keeps_bind; [apply keeps_scopes_rule|intros d].
    destruct orig_ruleinfo as [c|]; [|frame].
    apply keeps_bind; [|frame].
    destruct d; [frame|apply keeps_scopes_decorate]. }
  match goal with
  | |- context [bind ?m ?k ?s] =>
      specialize (Hbody s); destruct (bind m k s) as [res st1]
  end.
  unfold view_scopes in *. simpl in Hbody. injection Hbody as _ Hbelow.
  change (wf (res, st1 <| wf ::= pop_modifier |>).2) with (pop_modifier (wf st1)).
  by rewrite (pop_modifier_below _ _ _ Hbelow).
Qed.

(** ** The run: what each kind of run asks of its collaborators *)

Section runs.

Variable subsnakemake :
  Subworkflow -> list string -> gmap string pyval ->
  bool * list string * gmap string pyval.
Variable c : Collaborators.

Section any_run.

Variable a : ExecArgs.
Variable P : event -> Prop.
Hypothesis log_allowed : forall level msg, P (Log level msg).
Hypothesis update_allowed : P (Call "dag.updated_subworkflow_files.update").

Lemma emits_run_subsnakemake sw targets :
  emits P (run_subsnakemake subsnakemake sw targets).
Proof.
  unfold run_subsnakemake.
  apply emits_bind; [repeat emits_step|intros g].
  apply emits_bind; [repeat emits_step|intros ns].
  destruct (subsnakemake sw targets ns) as [[ok updated] ns'].
  repeat emits_step.
Qed.

Lemma emits_logger level msg : emits P (logger level msg).
Proof. by apply emits_emit. Qed.

Lemma emits_loop sws : emits P (execute_subworkflow_loop subsnakemake c sws).
Proof.
  induction sws as [|sw sws IH]; simpl; [apply emits_ret|].
  apply emits_bind; [apply emits_logger|intros _].
  destruct (subworkflow_targets c sw).
  - apply emits_bind; [apply emits_logger|by intros _].
  - apply emits_bind; [apply emits_logger|intros _].
    apply emits_bind; [apply emits_run_subsnakemake|intros ok].
    destruct ok; simpl; [|apply emits_ret].
    apply emits_bind; [by apply emits_emit|by intros _].
Qed.

Lemma emits_subworkflows_block :
  emits P (execute_subworkflows_block subsnakemake c a).
Proof.
  unfold execute_subworkflows_block.
  apply emits_bind; [repeat emits_step|intros w].
  destruct (_ && _ && _ && _ && _); [|apply emits_ret].
  apply emits_bind; [repeat emits_step|intros g].
  apply emits_bind; [repeat emits_step|intros backup].
  apply emits_bind; [apply emits_loop|intros [b|]]; [apply emits_ret|].
  apply emits_bind; [apply emits_when, emits_logger|intros _].
  repeat emits_step.
Qed.

End any_run.

(** X23: a dry run.  Whatever else is asked for, a dry run calls none of
    the hooks [onstart], [onsuccess] and [onerror], does not clean the working
    directory, leaves the cache of file properties active and writes no
    statistics. *)
Theorem dry_run_spares_hooks (a : ExecArgs) :
  dryrun a = true ->
  emits (fun e => e ∉ not_for_dry_run) (execute subsnakemake c a).
Proof.
  intros Hdry. unfold execute, execute_schedule, execute_announce.
  rewrite Hdry. cbn [negb andb].
  apply emits_bind; [repeat emits_step|intros _].
  do 7 (apply emits_or_return; [repeat emits_step|]).
  apply emits_or_return; [apply emits_subworkflows_block; intros; allowed_event|].
  repeat emits_step.
Qed.

Lemma unscheduled_or_return (m : M (option bool)) (k : M bool) :
  unscheduled m -> unscheduled k -> unscheduled (m then_ k).
Proof.
  intros Hm Hk. unfold or_return. apply unscheduled_bind; [done|].
  intros [b|]; [apply unscheduled_ret|done].
Qed.

Lemma unscheduled_act (what : string) (k : M bool) :
  ~ scheduler_event (Call what) ->
  unscheduled ((emit (Call what) ;; return_ true) then_ k).
Proof.
  intros He st. unfold_M. simpl. split; [done|].
  exists [Call what]. split; [done|]. by constructor.
Qed.

Lemma unscheduled_inspection (a : ExecArgs) (k : M bool) :
  inspection a = true -> unscheduled (execute_inspection a then_ k).
Proof.
  unfold inspection. cbv beta zeta delta [execute_inspection]. intros H.
  repeat lazymatch goal with
  | |- unscheduled (or_return (if ?b then _ else _) _) =>
      destruct b; [apply unscheduled_act; intros [?|?]; discriminate|]
  end.
  done.
Qed.

(** X24: looking at the job graph.  A run that was asked to print, summarise,
    archive, clean or list (any option of the chain that ends [execute] with
    [return True] after one action on the graph) neither constructs nor runs
    the scheduler and leaves the controller as it was. *)
Theorem inspection_never_schedules (a : ExecArgs) :
  inspection a = true -> unscheduled (execute subsnakemake c a).
Proof.
  intros H. unfold execute.
  apply unscheduled_bind; [repeat unscheduled_step|intros _].
  do 7 (apply unscheduled_or_return; [repeat unscheduled_step|]).
  apply unscheduled_or_return; [apply unscheduled_subworkflows_block|].
  do 4 (apply unscheduled_or_return; [repeat unscheduled_step|]).
  by apply unscheduled_inspection.
Qed.

Lemma or_return_continues (m : M (option bool)) (k : M bool) st st1 :
  m st = (Ok None, st1) -> (m then_ k) st = k st1.
Proof. unfold or_return, bind. by intros ->. Qed.

Lemma or_return_stops (m : M (option bool)) (k : M bool) st b st1 :
  m st = (Ok (Some b), st1) -> (m then_ k) st = (Ok b, st1).
Proof. unfold or_return, bind. by intros ->. Qed.

(** The start of every run: the check of the local rules, the wait for
    files, and the construction of the graph and the persistence layer. *)
Lemma execute_start (a : ExecArgs) (k : M bool) (st : Store) :
  wait_for_files a = None \/ files_arrive c = true ->
  exists st1 evs,
    (check_localrules ;;
     (match wait_for_files a with
      | Some _ =>
          emit (Call "wait_for_files") ;;
          if files_arrive c then continue
          else logger Error "IOError" ;; return_ false
      | None => continue
      end) then_
     do (emit (Call "DAG") ;;
         emit (Call "Persistence") ;;
         w <- get_wf ;;
         when (negb (mode_default w)) (emit (Call "persistence.deactivate_cache"))) then_
     k) st
    = k st1
    /\ wf st1 = wf st
    /\ trace st1 = (trace st ++ evs)%list
    /\ maintenance_only evs.
Proof.
  intros Hwait. unfold check_localrules, maintenance_only. unfold_M. simpl.
  destruct (bool_decide _), (wait_for_files a) as [fs|]; simpl;
    try (destruct (files_arrive c); [|by destruct Hwait]); simpl;
    destruct (mode_default (wf st)); simpl;
    (eexists _, _; split; [reflexivity|]; simpl; split; [done|]; split;
     [ rewrite <- ?app_assoc; reflexivity
     | repeat constructor; unfold scheduler_event; try discriminate;
       intros [?|?]; discriminate ]).
Qed.

Lemma maintenance_only_logs (evs : list event) :
  Forall (fun e => exists level msg, e = Log level msg) evs -> maintenance_only evs.
Proof.
  intros H. unfold maintenance_only. eapply Forall_impl; [exact H|].
  intros e (level & msg & ->).
  repeat split; try discriminate. intros [?|?]; discriminate.
Qed.

Lemma execute_cleanup_metadata_stops (a : ExecArgs) (st : Store) :
  cleanup_metadata a <> [] ->
  exists st1 logs,
    execute_cleanup_metadata c a st = (Ok (Some true), st1)
    /\ wf st1 = wf st
    /\ trace st1 = (trace st ++ Call "persistence.cleanup_metadata" :: logs)%list
    /\ Forall (fun e => exists level msg, e = Log level msg) logs.
Proof.
  intros Hfiles. unfold execute_cleanup_metadata.
  destruct (cleanup_metadata a) as [|f files]; [done|].
  generalize (filter (fun f => metadata_cleaned c f = false) (f :: files)).
  intros [|bad failed]; unfold_M; simpl; eexists _, _;
    (split; [reflexivity|]); simpl; (split; [done|]);
    (split; [rewrite <- ?app_assoc; reflexivity|]); repeat constructor; eauto.
Qed.

Lemma execute_unlock_stops (a : ExecArgs) (st : Store) :
  unlock a = true ->
  exists st1 logs,
    execute_unlock c a st = (Ok (Some (locks_cleaned c)), st1)
    /\ wf st1 = wf st
    /\ trace st1 = (trace st ++ Call "persistence.cleanup_locks" :: logs)%list
    /\ Forall (fun e => exists level msg, e = Log level msg) logs.
Proof.
  intros Hunlock. unfold execute_unlock. rewrite Hunlock.
  destruct (locks_cleaned c); unfold_M; simpl; eexists _, _;
    (split; [reflexivity|]); simpl; (split; [done|]);
    (split; [rewrite <- ?app_assoc; reflexivity|]); repeat constructor; eauto.
Qed.

Lemma maintenance_only_call (what : string) (evs logs : list event) :
  what <> "dag.init" -> what <> "persistence.lock" ->
  what <> "JobScheduler" -> what <> "scheduler.schedule" ->
  maintenance_only evs ->
  Forall (fun e => exists level msg, e = Log level msg) logs ->
  Call what ∈ (evs ++ Call what :: logs)%list
  /\ maintenance_only (evs ++ Call what :: logs).
Proof.
  intros H1 H2 H3 H4 Hevs Hlogs. split.
  - apply elem_of_app. right. apply list_elem_of_here.
  - apply Forall_app. split; [done|]. constructor; [|by apply maintenance_only_logs].
    repeat split; try congruence. intros [?|?]; congruence.
Qed.

(** X25: cleaning metadata.  A run asked to clean the metadata of some files
    answers [True] once the awaited files are there, whether or not the
    metadata of every file could be removed; it asks the persistence layer
    to clean, and neither builds the job graph nor locks the directory.  The
    attributes of the controller that [Workflow] has here are left as they
    were; the persistence object that every run makes and keeps is the call
    [Persistence] among the events. *)
Theorem cleanup_metadata_run (a : ExecArgs) (st : Store) :
  cleanup_metadata a <> [] ->
  wait_for_files a = None \/ files_arrive c = true ->
  fst (execute subsnakemake c a st) = Ok true
  /\ wf (snd (execute subsnakemake c a st)) = wf st
  /\ exists evs, trace (snd (execute subsnakemake c a st)) = (trace st ++ evs)%list
       /\ Call "persistence.cleanup_metadata" ∈ evs
       /\ maintenance_only evs.
Proof.
  intros Hfiles Hwait. unfold execute.
  edestruct execute_start as (st1 & evs & -> & Hwf & Htrace & Hevs); [done|].
  destruct (execute_cleanup_metadata_stops a st1 Hfiles)
    as (st2 & logs & Hstop & Hwf2 & Htrace2 & Hlogs).
  rewrite (or_return_stops _ _ _ _ _ Hstop). simpl.
  split; [done|]. split; [congruence|].
  exists (evs ++ Call "persistence.cleanup_metadata" :: logs)%list.
  split; [by rewrite Htrace2, Htrace, <- app_assoc|].
  by apply maintenance_only_call.
Qed.

(** X26: unlocking.  A run asked to unlock the working directory, and not to
    clean metadata, answers whether the locks could be removed; it neither
    builds the job graph nor takes the lock itself.  The attributes of the
    controller that [Workflow] has here are left as they were; the
    persistence object that every run makes and keeps is the call
    [Persistence] among the events. *)
Theorem unlock_run (a : ExecArgs) (st : Store) :
  unlock a = true ->
  cleanup_metadata a = [] ->
  wait_for_files a = None \/ files_arrive c = true ->
  fst (execute subsnakemake c a st) = Ok (locks_cleaned c)
  /\ wf (snd (execute subsnakemake c a st)) = wf st
  /\ exists evs, trace (snd (execute subsnakemake c a st)) = (trace st ++ evs)%list
       /\ Call "persistence.cleanup_locks" ∈ evs
       /\ maintenance_only evs.
Proof.
  intros Hunlock Hfiles Hwait. unfold execute.
  edestruct execute_start as (st1 & evs & -> & Hwf & Htrace & Hevs); [done|].
  erewrite or_return_continues;
    [|unfold execute_cleanup_metadata; by rewrite Hfiles].
  destruct (execute_unlock_stops a st1 Hunlock)
    as (st2 & logs & Hstop & Hwf2 & Htrace2 & Hlogs).
  rewrite (or_return_stops _ _ _ _ _ Hstop). simpl.
  split; [done|]. split; [congruence|].
  exists (evs ++ Call "persistence.cleanup_locks" :: logs)%list.
  split; [by rewrite Htrace2, Htrace, <- app_assoc|].
  by apply maintenance_only_call.
Qed.

Lemma no_final_hook_absent (evs : list event) (what : string) :
  Forall no_final_hook evs -> what = "onsuccess" \/ what = "onerror" ->
  Call what ∉ evs.
Proof.
  intros Hevs Hwhat Hin. rewrite Forall_forall in Hevs.
  destruct (Hevs _ Hin) as [H1 H2]. destruct Hwhat as [->| ->]; congruence.
Qed.

Lemma hook_in_order_absent (what : string) (expected : bool) (answer : result bool)
    (evs : list event) :
  Call what ∉ evs -> hook_in_order what expected answer evs.
Proof.
  intros Hout before after ->. destruct Hout.
  apply elem_of_app. right. apply list_elem_of_here.
Qed.

(** Where an event occurs that the first part of a list does not hold. *)
Lemma app_eq_first_occurrence {A} (x : A) (l1 l2 before after : list A) :
  x ∉ l1 -> (l1 ++ l2 = before ++ x :: after)%list ->
  exists k, before = (l1 ++ k)%list /\ l2 = (k ++ x :: after)%list.
Proof.
  revert before. induction l1 as [|a l1 IH]; intros before Hx H; simpl in *.
  - by exists before.
  - destruct before as [|b before]; simpl in H.
    + injection H as -> _. destruct Hx. apply list_elem_of_here.
    + injection H as -> H. destruct (IH before) as (k & -> & ->); [|done|by exists k].
      intros Hin. apply Hx. by apply list_elem_of_further.
Qed.

Lemma hook_in_order_app (what : string) (expected : bool) (answer : result bool)
    (evs1 evs2 : list event) :
  Call what ∉ evs1 -> hook_in_order what expected answer evs2 ->
  hook_in_order what expected answer (evs1 ++ evs2).
Proof.
  intros Hout H before after E.
  destruct (app_eq_first_occurrence _ _ _ _ _ Hout E) as (k & -> & E2).
  destruct (H k after E2) as [Ha Hin]. split; [done|].
  apply elem_of_app. by right.
Qed.

Lemma hooks_agree_emits (m : M bool) : emits no_final_hook m -> hooks_agree m.
Proof.
  intros Hm st. destruct (Hm st) as (evs & Ht & Hevs). exists evs.
  split; [done|].
  split; apply hook_in_order_absent; eapply no_final_hook_absent; eauto.
Qed.

Lemma hooks_agree_bind {A} (m : M A) (k : A -> M bool) :
  emits no_final_hook m -> (forall x, hooks_agree (k x)) -> hooks_agree (bind m k).
Proof.
  intros Hm Hk st. unfold bind. destruct (Hm st) as (evs & Ht & Hevs).
  destruct (m st) as [[x|e] st1]; simpl in *.
  - destruct (Hk x st1) as (evs' & Ht' & Hs & He).
    exists (evs ++ evs')%list. rewrite Ht', Ht, app_assoc. split; [done|].
    split; (apply hook_in_order_app; [eapply no_final_hook_absent; eauto|done]).
  - exists evs. split; [done|].
    split; apply hook_in_order_absent; eapply no_final_hook_absent; eauto.
Qed.

Lemma hooks_agree_or_return (m : M (option bool)) (k : M bool) :
  emits no_final_hook m -> hooks_agree k -> hooks_agree (m then_ k).
Proof.
  intros Hm Hk. unfold or_return. apply hooks_agree_bind; [done|].
  intros [b|]; [|done]. apply hooks_agree_emits, emits_ret.
Qed.

Ltac no_hook := unfold no_final_hook; repeat emits_step.

(** Goes through a list of events that is given in full, up to the call of
    the hook. *)
Ltac find_hook :=
  match goal with
  | H : _ = (?before ++ _ :: _)%list |- _ =>
      destruct before; simplify_eq/=;
      try first [ split; [reflexivity|apply list_elem_of_here] | find_hook ]
  end.

(** After [onstart], the scheduler runs and the matching hook is called. *)
Lemma hooks_agree_scheduled (a : ExecArgs) :
  hooks_agree
    (emit (Call "onstart") ;;
     emit (Call "scheduler.schedule") ;;
     w <- get_wf ;;
     when (negb (_immediate_submit w) && negb false && mode_default w)
       (emit (Call "dag.cleanup_workdir")) ;;
     if schedule c then
       (when (stats a) (emit (Call "scheduler.stats.to_json")) ;;
        emit (Call "logger.logfile_hint")) ;;
       emit (Call "onsuccess") ;;
       ret true
     else
       emit (Call "onerror") ;;
       emit (Call "logger.logfile_hint") ;;
       ret false).
Proof.
  intros st. unfold_M. simpl.
  destruct (negb (_immediate_submit (wf st)) && true && mode_default (wf st)),
    (schedule c), (stats a); simpl;
    (eexists; split; [rewrite <- ?app_assoc; reflexivity|]);
    (split; intros before after H; simpl in H; find_hook).
Qed.

Lemma hooks_agree_schedule (a : ExecArgs) : hooks_agree (execute_schedule c a).
Proof.
  unfold execute_schedule.
  apply hooks_agree_bind; [no_hook|intros _].
  apply hooks_agree_bind; [no_hook|intros _].
  apply hooks_agree_or_return; [no_hook|].
  destruct (dryrun a) eqn:Hdry; [apply hooks_agree_emits; cbn [negb andb]; no_hook|].
  destruct (no_hooks a) eqn:Hhooks; [apply hooks_agree_emits; cbn [negb andb]; no_hook|].
  cbn [negb andb when]. apply hooks_agree_scheduled.
Qed.

(** X27: the hooks and the answer.  In every run, [onsuccess] is called only
    if the run answers [True], [onerror] only if it answers [False], and in
    the sequence of calls either comes only after a call of [onstart]. *)
Theorem hooks_follow_answer (a : ExecArgs) : hooks_agree (execute subsnakemake c a).
Proof.
  unfold execute.
  apply hooks_agree_bind; [no_hook|intros _].
  do 7 (apply hooks_agree_or_return; [no_hook|]).
  apply hooks_agree_or_return;
    [apply emits_subworkflows_block; intros; split; discriminate|].
  do 7 (apply hooks_agree_or_return; [no_hook|]).
  apply hooks_agree_schedule.
Qed.

End runs.

(** ** The further properties at work *)

(** Runs [decorate] on the rule and the directives at address 0 of the
    store [st] of the goal, names the result and gives it as the witness of
    the finalised rule. *)
Ltac finalise st st' E :=
  intros st;
  let res := fresh "res" in
  destruct (decorate 0%nat 0%nat "a" "a" false st) as [res st'] eqn:E;
  assert (res = Ok (Some 7%nat)) as ->
    by (apply (f_equal fst) in E; vm_compute in E; congruence);
  exists st'; split; [reflexivity|].

Lemma finalised_shadow_depth_witness :
  let st := store_deployed_rule in
  exists st',
    decorate 0%nat 0%nat "a" "a" false st = (Ok (Some 7%nat), st')
    /\ py_in (PStr "minimal") shadow_values = true
    /\ rule_shadow_depth (the_rule st' 0%nat) = PStr "minimal".
Proof.
  finalise st st' E.
  exact (finalised_shadow_depth 0%nat 0%nat "a" "a" false st st' (Some 7%nat) E).
Defined.

Lemma finalised_resources_valid_witness :
  let st := store_deployed_rule in
  exists st',
    decorate 0%nat 0%nat "a" "a" false st = (Ok (Some 7%nat), st')
    /\ ri_resources (accumulated st 0%nat) = Some ([], 0%nat)
    /\ forallb (fun v => isinstance_int v || isinstance_str v || callable v)
         (od_values (the_dict st 0%nat)) = true.
Proof.
  finalise st st' E. split; [reflexivity|].
  apply (finalised_resources_valid 0%nat 0%nat "a" "a" false st st' (Some 7%nat) [] 0%nat E).
  reflexivity.
Defined.

Lemma finalised_priority_witness :
  let st := store_deployed_rule in
  exists st',
    decorate 0%nat 0%nat "a" "a" false st = (Ok (Some 7%nat), st')
    /\ isinstance_int (PInt 5) || isinstance_float (PInt 5) = true
    /\ rule_priority (the_rule st' 0%nat) = PInt 5.
Proof.
  finalise st st' E.
  exact (finalised_priority 0%nat 0%nat "a" "a" false st st' (Some 7%nat) E).
Defined.

Lemma finalised_restart_times_witness :
  let st := store_deployed_rule in
  exists st',
    decorate 0%nat 0%nat "a" "a" false st = (Ok (Some 7%nat), st')
    /\ rule_restart_times (the_rule st' 0%nat) = PInt 2.
Proof.
  finalise st st' E.
  exact (proj2 (finalised_restart_times 0%nat 0%nat "a" "a" false st st' (Some 7%nat) E)).
Defined.

Lemma finalised_group_witness :
  let st := store_deployed_rule in
  exists st',
    decorate 0%nat 0%nat "a" "a" false st = (Ok (Some 7%nat), st')
    /\ rule_group (the_rule st' 0%nat) = PStr "g".
Proof.
  finalise st st' E.
  exact (finalised_group 0%nat 0%nat "a" "a" false st st' (Some 7%nat) E).
Defined.

Lemma finalised_deployment_needs_script_witness :
  let st := store_deployed_rule in
  exists st',
    decorate 0%nat 0%nat "a" "a" false st = (Ok (Some 7%nat), st')
    /\ truthy (ri_container_img (accumulated st 0%nat)) = true
    /\ invalid_rule (accumulated st 0%nat) = false.
Proof.
  finalise st st' E. split; [reflexivity|].
  apply (finalised_deployment_needs_script 0%nat 0%nat "a" "a" false st st' (Some 7%nat) E).
  reflexivity.
Defined.

Lemma finalised_container_witness :
  let st := store_deployed_rule in
  exists st',
    decorate 0%nat 0%nat "a" "a" false st = (Ok (Some 7%nat), st')
    /\ (rule_container_img (the_rule st' 0%nat), rule_is_containerized (the_rule st' 0%nat))
       = (PStr "docker://img", false).
Proof.
  finalise st st' E.
  exact (finalised_container 0%nat 0%nat "a" "a" false st st' (Some 7%nat) E).
Defined.

Lemma finalised_default_target_witness :
  let st := store_deployed_rule in
  exists st',
    decorate 0%nat 0%nat "a" "a" false st = (Ok (Some 7%nat), st')
    /\ default_target (wf st') = Some (rule_name (the_rule st' 0%nat)).
Proof.
  finalise st st' E.
  exact (finalised_default_target 0%nat 0%nat "a" "a" false st st' (Some 7%nat) E).
Defined.

Lemma finalised_local_rule_witness :
  let st := store_deployed_rule in
  exists st',
    decorate 0%nat 0%nat "a" "a" false st = (Ok (Some 7%nat), st')
    /\ rule_name (the_rule st' 0%nat) ∈ _localrules (wf st').
Proof.
  finalise st st' E.
  apply (finalised_local_rule 0%nat 0%nat "a" "a" false st st' (Some 7%nat) E).
  reflexivity.
Defined.

Lemma finalised_handover_witness :
  let st := store_handover_rule in
  exists st',
    decorate 0%nat 0%nat "a" "a" false st = (Ok (Some 7%nat), st')
    /\ rule_is_handover (the_rule st' 0%nat) = true
    /\ rule_resources (the_rule st' 0%nat) !! "_cores" = Some (PInt 1).
Proof.
  finalise st st' E.
  destruct (finalised_handover 0%nat 0%nat "a" "a" false st st' (Some 7%nat) E)
    as [Hmark Hres]; [reflexivity|].
  split; [exact Hmark|]. apply Hres; reflexivity.
Defined.

Lemma finalised_overwrite_resources_witness :
  let st := store_deployed_rule in
  exists st',
    decorate 0%nat 0%nat "a" "a" false st = (Ok (Some 7%nat), st')
    /\ rule_resources (the_rule st' 0%nat) !! "mem" = Some (PInt 200).
Proof.
  finalise st st' E.
  apply (finalised_overwrite_resources 0%nat 0%nat "a" "a" false st st' (Some 7%nat)
           [("mem", PInt 200)] E).
  - reflexivity.
  - vm_compute. auto.
  - reflexivity.
Defined.

Lemma finalised_function_witness :
  let st := store_deployed_rule in
  let st' := snd (decorate 0%nat 0%nat "a" "a" false st) in
  decorate 0%nat 0%nat "a" "a" false st = (Ok (Some 7%nat), st')
  /\ func_names st' !! 7%nat = Some "__a"
  /\ the_namespace st' 0%nat !! "__a" = Some (PFunc 7%nat).
Proof.
  intros st st'.
  assert (decorate 0%nat 0%nat "a" "a" false st = (Ok (Some 7%nat), st')) as E
    by (vm_compute; reflexivity).
  split; [exact E|].
  destruct (finalised_function 0%nat 0%nat "a" "a" false st st' (Some 7%nat) E)
    as (fn & Hf & _ & H).
  injection Hf as <-. exact H.
Defined.

Lemma finalised_rule_proxy_witness :
  let st := store_renamed_rule in
  let st' := snd (decorate 0%nat 0%nat "a" "a" false st) in
  decorate 0%nat 0%nat "a" "a" false st = (Ok (Some 7%nat), st')
  /\ rules_proxy st' !! "b" = Some 0%nat
  /\ rules_proxy st' !! "a" = Some 0%nat
  /\ rule_ruleinfo (the_rule st' 0%nat) = Some 0%nat.
Proof.
  intros st st'.
  assert (decorate 0%nat 0%nat "a" "a" false st = (Ok (Some 7%nat), st')) as E
    by (vm_compute; reflexivity).
  split; [exact E|].
  exact (finalised_rule_proxy 0%nat 0%nat "a" "a" false st st' (Some 7%nat) E).
Defined.

Lemma get_rule_after_add_rule_witness :
  let st := store_with_rule_a in
  exists st' r,
    add_rule "b" PNone PNone false false st = (Ok "b", st')
    /\ get_rule "b" st' = (Ok r, st')
    /\ rule_objs st !! r = None
    /\ the_rule st' r = new_Rule "b" PNone PNone.
Proof.
  intros st.
  destruct (add_rule "b" PNone PNone false false st) as [res st'] eqn:E.
  assert (res = Ok "b") as -> by (apply (f_equal fst) in E; vm_compute in E; congruence).
  destruct (get_rule_after_add_rule "b" PNone PNone false false st st' "b" E)
    as (_ & r & H).
  exists st', r. split; [reflexivity|exact H].
Defined.

Lemma add_rule_counts_witness :
  let st := store_with_rule_a in
  exists st',
    add_rule "b" PNone PNone false false st = (Ok "b", st')
    /\ registry_counted (wf st)
    /\ registry_counted (wf st').
Proof.
  intros st.
  destruct (add_rule "b" PNone PNone false false st) as [res st'] eqn:E.
  assert (res = Ok "b") as -> by (apply (f_equal fst) in E; vm_compute in E; congruence).
  assert (registry_counted (wf st)) as H.
  { split; [|reflexivity]. vm_compute. apply NoDup_singleton. }
  exists st'. split; [reflexivity|]. split; [exact H|].
  exact (proj1 (add_rule_counts "b" PNone PNone false false st st' "b" H E)).
Defined.

Lemma name_directive_renames_witness :
  let st := store_renamed_rule in
  exists st',
    decorate 0%nat 0%nat "a" "a" false st = (Ok (Some 7%nat), st')
    /\ is_rule (wf st) "a" = true
    /\ od_get (_rules (wf st')) "b" = Some 0%nat
    /\ is_rule (wf st') "a" = false.
Proof.
  finalise st st' E.
  destruct (name_directive_renames 0%nat 0%nat "a" "a" false st st' (Some 7%nat) "b" E)
    as (Hold & _ & Hnew & Hgone); [reflexivity|discriminate|].
  split; [exact Hold|]. split; [exact Hnew|].
  apply Hgone; [|discriminate]. vm_compute. apply NoDup_singleton.
Defined.

Lemma name_directive_replaces_witness :
  let st := store_renamed_onto_a in
  exists st',
    decorate 1%nat 1%nat "c" "c" false st = (Ok (Some 8%nat), st')
    /\ od_get (_rules (wf st)) "a" = Some 0%nat
    /\ od_get (_rules (wf st')) "a" = Some 1%nat
    /\ S (length (_rules (wf st'))) = length (_rules (wf st)).
Proof.
  intros st.
  destruct (decorate 1%nat 1%nat "c" "c" false st) as [res st'] eqn:E.
  assert (res = Ok (Some 8%nat)) as ->
    by (apply (f_equal fst) in E; vm_compute in E; congruence).
  exists st'. split; [reflexivity|]. split; [reflexivity|].
  apply (name_directive_replaces 1%nat 1%nat "c" "c" false st st' (Some 8%nat) "a" 0%nat E).
  - reflexivity.
  - discriminate.
  - discriminate.
  - reflexivity.
Defined.

Lemma first_rule_is_default_target_witness :
  let st := new_Store default_args some_externals in
  exists names st',
    register_all named_then_unnamed st = (Ok names, st')
    /\ default_target (wf st') = Some "a".
Proof.
  intros st.
  destruct (register_all named_then_unnamed st) as [res st'] eqn:E.
  assert (res = Ok [Some "a"; Some "2"]) as ->
    by (apply (f_equal fst) in E; vm_compute in E; congruence).
  exists [Some "a"; Some "2"], st'. split; [reflexivity|].
  apply (first_rule_is_default_target named_then_unnamed st st'
           [Some "a"; Some "2"] [Some "2"] "a").
  - vm_compute. repeat split.
  - reflexivity.
  - repeat constructor.
  - exact E.
  - reflexivity.
  - discriminate.
Defined.

Lemma register_envvars_twice_witness :
  let st := new_Store default_args some_externals in
  exists st',
    register_envvars ["HOME"; "PATH"] st = (Ok tt, st')
    /\ register_envvars ["HOME"; "PATH"] st' = (Ok tt, st').
Proof.
  intros st.
  destruct (register_envvars ["HOME"; "PATH"] st) as [res st'] eqn:E.
  assert (res = Ok tt) as -> by (apply (f_equal fst) in E; vm_compute in E; congruence).
  exists st'. split; [reflexivity|].
  exact (register_envvars_twice ["HOME"; "PATH"] st st' E).
Defined.

Lemma dry_run_spares_hooks_witness :
  dryrun dry_run = true
  /\ emits (fun e => e ∉ not_for_dry_run)
       (execute leaking_run (collaborators []) dry_run).
Proof.
  split; [reflexivity|].
  exact (dry_run_spares_hooks leaking_run (collaborators []) dry_run eq_refl).
Defined.

Lemma inspection_never_schedules_witness :
  inspection summary_run = true
  /\ unscheduled (execute leaking_run (collaborators []) summary_run).
Proof.
  split; [reflexivity|].
  exact (inspection_never_schedules leaking_run (collaborators []) summary_run eq_refl).
Defined.

Lemma cleanup_metadata_run_witness :
  let st := store_with_rule_a in
  let run := execute leaking_run (collaborators []) cleanup_metadata_run_args st in
  cleanup_metadata cleanup_metadata_run_args <> []
  /\ fst run = Ok true
  /\ wf (snd run) = wf st
  /\ exists evs, trace (snd run) = (trace st ++ evs)%list
       /\ Call "persistence.cleanup_metadata" ∈ evs
       /\ maintenance_only evs.
Proof.
  intros st run. split; [discriminate|].
  apply (cleanup_metadata_run leaking_run (collaborators []) cleanup_metadata_run_args st).
  - discriminate.
  - left. reflexivity.
Defined.

Lemma unlock_run_witness :
  let st := store_with_rule_a in
  let run := execute leaking_run (collaborators []) unlock_run_args st in
  unlock unlock_run_args = true
  /\ fst run = Ok true
  /\ wf (snd run) = wf st
  /\ exists evs, trace (snd run) = (trace st ++ evs)%list
       /\ Call "persistence.cleanup_locks" ∈ evs
       /\ maintenance_only evs.
Proof.
  intros st run. split; [reflexivity|].
  apply (unlock_run leaking_run (collaborators []) unlock_run_args st).
  - reflexivity.
  - reflexivity.
  - left. reflexivity.
Defined.

Lemma container_none_opts_out_witness :
  let st0 := store_before_container_none in
  exists st st',
    global_container_img (wf st0) = PStr "docker://base"
    /\ container PNone 0%nat st0 = (Ok 0%nat, st)
    /\ decorate 0%nat 0%nat "a" "a" false st = (Ok (Some 7%nat), st')
    /\ rule_container_img (the_rule st' 0%nat) = rule_container_img (the_rule st0 0%nat)
    /\ rule_is_containerized (the_rule st' 0%nat)
       = rule_is_containerized (the_rule st0 0%nat).
Proof.
  intros st0.
  destruct (container PNone 0%nat st0) as [r st] eqn:Ec.
  assert (r = Ok 0%nat) as -> by (apply (f_equal fst) in Ec; vm_compute in Ec; congruence).
  destruct (decorate 0%nat 0%nat "a" "a" false st) as [res st'] eqn:E.
  assert (res = Ok (Some 7%nat)) as ->.
  { apply (f_equal snd) in Ec. simpl in Ec. subst st.
    apply (f_equal fst) in E. vm_compute in E. congruence. }
  exists st, st'. split; [reflexivity|]. split; [reflexivity|]. split; [exact E|].
  exact (proj2 (container_none_opts_out 0%nat 0%nat "a" "a" false st0 st st' (Some 7%nat)
                  0%nat eq_refl Ec E)).
Defined.

Lemma global_container_applies_witness :
  let st0 := store_plain_rule in
  exists st st',
    global_containerized (PStr "docker://base") st0 = (Ok tt, st)
    /\ decorate 0%nat 0%nat "a" "a" false st = (Ok (Some 7%nat), st')
    /\ rule_container_img (the_rule st' 0%nat) = PStr "docker://base"
    /\ rule_is_containerized (the_rule st' 0%nat) = true.
Proof.
  intros st0.
  destruct (global_containerized (PStr "docker://base") st0) as [r st] eqn:Ec.
  assert (r = Ok tt) as -> by (apply (f_equal fst) in Ec; vm_compute in Ec; congruence).
  destruct (decorate 0%nat 0%nat "a" "a" false st) as [res st'] eqn:E.
  assert (res = Ok (Some 7%nat)) as ->.
  { apply (f_equal snd) in Ec. simpl in Ec. subst st.
    apply (f_equal fst) in E. vm_compute in E. congruence. }
  exists st, st'. split; [reflexivity|]. split; [exact E|].
  apply (global_container_applies 0%nat 0%nat "a" "a" false st0 st st' (Some 7%nat)
           (PStr "docker://base") true Ec).
  - reflexivity.
  - reflexivity.
  - reflexivity.
  - exact E.
Defined.
